(** * Bezier curves of sdfx ([sdf/bezier.go]): a shallow embedding

    The Go module builds a curve from tagged vertices (endpoints, midpoints
    and polar slope handles), normalises the vertex list ([fixups]), cuts it
    into splines of order 1 to 4 and samples every spline into a polygon.

    Numbers are Go [float64] values.  They are embedded as Rocq's primitive
    binary64 floats, whose [+], [-], [*], [/] and comparisons are the IEEE 754
    operations in round-to-nearest-even (no fused multiply-add is assumed).
    A Go [panic] is a value of [panic]; a function that may panic returns a
    [result].  The functions of Go's [math] package that the module calls
    are a parameter ([Libm]).

    The SVG path converter of the repository ([unnamed/part_000]), which
    prints calls of this API, is embedded after the Go module. *)

From Stdlib Require Import String Ascii ZArith List Floats Lia Bool.
Import ListNotations.

Set Warnings "-inexact-float".
Open Scope float_scope.

(** ** Panics and results *)

(** The panics of [bezier.go], one constructor per message, and the
    run-time panic of an out-of-range slice index. *)
Inductive panic : Type :=
| bad_polynomial_order (n : Z)
| first_control_vertex_should_be_an_endpoint
| bad_vertex_type
| bezier_curve_must_have_at_least_two_points
| bezier_curve_must_start_with_an_endpoint
| non_closed_bezier_curve_must_end_with_an_endpoint
| cant_place_a_handle_on_a_curve_midpoint
| index_out_of_range (i : Z) (len : nat).

(** [OutOfFuel] is not a behaviour of the program: it marks a loop of the
    model that was given too few iterations. *)
Inductive result (A : Type) : Type :=
| Ok (x : A)
| Panic (p : panic)
| OutOfFuel.

Arguments Ok {A} x.
Arguments Panic {A} p.
Arguments OutOfFuel {A}.

Definition bind {A B : Type} (r : result A) (k : A -> result B) : result B :=
  match r with
  | Ok x => k x
  | Panic p => Panic p
  | OutOfFuel => OutOfFuel
  end.

Notation "x <- r ;; k" := (bind r (fun x => k))
  (at level 61, r at next level, right associativity).

(** ** Numeric helpers of the package that [bezier.go] calls *)

Definition POLY_EPSILON : float := 1e-12.

(** Modelled from the spec: [PI] is declared elsewhere in the package; the
    spec writes the reverse handle angle as "angle+π".  Here the binary64
    value nearest to π (Go's [math.Pi] converted to [float64]). *)
Definition PI : float := 0x1.921fb54442d18p+1.

(** Modelled from the spec: [Abs] is declared elsewhere in the package; the
    spec calls it the absolute value ("|coef|", "|slopeAngle(..) − ..|"). *)
Definition Abs (x : float) : float := abs x.

(** Modelled from the spec: [ZeroSmall] is declared elsewhere in the
    package; the spec says "any coefficient with |coef| ≤ 1e-12·S [...] is
    replaced by 0", [S] being the sum of the absolute coefficients. *)
Definition ZeroSmall (x y epsilon : float) : float :=
  if Abs x <=? epsilon * y then 0 else x.

(** ** Points *)

Record V2 : Type := mkV2 { X : float; Y : float }.

Module V2ops.

(** Modelled from the spec: the vector type and its arithmetic are
    declared elsewhere in the package; [Add] is the coordinate-wise sum
    ("vertex.point + polarToCartesian(..)"). *)
Definition Add (a b : V2) : V2 := mkV2 (X a + X b) (Y a + Y b).

(** Modelled from the spec: [Equals] is declared elsewhere in the
    package.  [closure] calls it with tolerance 0 only, which the spec
    describes as "coordinate-equal (exact equality, no tolerance)"; the
    tolerance argument is therefore not represented.  Equality is Go's
    [==] on [float64]. *)
Definition Equals (a b : V2) : bool := (X a =? X b) && (Y a =? Y b).

End V2ops.

(** ** Go's [math] package *)

Class Libm : Type := {
  Atan2 : float -> float -> float;
  Cos : float -> float;
  Sin : float -> float
}.

(** Modelled from the spec: [PolarToXY] is declared elsewhere in the
    package; the spec calls it "polarToCartesian(handleAngle,
    handleRadius)".  The call in [handles] passes the radius first. *)
Definition PolarToXY `{Libm} (r theta : float) : V2 :=
  mkV2 (r * Cos theta) (r * Sin theta).

(** ** Polygons *)

(** Modelled from the spec: the polygon container is declared elsewhere in
    the package; the spec describes it as an "ordered sequence of 2D
    points, append-only". *)
Definition Polygon : Type := list V2.

(** Modelled from the spec: [NewPolygon] is declared elsewhere in the
    package; it returns the empty sequence of points. *)
Definition NewPolygon : Polygon := [].

(** Modelled from the spec: the polygon's [AddV2] is declared elsewhere in
    the package; it appends one point ("append-only"). *)
Definition Polygon_AddV2 (p : Polygon) (x : V2) : Polygon := p ++ [x].

(** ** Bezier polynomials *)

Module BezierPolynomial.

Record t : Type := mk {
  n : Z;        (* polynomial order *)
  a : float;    (* polynomial coefficients *)
  b : float;
  c : float;
  d : float;
  e : float
}.

(** The zero value of the Go struct. *)
Definition zero : t := mk 0 0 0 0 0 0.

(** Return the bezier polynomial function value. *)
Definition f0 (p : t) (t : float) : result float :=
  match n p with
  | 1%Z => Ok (a p + t * b p)
  | 2%Z => Ok (a p + t * (b p + t * c p))
  | 3%Z => Ok (a p + t * (b p + t * (c p + t * d p)))
  | 4%Z => Ok (a p + t * (b p + t * (c p + t * (d p + t * e p))))
  | k => Panic (bad_polynomial_order k)
  end.

(** Return the 1st derivative of the bezier polynomial. *)
Definition f1 (p : t) (t : float) : result float :=
  match n p with
  | 1%Z => Ok (b p)
  | 2%Z => Ok (b p + t * 2 * c p)
  | 3%Z => Ok (b p + t * (2 * c p + t * 3 * d p))
  | 4%Z => Ok (b p + t * (2 * c p + t * (3 * d p + t * 4 * e p)))
  | k => Panic (bad_polynomial_order k)
  end.

(** Return the 2nd derivative of the bezier polynomial. *)
Definition f2 (p : t) (t : float) : result float :=
  match n p with
  | 1%Z => Ok 0
  | 2%Z => Ok (2 * c p)
  | 3%Z => Ok (2 * (c p + t * 3 * d p))
  | 4%Z => Ok (2 * (c p + t * 3 * (d p + t * 2 * e p)))
  | k => Panic (bad_polynomial_order k)
  end.

(** [x[i]] for an index the [switch] of [Set] has put in range. *)
Definition at_ (x : list float) (i : nat) : float := nth i x 0.

(** The [switch] of [Set]: the coefficients from the control values.
    Coefficients that a case does not assign keep their value. *)
Definition coefficients (p : t) (x : list float) : result t :=
  let n := (Z.of_nat (length x) - 1)%Z in
  let x0 := at_ x 0 in
  let x1 := at_ x 1 in
  let x2 := at_ x 2 in
  let x3 := at_ x 3 in
  let x4 := at_ x 4 in
  match n with
  | 1%Z => Ok (mk n x0 (- x0 + x1) (c p) (d p) (e p))
  | 2%Z => Ok (mk n x0 (-2 * x0 + 2 * x1) (x0 - 2 * x1 + x2) (d p) (e p))
  | 3%Z => Ok (mk n x0 (-3 * x0 + 3 * x1) (3 * x0 - 6 * x1 + 3 * x2)
                 (- x0 + 3 * x1 - 3 * x2 + x3) (e p))
  | 4%Z => Ok (mk n x0 (-4 * x0 + 4 * x1) (6 * x0 - 12 * x1 + 6 * x2)
                 (-4 * x0 + 12 * x1 - 12 * x2 + 4 * x3)
                 (x0 - 4 * x1 + 6 * x2 - 4 * x3 + x4))
  | k => Panic (bad_polynomial_order k)
  end.

(** The sum of the absolute coefficients. *)
Definition abs_sum (p : t) : float :=
  Abs (a p) + Abs (b p) + Abs (c p) + Abs (d p) + Abs (e p).

(** The tail of [Set]: zero out any very small coefficients. *)
Definition zero_small (p : t) : t :=
  let sum := abs_sum p in
  mk (n p)
     (ZeroSmall (a p) sum POLY_EPSILON)
     (ZeroSmall (b p) sum POLY_EPSILON)
     (ZeroSmall (c p) sum POLY_EPSILON)
     (ZeroSmall (d p) sum POLY_EPSILON)
     (ZeroSmall (e p) sum POLY_EPSILON).

(** Given the end/control points calculate the polynomial coefficients
    (Go's [Set]; the name is a keyword here). *)
Definition Set_ (p : t) (x : list float) : result t :=
  q <- coefficients p x ;;
  Ok (zero_small q).

End BezierPolynomial.

(** ** Bezier splines *)

Module BezierSpline.

Record t : Type := mk {
  px : BezierPolynomial.t;   (* x/y bezier polynomials *)
  py : BezierPolynomial.t
}.

(** Return the function value for a given t value. *)
Definition f0 (s : t) (t : float) : result V2 :=
  x <- BezierPolynomial.f0 (px s) t ;;
  y <- BezierPolynomial.f0 (py s) t ;;
  Ok (mkV2 x y).

(** Return the curve slope (as an angle) for a given t value. *)
Definition slope `{Libm} (s : t) (t : float) : result float :=
  y1 <- BezierPolynomial.f1 (py s) t ;;
  x1 <- BezierPolynomial.f1 (px s) t ;;
  Ok (Atan2 y1 x1).

(** The error value that [m1] builds with [fmt.Errorf("inf")]. *)
Inductive error : Type := Errorf_inf.

(** Return the rate of change of curve slope for a given t value: the
    returned number and the returned error ([None] for [nil]). *)
Definition m1 (s : t) (t : float) : result (float * option error) :=
  x1 <- BezierPolynomial.f1 (px s) t ;;
  y1 <- BezierPolynomial.f1 (py s) t ;;
  x2 <- BezierPolynomial.f2 (px s) t ;;
  y2 <- BezierPolynomial.f2 (py s) t ;;
  if x1 =? 0 then Ok (0, Some Errorf_inf)
  else Ok ((x1 * y2 - y1 * x2) / x1 * x1, None).

(** Return the order of the bezier polynomial. *)
Definition order (s : t) : Z := BezierPolynomial.n (px s).

Definition NewBezierSpline (p : list V2) : result t :=
  let x := map X p in
  let y := map Y p in
  px <- BezierPolynomial.Set_ BezierPolynomial.zero x ;;
  py <- BezierPolynomial.Set_ BezierPolynomial.zero y ;;
  Ok (mk px py).

End BezierSpline.

(** ** Bezier vertices *)

(** The Go type is an [int] with these two constants.  No other value is
    ever built, so the branches of [closure] and [Polygon] that panic on a
    third tag or a third state have no counterpart here. *)
Inductive BezierVertexType : Type :=
| ENDPOINT    (* endpoint *)
| MIDPOINT.   (* midpoint *)

Definition BezierVertexType_eqb (x y : BezierVertexType) : bool :=
  match x, y with
  | ENDPOINT, ENDPOINT | MIDPOINT, MIDPOINT => true
  | _, _ => false
  end.

(** A method with a pointer receiver: the receiver after the call, and what
    the call returned.  A panicking call leaves the receiver as it was when
    the panic was raised. *)
Definition method (S A : Type) : Type := S -> S * result A.

Definition and_then {S A B : Type} (m : method S A) (k : A -> method S B)
  : method S B :=
  fun s =>
    match m s with
    | (s', Ok x) => k x s'
    | (s', Panic p) => (s', Panic p)
    | (s', OutOfFuel) => (s', OutOfFuel)
    end.

Module BezierVertex.

Record t : Type := mk {
  vtype : BezierVertexType;   (* type of bezier vertex *)
  vertex : V2;                (* vertex coordinates *)
  handle_fwd : V2;            (* polar coordinates of forward handle *)
  handle_rev : V2             (* polar coordinates of reverse handle *)
}.

(** The zero value of [V2]. *)
Definition V2_zero : V2 := mkV2 0 0.

(** Mid marks the vertex as a mid-curve control point. *)
Definition Mid : method t unit :=
  fun v => (mk MIDPOINT (vertex v) (handle_fwd v) (handle_rev v), Ok tt).

(** Set the slope handle in the forward direction. *)
Definition HandleFwd (theta r : float) : method t unit :=
  fun v =>
    match vtype v with
    | MIDPOINT => (v, Panic cant_place_a_handle_on_a_curve_midpoint)
    | ENDPOINT =>
        (mk (vtype v) (vertex v) (mkV2 (Abs r) theta) (handle_rev v), Ok tt)
    end.

(** Set the slope handle in the reverse direction. *)
Definition HandleRev (theta r : float) : method t unit :=
  fun v =>
    match vtype v with
    | MIDPOINT => (v, Panic cant_place_a_handle_on_a_curve_midpoint)
    | ENDPOINT =>
        (mk (vtype v) (vertex v) (handle_fwd v) (mkV2 (Abs r) theta), Ok tt)
    end.

(** Handle marks the vertex with a slope control handle. *)
Definition Handle (theta fwd rev : float) : method t unit :=
  and_then (HandleFwd theta fwd) (fun _ => HandleRev (theta + PI) rev).

End BezierVertex.

(** ** Bezier curves *)

Module Bezier.

Import BezierVertex.

Record t : Type := mk {
  closed : bool;                 (* is the curve closed or open? *)
  vlist : list BezierVertex.t    (* list of bezier vertices *)
}.

(** *** Public API *)

(** Returns an empty bezier curve. *)
Definition NewBezier : t := mk false [].

(** Close the bezier curve. *)
Definition Close (b : t) : t := mk true (vlist b).

(** Add a V2 vertex to a polygon.  The Go method returns a pointer to the
    new last element of [vlist]; [on_last] runs a vertex method through
    that pointer. *)
Definition AddV2 (x : V2) (b : t) : t :=
  mk (closed b) (vlist b ++ [BezierVertex.mk ENDPOINT x V2_zero V2_zero]).

(** Add an x,y vertex to a polygon. *)
Definition Add (x y : float) (b : t) : t := AddV2 (mkV2 x y) b.

Definition on_last {A : Type} (m : method BezierVertex.t A) : method t A :=
  fun b =>
    match rev (vlist b) with
    | [] => (b, Panic (index_out_of_range (-1) 0))
    | v :: front =>
        let (v', r) := m v in (mk (closed b) (rev front ++ [v']), r)
    end.

(** *** Post definition control point fixups *)

Section WithLibm.
Context `{Libm}.

(** The body of the first loop of [handles]: the vertices that one vertex
of the curve contributes to the new control vertex list. *)
Definition expand (v : BezierVertex.t) : list BezierVertex.t :=
let fwd := handle_fwd v in
let rev := handle_rev v in
let v := BezierVertex.mk (vtype v) (vertex v) V2_zero V2_zero in
(* add a control midpoint for the reverse handle *)
(if X rev =? 0 then []
 else [BezierVertex.mk MIDPOINT
       (V2ops.Add (PolarToXY (X rev) (Y rev)) (vertex v))
       V2_zero V2_zero])
(* add the original curve end point *)
++ [v]
(* add a control midpoint for the forward handle *)
++ (if X fwd =? 0 then []
  else [BezierVertex.mk MIDPOINT
          (V2ops.Add (PolarToXY (X fwd) (Y fwd)) (vertex v))
          V2_zero V2_zero]).

(** The new control vertex list, before it is rotated. *)
Definition expand_all (vl : list BezierVertex.t) : list BezierVertex.t :=
fold_left (fun acc v => acc ++ expand v) vl [].

(** [for i = range vlist { if vlist[i].vtype == ENDPOINT { break } }]:
the index of the first endpoint; the last index when there is no
endpoint; 0 for the empty list. *)
Fixpoint first_endpoint (vl : list BezierVertex.t) (i : nat) : nat :=
match vl with
| [] => i
| v :: rest =>
  match vtype v with
  | ENDPOINT => i
  | MIDPOINT =>
      match rest with
      | [] => i
      | _ :: _ => first_endpoint rest (S i)
      end
  end
end.

(** Convert handles to control points. *)
Definition handles (b : t) : t :=
let vl := expand_all (vlist b) in
(* find the first endpoint control vertex *)
let i := first_endpoint vl 0 in
(* move any leading midpoints to the end of the list *)
let vl := if Nat.eqb i 0 then vl else skipn i vl ++ firstn i vl in
(* replace the original control vertex list *)
mk (closed b) vl.

(** Take care of curve closure. *)
Definition closure (b : t) : result t :=
(* do we need to close the curve? *)
if negb (closed b) then Ok b
else
match vlist b with
| [] => Panic (index_out_of_range 0 0)
| first :: _ =>
    let last := List.last (vlist b) first in
    match vtype first with
    | MIDPOINT => Panic first_control_vertex_should_be_an_endpoint
    | ENDPOINT =>
        match vtype last with
        | ENDPOINT =>
            if negb (V2ops.Equals (vertex last) (vertex first))
            then
              (* the first and last vertices aren't equal:
                 add the first vertex to close the curve *)
              Ok (mk (closed b) (vlist b ++ [first]))
            else Ok b
        | MIDPOINT =>
            (* add the first vertex to close the curve *)
            Ok (mk (closed b) (vlist b ++ [first]))
        end
    end
end.

(** Do some validation checks on the control vertices. *)
Definition validate (b : t) : result unit :=
let n := length (vlist b) in
if (n <? 2)%nat then Panic bezier_curve_must_have_at_least_two_points
else
match vlist b with
| [] => Panic (index_out_of_range 0 0)
| first :: _ =>
    match vtype first with
    | MIDPOINT => Panic bezier_curve_must_start_with_an_endpoint
    | ENDPOINT =>
        if negb (closed b)
           && negb (BezierVertexType_eqb
                      (vtype (List.last (vlist b) first)) ENDPOINT)
        then Panic non_closed_bezier_curve_must_end_with_an_endpoint
        else Ok tt
    end
end.

(** Post definition control point fixups. *)
Definition fixups (b : t) : result t :=
let b := handles b in
b <- closure b ;;
_ <- validate b ;;
Ok b.

(** *** Return a polygon approximating the bezier curve *)

(** The first loop of [Polygon]: generate the splines from the vertices.
[vl] is [b.vlist[i:]], so that [i == n-1] reads "[vl] has one element".
Every iteration either advances [i] or leaves the midpoint state, so
[fuel] iterations are enough when [fuel] is more than twice the
length of the list. *)
Fixpoint splines_loop (fuel : nat) (vl : list BezierVertex.t)
(state : BezierVertexType) (vertices : list V2)
(splines : list BezierSpline.t) : result (list BezierSpline.t) :=
match fuel with
| O => OutOfFuel
| S fuel =>
  match vl with
  | [] => Ok splines
  | v :: rest =>
      match state, vtype v with
      | ENDPOINT, ENDPOINT =>
          (* start of spline; get the midpoints *)
          splines_loop fuel rest MIDPOINT [vertex v] splines
      | ENDPOINT, MIDPOINT => Panic bad_vertex_type
      | MIDPOINT, ENDPOINT =>
          (* end of spline *)
          let vertices := vertices ++ [vertex v] in
          s <- BezierSpline.NewBezierSpline vertices ;;
          let splines := splines ++ [s] in
          (* this endpoint is the start of the next spline,
             don't advance; check for the last endpoint *)
          match rest with
          | [] => Ok splines
          | _ :: _ => splines_loop fuel vl ENDPOINT vertices splines
          end
      | MIDPOINT, MIDPOINT =>
          (* add a spline midpoint *)
          splines_loop fuel rest MIDPOINT (vertices ++ [vertex v]) splines
      end
  end
end.

Definition make_splines (vl : list BezierVertex.t)
: result (list BezierSpline.t) :=
splines_loop (2 * length vl + 1) vl ENDPOINT [] [].

Definition dtmin : float := 1 / 999.
Definition epsilon : float := 0.1.

(** The next value of [t] in the sampling loop, given [dtheta]. *)
Definition next_t (t dtheta : float) : float :=
if dtheta <? epsilon then t + dtmin * (epsilon / dtheta)
else t + dtmin.

(** The sampling loop [for t < 1.0 { ... }] of a spline that is not
linear, with at most [fuel] evaluations of its guard. *)
Fixpoint sample_loop (fuel : nat) (s : BezierSpline.t) (t : float)
(p : Polygon) : result Polygon :=
match fuel with
| O => OutOfFuel
| S fuel =>
  if t <? 1 then
    v <- BezierSpline.f0 s t ;;
    let p := Polygon_AddV2 p v in
    s1 <- BezierSpline.slope s (t + dtmin) ;;
    s0 <- BezierSpline.slope s t ;;
    let dtheta := Abs (s1 - s0) in
    sample_loop fuel s (next_t t dtheta) p
  else Ok p
end.

(** The body of the second loop of [Polygon]: render one spline. *)
Definition render (fuel : nat) (s : BezierSpline.t) (p : Polygon)
: result Polygon :=
if (BezierSpline.order s =? 1)%Z then
(* linear *)
v0 <- BezierSpline.f0 s 0 ;;
let p := Polygon_AddV2 p v0 in
v1 <- BezierSpline.f0 s 1 ;;
Ok (Polygon_AddV2 p v1)
else
p <- sample_loop fuel s 0 p ;;
v1 <- BezierSpline.f0 s 1 ;;
Ok (Polygon_AddV2 p v1).

Fixpoint render_all (fuel : nat) (splines : list BezierSpline.t)
(p : Polygon) : result Polygon :=
match splines with
| [] => Ok p
| s :: rest => p <- render fuel s p ;; render_all fuel rest p
end.

(** Return a polygon approximating the bezier curve.  [fuel] bounds the
guard evaluations of each sampling loop. *)
Definition Polygon (fuel : nat) (b : t) : result Polygon :=
b <- fixups b ;;
splines <- make_splines (vlist b) ;;
render_all fuel splines NewPolygon.

End WithLibm.

End Bezier.

(** * The SVG path converter ([unnamed/part_000])

    A Python 2 script: a scanner and a parser for SVG path data whose
    actions fill a curve object, which is printed as calls of the Bezier
    API of [bezier.go].  The actions of the parser and the methods of the
    curve object are embedded; the scanner, the parser tables and the
    printing are not.  Python's [float] is the binary64 format, a [str] is
    a [string], [None] is [None].  An exception is a value of
    [exception]; the state that a raising call leaves behind is not
    modelled, nor is the text that the script prints before it raises. *)

Module Svg.

Local Open Scope string_scope.

Inductive exception : Type := SyntaxError | AssertionError | IndexError.

Inductive outcome (A : Type) : Type :=
| Return (a : A)
| Raise (e : exception).

Arguments Return {A} a.
Arguments Raise {A} e.

Definition and_then {A B : Type} (r : outcome A) (k : A -> outcome B)
    : outcome B :=
  match r with
  | Return a => k a
  | Raise e => Raise e
  end.

Notation "x <~ r ;; k" := (and_then r (fun x => k))
  (at level 61, r at next level, right associativity).

(** [for a in l: body] on the state [s]. *)
Fixpoint for_each {A S : Type} (body : A -> S -> outcome S) (l : list A)
    (s : S) : outcome S :=
  match l with
  | [] => Return s
  | a :: rest => s <~ body a s ;; for_each body rest s
  end.

(** [l[0]] and [l[-1]]. *)
Definition first_item {A : Type} (l : list A) : outcome A :=
  match l with
  | a :: _ => Return a
  | [] => Raise IndexError
  end.

Definition last_item {A : Type} (l : list A) : outcome A :=
  first_item (rev l).

(** [[(l[i], l[i+1]) for i in range(0, len(l), 2)]] for a list of even
    length, and the same with three items. *)
Fixpoint pairs {A : Type} (l : list A) : list (A * A) :=
  match l with
  | a :: b :: rest => (a, b) :: pairs rest
  | _ => []
  end.

Fixpoint triples {A : Type} (l : list A) : list (A * A * A) :=
  match l with
  | a :: b :: c :: rest => (a, b, c) :: triples rest
  | _ => []
  end.

(** ** The helpers of the parser *)

Definition vertices (cmd : string) (l : list float)
    : outcome (list (float * float)) :=
  if negb (List.length l mod 2 =? 0)%nat then Raise SyntaxError
  else Return (pairs l).

(** [str.islower]: there is a cased character and no cased character is
    in upper case; the cased characters of a Python 2 [str] are the ASCII
    letters. *)
Definition lower_case (c : ascii) : bool :=
  ((97 <=? nat_of_ascii c) && (nat_of_ascii c <=? 122))%nat.

Definition upper_case (c : ascii) : bool :=
  ((65 <=? nat_of_ascii c) && (nat_of_ascii c <=? 90))%nat.

Definition islower (x : string) : bool :=
  existsb lower_case (list_ascii_of_string x)
  && negb (existsb upper_case (list_ascii_of_string x)).

Definition relative (x : string) : string :=
  if islower x then
    if x =? "h" then "rel_x"
    else if x =? "v" then "rel_y"
    else "rel_xy"
  else if x =? "H" then "abs_x"
  else if x =? "V" then "abs_y"
  else "abs_xy".

(** ** The curve object *)

Module vertex.

Record self : Type := __init__ {
  x : float;
  y : float;
  t : string
}.

End vertex.

Module bezier_curve.

Record self : Type := mk {
  x : float;
  y : float;
  vlist : list vertex.self;
  closed : bool
}.

Definition __init__ : self := mk 0 0 [] false.

(** calculate a vertex *)
Definition vertex (s : self) (x' y' : float) (r : string)
    : outcome (float * float) :=
  if r =? "rel_xy" then Return (x s + x', y s + y')%float
  else if r =? "rel_x" then Return (x s + x', y s)%float
  else if r =? "rel_y" then Return (x s, y s + y')%float
  else if r =? "abs_xy" then Return (x', y')
  else if r =? "abs_x" then Return (x', y s)
  else if r =? "abs_y" then Return (x s, y')
  else Raise AssertionError.

(** set the x/y position *)
Definition set_xy (s : self) (x' y' : float) (r : string) : outcome self :=
  p <~ vertex s x' y' r ;;
  Return (mk (fst p) (snd p) (vlist s) (closed s)).

Definition append (s : self) (v : vertex.self) : self :=
  mk (x s) (y s) (vlist s ++ [v])%list (closed s).

Definition add_start (s : self) (x' y' : float) : self :=
  append s (vertex.__init__ x' y' "start").

(** add an endpoint vertex *)
Definition add_endpoint (s : self) (x' y' : float) (r : string)
    : outcome self :=
  p <~ vertex s x' y' r ;;
  Return (append s (vertex.__init__ (fst p) (snd p) "end")).

(** add a midpoint vertex *)
Definition add_midpoint (s : self) (x' y' : float) (r : string)
    : outcome self :=
  p <~ vertex s x' y' r ;;
  Return (append s (vertex.__init__ (fst p) (snd p) "mid")).

(** add an implicit midpoint *)
Definition implicit_midpoint (s : self) : outcome self :=
  match rev (vlist s) with
  | ep :: mp :: _ =>
      if negb (vertex.t ep =? "end") then Raise AssertionError
      else if negb (vertex.t mp =? "mid") then Raise AssertionError
      else
        let x' := (2 * vertex.x ep - vertex.x mp)%float in
        let y' := (2 * vertex.y ep - vertex.y mp)%float in
        Return (append s (vertex.__init__ x' y' "mid"))
  | _ => Raise AssertionError
  end.

(** close a bezier curve *)
Definition closepath (s : self) : self :=
  mk (x s) (y s) (vlist s) true.

(** flip the y axis *)
Definition flipy (s : self) : self :=
  mk (x s) (y s)
     (map (fun v => vertex.__init__ (vertex.x v) (- vertex.y v)%float
                      (vertex.t v))
          (vlist s))
     (closed s).

End bezier_curve.

(** ** The actions of the parser

    [t1] is [t[1]], the letter of the command; [t2] is [t[2]], the value
    of its [number_list]; [g_curve] is the global curve. *)

Import bezier_curve.

Definition p_moveto (t1 : string) (t2 : list float) (g_curve : self)
    : outcome self :=
  v <~ vertices "M" t2 ;;
  g_curve <~
    match v with
    | (x', y') :: _ =>
        (* the first m/M is always absolute *)
        let g_curve := add_start g_curve x' y' in
        g_curve <~ add_endpoint g_curve x' y' "abs_xy" ;;
        set_xy g_curve x' y' "abs_xy"
    | [] => Return g_curve
    end ;;
  if (2 <=? List.length v)%nat then
    (* any remaining vertices are rel/abs lineto commands *)
    let r := relative t1 in
    g_curve <~
      for_each (fun p g => add_endpoint g (fst p) (snd p) r) (tl v)
        g_curve ;;
    (* set the absolute position with the last value *)
    p <~ last_item v ;;
    set_xy g_curve (fst p) (snd p) r
  else Return g_curve.

Definition p_closepath (g_curve : self) : outcome self :=
  Return (closepath g_curve).

Definition p_lineto (t1 : string) (t2 : list float) (g_curve : self)
    : outcome self :=
  v <~ vertices "L" t2 ;;
  let r := relative t1 in
  g_curve <~
    for_each (fun p g => add_endpoint g (fst p) (snd p) r) v g_curve ;;
  (* set the absolute position with the last value *)
  p <~ last_item v ;;
  set_xy g_curve (fst p) (snd p) r.

Definition p_horizontal_lineto (t1 : string) (t2 : list float)
    (g_curve : self) : outcome self :=
  let n := List.length t2 in
  if (1 <? n)%nat then Raise SyntaxError
  else
    let r := relative t1 in
    x' <~ first_item t2 ;;
    g_curve <~ add_endpoint g_curve x' 0 r ;;
    set_xy g_curve x' 0 r.

Definition p_vertical_lineto (t1 : string) (t2 : list float)
    (g_curve : self) : outcome self :=
  let n := List.length t2 in
  if (1 <? n)%nat then Raise SyntaxError
  else
    let r := relative t1 in
    y' <~ first_item t2 ;;
    g_curve <~ add_endpoint g_curve 0 y' r ;;
    set_xy g_curve 0 y' r.

Definition p_curveto (t1 : string) (t2 : list float) (g_curve : self)
    : outcome self :=
  v <~ vertices "C" t2 ;;
  if negb (List.length v mod 3 =? 0)%nat then Raise SyntaxError
  else
    let splines := triples v in
    let r := relative t1 in
    for_each
      (fun s g =>
         let '(p0, p1, p2) := s in
         g <~ add_midpoint g (fst p0) (snd p0) r ;;
         g <~ add_midpoint g (fst p1) (snd p1) r ;;
         g <~ add_endpoint g (fst p2) (snd p2) r ;;
         set_xy g (fst p2) (snd p2) r)
      splines g_curve.

Definition p_smooth_curveto (t1 : string) (t2 : list float)
    (g_curve : self) : outcome self :=
  v <~ vertices "S" t2 ;;
  if negb (List.length v mod 2 =? 0)%nat then Raise SyntaxError
  else
    let splines := pairs v in
    let r := relative t1 in
    for_each
      (fun s g =>
         let '(p0, p1) := s in
         (* the first midpoint is a reflection across the
            current point of the previous midpoint *)
         g <~ implicit_midpoint g ;;
         g <~ add_midpoint g (fst p0) (snd p0) r ;;
         g <~ add_endpoint g (fst p1) (snd p1) r ;;
         set_xy g (fst p1) (snd p1) r)
      splines g_curve.

Definition p_quadratic_bezier_curveto (t1 : string) (t2 : list float)
    (g_curve : self) : outcome self :=
  v <~ vertices "Q" t2 ;;
  if negb (List.length v mod 2 =? 0)%nat then Raise SyntaxError
  else
    let splines := pairs v in
    let r := relative t1 in
    for_each
      (fun s g =>
         let '(p0, p1) := s in
         g <~ add_midpoint g (fst p0) (snd p0) r ;;
         g <~ add_endpoint g (fst p1) (snd p1) r ;;
         set_xy g (fst p1) (snd p1) r)
      splines g_curve.

Definition p_smooth_quadratic_bezier_curveto (t1 : string)
    (t2 : list float) (g_curve : self) : outcome self :=
  v <~ vertices "T" t2 ;;
  let r := relative t1 in
  for_each
    (fun p g =>
       (* the first midpoint is a reflection across the
          current point of the previous midpoint *)
       g <~ implicit_midpoint g ;;
       g <~ add_endpoint g (fst p) (snd p) r ;;
       set_xy g (fst p) (snd p) r)
    v g_curve.

(** The action of an elliptical arc prints its numbers and leaves the
    curve as it is. *)
Definition p_elliptical_arc (t1 : string) (t2 : list float)
    (g_curve : self) : outcome self :=
  Return g_curve.

End Svg.

(** * Vocabulary of the statements

    The definitions below are not part of the program: they name the
    properties, the measures and the example curves that the theorems
    speak about. *)

(** ** Binary64 numbers *)

(** Finite numbers: neither an infinity nor a NaN. *)
Definition SFfinite (x : spec_float) : bool :=
  match x with
  | S754_zero _ | S754_finite _ _ _ => true
  | S754_infinity _ | S754_nan => false
  end.

Definition finite (x : float) : bool := SFfinite (Prim2SF x).

(** Zeros of either sign. *)
Definition is_zero (x : float) : Prop := exists s, Prim2SF x = S754_zero s.

(** The number [x] is the integer [z]: a zero for 0, and otherwise a
    finite number with the sign of [z] whose mantissa [m] and exponent
    [e <= 0] give [m = |z| * 2^(-e)]. *)
Definition SFint (x : spec_float) (z : Z) : Prop :=
  match x with
  | S754_zero _ => z = 0%Z
  | S754_finite s m e =>
      (e <= 0)%Z /\ Zpos m = (Z.abs z * 2 ^ (- e))%Z
      /\ (if s then z < 0 else 0 < z)%Z
  | _ => False
  end.

Definition represents (x : float) (z : Z) : Prop := SFint (Prim2SF x) z.

(** The number 1. *)
Definition SFone : spec_float := S754_finite false 4503599627370496 (-52).

(** The value of a positive finite number, in units of 2^-1074. *)
Definition scaled (m : positive) (e : Z) : Z := Zpos m * 2 ^ (e + 1074).

(** The value of a positive finite number, in units of 2^-1074; 0 for the
    other numbers. *)
Definition val (x : float) : Z :=
  match Prim2SF x with
  | S754_finite false m e => scaled m e
  | _ => 0%Z
  end.

(** Zero or positive, an infinity included. *)
Definition nonneg (x : float) : Prop :=
  match Prim2SF x with
  | S754_zero _ | S754_infinity false | S754_finite false _ _ => True
  | _ => False
  end.

(** [dtmin] in units of 2^-1074. *)
Definition dtmin_units : Z := scaled 4616302320748136 (-62).

(** The invariant of the sampling loop after [k] iterations. *)
Definition loop_invariant (k : Z) (t : float) : Prop :=
  nonneg t
  /\ ((t <? 1) = true -> (k * (dtmin_units - 2 ^ 1021) <= val t)%Z).

(** ** A stand-in for [math] *)

(** An instance of [Libm] for the closed examples.  The statements that
    use it hold for every instance. *)
Definition libm_stub : Libm :=
  {| Atan2 := fun _ _ => 0; Cos := fun _ => 1; Sin := fun _ => 0 |}.

(** ** Vertices, curves and splines of the examples *)

Section CurveVocabulary.

Import BezierVertex.

(** A vertex with no handle. *)
Definition plain (ty : BezierVertexType) (p : V2) : BezierVertex.t :=
  BezierVertex.mk ty p V2_zero V2_zero.

(** Endpoints and midpoints with no handle. *)
Definition endpoint (x y : float) : BezierVertex.t := plain ENDPOINT (mkV2 x y).

Definition midpoint (x y : float) : BezierVertex.t := plain MIDPOINT (mkV2 x y).

(** What [expand] makes of a vertex with no forward handle. *)
Definition without_fwd (v : BezierVertex.t) : BezierVertex.t :=
  BezierVertex.mk (vtype v) (vertex v) V2_zero (handle_rev v).

Definition without_rev (v : BezierVertex.t) : BezierVertex.t :=
  BezierVertex.mk (vtype v) (vertex v) (handle_fwd v) V2_zero.



(** [b.Add(0,0); b.Add(10,0)]: the open line from (0,0) to (10,0). *)
Definition line_0_10 : Bezier.t :=
  Bezier.Add 10 0 (Bezier.Add 0 0 Bezier.NewBezier).

(** An open curve with four midpoints between its two endpoints, and one
    with three. *)
Definition four_midpoints : Bezier.t :=
  Bezier.mk false [endpoint 0 0; midpoint 1 1; midpoint 2 2; midpoint 3 2;
                   midpoint 4 1; endpoint 5 0].

Definition three_midpoints : Bezier.t :=
  Bezier.mk false [endpoint 0 0; midpoint 1 1; midpoint 2 2; midpoint 3 1;
                   endpoint 4 0].

(** [b.Add(0,0); b.Add(5,10).Mid(); b.Add(10,0)]. *)
Definition curve_0_5_10 : Bezier.t :=
  Bezier.Add 10 0
    (fst (Bezier.on_last BezierVertex.Mid
            (Bezier.Add 5 10 (Bezier.Add 0 0 Bezier.NewBezier)))).

(** The spline of the curve endpoint (0,0), midpoint (5,10), endpoint
    (10,0). *)
Definition quadratic_spline : BezierSpline.t :=
  BezierSpline.mk (BezierPolynomial.mk 2 0 10 0 0 0)
                  (BezierPolynomial.mk 2 0 20 (-20) 0 0).

(** [b := NewBezier()] followed by [b.AddV2(p)] for each point of [ps],
    in their order. *)
Definition polyline (ps : list V2) : Bezier.t :=
  fold_left (fun b p => Bezier.AddV2 p b) ps Bezier.NewBezier.

(** [b.Add(0,0); b.Add(10,0); b.Add(0,10); b.Close()], and the list that
    [fixups] makes of it. *)
Definition triangle : Bezier.t :=
  Bezier.Close
    (Bezier.Add 0 10 (Bezier.Add 10 0 (Bezier.Add 0 0 Bezier.NewBezier))).

Definition triangle_closed : Bezier.t :=
  Bezier.mk true [endpoint 0 0; endpoint 10 0; endpoint 0 10; endpoint 0 0].

(** [b.Add(0,0).HandleFwd(0,1); b.Add(10,0).HandleRev(PI,1)]. *)
Definition handled_line : Bezier.t :=
  fst (Bezier.on_last (BezierVertex.HandleRev PI 1)
         (Bezier.Add 10 0
            (fst (Bezier.on_last (BezierVertex.HandleFwd 0 1)
                    (Bezier.Add 0 0 Bezier.NewBezier))))).

(** The spline of the line from (0,0) to (10,10). *)
Definition diagonal_spline : BezierSpline.t :=
  BezierSpline.mk (BezierPolynomial.mk 1 0 10 0 0 0)
                  (BezierPolynomial.mk 1 0 10 0 0 0).

End CurveVocabulary.

(** ** Validation and segmentation *)

Section ListVocabulary.

Import BezierVertex.



Definition starts_with_endpoint (vl : list BezierVertex.t) : bool :=
  match vl with
  | v :: _ => BezierVertexType_eqb (vtype v) ENDPOINT
  | [] => false
  end.

Definition ends_with_endpoint (vl : list BezierVertex.t) : bool :=
  starts_with_endpoint (rev vl).

Definition is_midpoint (v : BezierVertex.t) : Prop := vtype v = MIDPOINT.

(** Every block of consecutive midpoints has at most [k] vertices. *)
Definition runs_bounded (k : nat) (vl : list BezierVertex.t) : Prop :=
  forall pre mids post,
    vl = pre ++ mids ++ post -> Forall is_midpoint mids ->
    (length mids <= k)%nat.

(** The loop in the midpoint state, by recursion on the rest of the
    list: the iteration that ends a spline and the one that starts the
    next are taken together. *)
Fixpoint seg (vl : list BezierVertex.t) (vertices : list V2)
    (splines : list BezierSpline.t) : result (list BezierSpline.t) :=
  match vl with
  | [] => Ok splines
  | v :: rest =>
      match vtype v with
      | MIDPOINT => seg rest (vertices ++ [vertex v]) splines
      | ENDPOINT =>
          s <- BezierSpline.NewBezierSpline (vertices ++ [vertex v]) ;;
          match rest with
          | [] => Ok (splines ++ [s])
          | _ :: _ => seg rest [vertex v] (splines ++ [s])
          end
      end
  end.

Definition order_in_range (s : BezierSpline.t) : Prop :=
  (1 <= BezierSpline.order s <= 4)%Z.

(** The orders of both polynomials of a spline are valid. *)
Definition valid_orders (s : BezierSpline.t) : Prop :=
  (1 <= BezierPolynomial.n (BezierSpline.px s) <= 4)%Z
  /\ (1 <= BezierPolynomial.n (BezierSpline.py s) <= 4)%Z.

Definition is_endpoint (v : BezierVertex.t) : bool :=
  BezierVertexType_eqb (vtype v) ENDPOINT.

(** A vertex whose handles are both the zero value. *)
Definition cleared (v : BezierVertex.t) : Prop :=
  handle_fwd v = V2_zero /\ handle_rev v = V2_zero.

(** The vertex with its handles set to the zero value. *)
Definition clear (v : BezierVertex.t) : BezierVertex.t :=
  BezierVertex.mk (vtype v) (vertex v) V2_zero V2_zero.

(** The number of midpoints that [expand] adds for a vertex. *)
Definition handle_count (v : BezierVertex.t) : nat :=
  (if X (handle_rev v) =? 0 then 0 else 1)
  + (if X (handle_fwd v) =? 0 then 0 else 1).

(** A spline as [NewBezierSpline] builds it: both polynomials have the
    same order, from 1 to 4. *)
Definition well_formed (s : BezierSpline.t) : Prop :=
  (1 <= BezierSpline.order s <= 4)%Z
  /\ BezierPolynomial.n (BezierSpline.py s) = BezierSpline.order s.

(** The check that no run of consecutive midpoints is longer than [k],
    by one pass over the list; [c] is the length of the run that the
    list continues. *)
Fixpoint run_check (k c : nat) (vl : list BezierVertex.t) : bool :=
  match vl with
  | [] => true
  | v :: rest =>
      match vtype v with
      | ENDPOINT => run_check k 0 rest
      | MIDPOINT => (S c <=? k)%nat && run_check k (S c) rest
      end
  end.

End ListVocabulary.

(** ** Polynomials *)

Section PolynomialVocabulary.

Import BezierPolynomial.

Definition all_finite (p : BezierPolynomial.t) : bool :=
  finite (a p) && finite (b p) && finite (c p) && finite (d p)
  && finite (e p).

(** The sum of the coefficients that the order uses, from the right. *)
Definition coefficient_sum (p : BezierPolynomial.t) : float :=
  match n p with
  | 1%Z => a p + b p
  | 2%Z => a p + (b p + c p)
  | 3%Z => a p + (b p + (c p + d p))
  | _ => a p + (b p + (c p + (d p + e p)))
  end.

End PolynomialVocabulary.

(** ** Curves of the SVG path converter *)

Section SvgVocabulary.

Import Svg.

Local Open Scope string_scope.

(** The types of the vertices of whole segments: a list of groups
    "end", "mid end" and "mid mid end". *)
Fixpoint segments (types : list string) : bool :=
  match types with
  | [] => true
  | t1 :: rest1 =>
      if t1 =? "end" then segments rest1
      else if t1 =? "mid" then
        match rest1 with
        | [] => false
        | t2 :: rest2 =>
            if t2 =? "end" then segments rest2
            else if t2 =? "mid" then
              match rest2 with
              | [] => false
              | t3 :: rest3 => (t3 =? "end") && segments rest3
              end
            else false
        end
      else false
  end.

(** The curve [g'] is the curve [g] with whole segments added. *)
Definition extends (g g' : bezier_curve.self) : Prop :=
  bezier_curve.closed g' = bezier_curve.closed g
  /\ exists added,
       bezier_curve.vlist g' = (bezier_curve.vlist g ++ added)%list
       /\ segments (map vertex.t added) = true.

(** The curve after [M 0 0]. *)
Definition after_moveto : bezier_curve.self :=
  bezier_curve.mk 0 0
    [vertex.__init__ 0 0 "start"; vertex.__init__ 0 0 "end"] false.

(** The curve after [M 0 0 C 1 1 2 2 3 0]. *)
Definition after_curveto : bezier_curve.self :=
  bezier_curve.mk 3 0
    [vertex.__init__ 0 0 "start"; vertex.__init__ 0 0 "end";
     vertex.__init__ 1 1 "mid"; vertex.__init__ 2 2 "mid";
     vertex.__init__ 3 0 "end"] false.

End SvgVocabulary.

(** * Facts about binary64 arithmetic *)

Module FloatFacts.

Lemma abs_opp (x : float) : abs (- x) = abs x.
Proof.
  apply Prim2SF_inj. rewrite !abs_spec, opp_spec.
  now destruct (Prim2SF x).
Qed.

Lemma SFeqb_zero_r (x : spec_float) :
  SFeqb x (S754_zero false) = true -> exists s, x = S754_zero s.
Proof.
  destruct x as [s|s| |s m e]; cbn; try discriminate.
  - now exists s.
  - now destruct s.
  - now destruct s.
Qed.

Lemma eqb_zero_inv (x : float) :
  (x =? 0) = true -> exists s, Prim2SF x = S754_zero s.
Proof. rewrite FloatAxioms.eqb_spec. apply SFeqb_zero_r. Qed.

Lemma abs_eqb_zero (x : float) : (x =? 0) = true -> (abs x =? 0) = true.
Proof.
  intros H. destruct (eqb_zero_inv x H) as [s Hs].
  now rewrite FloatAxioms.eqb_spec, abs_spec, Hs.
Qed.

Lemma valid_finite_inv (s : bool) (m : positive) (e : Z) :
  valid_binary (S754_finite s m e) = true ->
  fexp prec emax (Zpos (digits2_pos m) + e) = e /\ (e <= emax - prec)%Z.
Proof.
  cbn [SpecFloat.valid_binary]. unfold bounded, canonical_mantissa.
  intros H. apply andb_prop in H. destruct H as [H1 H2].
  split; [now apply Z.eqb_eq|now apply Z.leb_le].
Qed.

(** Multiplying by 1 is exact: the mantissa is shifted by 52 bits and
    shifted back without loss. *)
Lemma SFmul_1_l (y : spec_float) :
  valid_binary y = true -> SF64mul (Prim2SF 1) y = y.
Proof.
  intros Hv.
  change (Prim2SF 1) with (S754_finite false 4503599627370496 (-52)).
  destruct y as [s|s| |s m e]; try reflexivity.
  destruct (valid_finite_inv s m e Hv) as [Hc He].
  unfold SF64mul, SFmul. cbn [xorb].
  unfold binary_round_aux, shr_fexp.
  cbn [Pos.mul Zdigits2 digits2_pos].
  rewrite !Pos2Z.inj_succ.
  replace (fexp prec emax _) with e.
  2:{ rewrite <- Hc at 1. f_equal. lia. }
  replace (e - (-52 + e))%Z with 52%Z by lia.
  cbn [shr shr_record_of_loc iter_pos shr_1 shr_m loc_of_shr_record
       round_nearest_even fst snd orb Zdigits2].
  replace (-52 + e + 52)%Z with e by lia.
  rewrite Hc, Z.sub_diag. cbn [shr shr_m].
  apply Z.leb_le in He. now rewrite He.
Qed.

Lemma mul_1_l (y : float) : 1 * y = y.
Proof.
  apply Prim2SF_inj. rewrite mul_spec. apply SFmul_1_l, Prim2SF_valid.
Qed.

Lemma mul_0_finite (y : float) : finite y = true -> is_zero (0 * y).
Proof.
  unfold finite, is_zero. intros H. rewrite mul_spec.
  change (Prim2SF 0) with (S754_zero false).
  destruct (Prim2SF y) as [s|s| |s m e]; try discriminate;
    eexists; reflexivity.
Qed.

Lemma SFeqb_refl_finite (x : spec_float) :
  SFfinite x = true -> SFeqb x x = true.
Proof.
  destruct x as [s|s| |s m e]; try discriminate; intros _; [reflexivity|].
  unfold SFeqb, SFcompare.
  rewrite Z.compare_refl, Pos.compare_cont_refl. now destruct s.
Qed.

Lemma add_zero_r (x z : float) :
  finite x = true -> is_zero z ->
  finite (x + z) = true /\ (x + z =? x) = true.
Proof.
  unfold finite. intros Hx [s Hz].
  rewrite FloatAxioms.eqb_spec, add_spec, Hz.
  destruct (Prim2SF x) as [sx|sx| |sx m e] eqn:E; try discriminate.
  - destruct sx, s; split; reflexivity.
  - cbn [SF64add SFadd]. split; [reflexivity|].
    now apply SFeqb_refl_finite.
Qed.

End FloatFacts.

(** * Rounding in binary64

    Lower bounds on the results of the IEEE operations, read off their
    specification ([SpecFloat]): the mantissa is shifted right until 53
    digits are left and then rounded to nearest, ties to even. *)

Module Rounding.

Local Open Scope Z_scope.

Lemma digits2_pos_bounds (p : positive) :
  2 ^ (Zpos (digits2_pos p) - 1) <= Zpos p < 2 ^ Zpos (digits2_pos p).
Proof.
  induction p as [p IH|p IH|]; cbn [digits2_pos].
  - rewrite Pos2Z.inj_succ.
    replace (Z.succ (Zpos (digits2_pos p)) - 1) with (Z.succ (Zpos (digits2_pos p) - 1)) by lia.
    rewrite !Z.pow_succ_r by lia. lia.
  - rewrite Pos2Z.inj_succ.
    replace (Z.succ (Zpos (digits2_pos p)) - 1) with (Z.succ (Zpos (digits2_pos p) - 1)) by lia.
    rewrite !Z.pow_succ_r by lia. lia.
  - cbn. lia.
Qed.

Lemma digits2_pos_unique (p : positive) (d : Z) :
  2 ^ (d - 1) <= Zpos p < 2 ^ d -> Zpos (digits2_pos p) = d.
Proof.
  intros [Hl Hu]. pose proof (digits2_pos_bounds p) as [Bl Bu].
  destruct (Z.lt_trichotomy (Zpos (digits2_pos p)) d) as [H|[H|H]]; [|exact H|].
  - assert (2 ^ Zpos (digits2_pos p) <= 2 ^ (d - 1)) by (apply Z.pow_le_mono_r; lia). lia.
  - assert (0 <= d \/ d < 0) as [Hd|Hd] by lia.
    + assert (2 ^ d <= 2 ^ (Zpos (digits2_pos p) - 1)) by (apply Z.pow_le_mono_r; lia). lia.
    + rewrite Z.pow_neg_r in Hu by lia. lia.
Qed.

Lemma shr_1_m (mrs : shr_record) :
  0 <= shr_m mrs -> shr_m (shr_1 mrs) = shr_m mrs / 2.
Proof.
  destruct mrs as [m r s]. cbn [shr_m]. intros Hm.
  destruct m as [|[p|p|]|p]; cbn [shr_1 shr_m]; try lia; try reflexivity.
  - apply Z.div_unique with (r := 1); lia.
  - apply Z.div_unique with (r := 0); lia.
Qed.

Lemma iter_pos_shr_1_m (p : positive) :
  forall mrs, 0 <= shr_m mrs ->
    shr_m (iter_pos shr_1 p mrs) = shr_m mrs / 2 ^ Zpos p.
Proof.
  induction p as [p IH|p IH|]; intros mrs Hm; cbn [iter_pos].
  - assert (H1 : 0 <= shr_m (shr_1 mrs)) by (rewrite shr_1_m by lia; apply Z.div_pos; lia).
    assert (H2 : 0 <= shr_m (iter_pos shr_1 p (shr_1 mrs))).
    { rewrite IH by lia. apply Z.div_pos; [lia|]. apply Z.pow_pos_nonneg; lia. }
    rewrite IH, IH, shr_1_m by lia.
    rewrite !Z.div_div by (try lia; apply Z.pow_pos_nonneg; lia).
    f_equal. rewrite <- Z.pow_add_r by lia.
    rewrite <- Z.pow_succ_r by lia. f_equal. lia.
  - assert (H2 : 0 <= shr_m (iter_pos shr_1 p mrs)).
    { rewrite IH by lia. apply Z.div_pos; [lia|]. apply Z.pow_pos_nonneg; lia. }
    rewrite IH, IH by lia.
    rewrite !Z.div_div by (try lia; apply Z.pow_pos_nonneg; lia).
    f_equal. rewrite <- Z.pow_add_r by lia. f_equal. lia.
  - now rewrite shr_1_m.
Qed.

Lemma shr_spec (mrs : shr_record) (e n : Z) :
  0 <= shr_m mrs -> 0 <= n ->
  shr_m (fst (shr mrs e n)) = shr_m mrs / 2 ^ n /\ snd (shr mrs e n) = e + n.
Proof.
  intros Hm Hn. destruct n as [|p|p]; cbn [shr fst snd]; try lia.
  - rewrite Z.div_1_r. split; [reflexivity|lia].
  - split; [now apply iter_pos_shr_1_m|reflexivity].
Qed.

Lemma shr_record_of_loc_m (m : Z) (l : location) : shr_m (shr_record_of_loc m l) = m.
Proof. destruct l as [|[]]; reflexivity. Qed.

Lemma round_nearest_even_cases (m : Z) (l : location) :
  round_nearest_even m l = m \/ round_nearest_even m l = m + 1.
Proof.
  destruct l as [|[]]; cbn [round_nearest_even]; auto.
  destruct (Z.even m); auto.
Qed.

Lemma fexp_normal (x : Z) : -1074 <= x - 53 -> fexp prec emax x = x - 53.
Proof. unfold fexp, emin, prec, emax. lia. Qed.

Lemma shr_fexp_normal (m : positive) (e : Z) (l : location) (d : Z) :
  Zpos (digits2_pos m) = d -> 53 <= d -> -1074 <= e + d - 53 ->
  shr_m (fst (shr_fexp prec emax (Zpos m) e l)) = Zpos m / 2 ^ (d - 53)
  /\ snd (shr_fexp prec emax (Zpos m) e l) = e + d - 53.
Proof.
  intros Hd H53 Hn. unfold shr_fexp. cbn [Zdigits2]. rewrite Hd.
  rewrite fexp_normal by lia.
  replace (d + e - 53 - e) with (d - 53) by lia.
  destruct (shr_spec (shr_record_of_loc (Zpos m) l) e (d - 53)) as [A B];
    [rewrite shr_record_of_loc_m; lia|lia|].
  rewrite A, B, shr_record_of_loc_m. split; [reflexivity|lia].
Qed.

Lemma round_normal (sx : bool) (mx : positive) (ex : Z) (l : location) :
  let dx := Zpos (digits2_pos mx) in
  53 <= dx -> -1074 <= ex + dx - 53 ->
  exists m e,
    binary_round_aux prec emax sx (Zpos mx) ex l
    = (if e <=? 971 then S754_finite sx m e else S754_infinity sx)
    /\ 2 ^ 52 <= Zpos m < 2 ^ 53
    /\ ((e = ex + dx - 53 /\ Zpos mx / 2 ^ (dx - 53) <= Zpos m)
        \/ e = ex + dx - 53 + 1).
Proof.
  intros dx H53 Hn.
  destruct (shr_fexp_normal mx ex l dx eq_refl H53 Hn) as [Hm0 He1].
  unfold binary_round_aux.
  destruct (shr_fexp prec emax (Zpos mx) ex l) as [mrs' e'].
  cbn [fst snd] in Hm0, He1.
  pose proof (digits2_pos_bounds mx) as [Bl Bu]. fold dx in Bl, Bu.
  assert (Hp : 0 < 2 ^ (dx - 53)) by (apply Z.pow_pos_nonneg; lia).
  assert (Hm0b : 2 ^ 52 <= shr_m mrs' < 2 ^ 53).
  { rewrite Hm0. split.
    - apply Z.div_le_lower_bound; [lia|].
      rewrite Z.mul_comm, <- Z.pow_add_r by lia.
      replace (52 + (dx - 53)) with (dx - 1) by lia. exact Bl.
    - apply Z.div_lt_upper_bound; [lia|].
      rewrite Z.mul_comm, <- Z.pow_add_r by lia.
      replace (53 + (dx - 53)) with dx by lia. exact Bu. }
  set (m1 := round_nearest_even (shr_m mrs') (loc_of_shr_record mrs')).
  assert (Hm1 : m1 = shr_m mrs' \/ m1 = shr_m mrs' + 1)
    by apply round_nearest_even_cases.
  assert (Hm1b : 2 ^ 52 <= m1 <= 2 ^ 53) by lia.
  destruct m1 as [|q|q] eqn:Eq; [lia| |lia].
  destruct (Z.eq_dec (Zpos q) (2 ^ 53)) as [Hc|Hc].
  - (* the rounding carried into a 54th digit *)
    assert (Hdq : Zpos (digits2_pos q) = 54).
    { apply digits2_pos_unique. rewrite Hc. change (54 - 1) with 53. split; [lia|].
      apply Z.pow_lt_mono_r; lia. }
    destruct (shr_fexp_normal q e' loc_Exact 54 Hdq) as [A B]; [lia|lia|].
    destruct (shr_fexp prec emax (Zpos q) e' loc_Exact) as [mrs'' e''].
    cbn [fst snd] in A, B.
    rewrite A, Hc. change (2 ^ 53 / 2 ^ (54 - 53)) with (Zpos 4503599627370496).
    exists 4503599627370496%positive, e''. split; [reflexivity|].
    split; [cbn; lia|]. right. lia.
  - assert (Hdq : Zpos (digits2_pos q) = 53).
    { apply digits2_pos_unique. change (53 - 1) with 52. lia. }
    destruct (shr_fexp_normal q e' loc_Exact 53 Hdq) as [A B]; [lia|lia|].
    destruct (shr_fexp prec emax (Zpos q) e' loc_Exact) as [mrs'' e''].
    cbn [fst snd] in A, B.
    rewrite A. change (2 ^ (53 - 53)) with 1. rewrite Z.div_1_r.
    exists q, e''. split; [reflexivity|].
    split; [lia|]. left. split; [lia|]. rewrite <- Hm0. lia.
Qed.

(** Valid finite numbers. *)
Lemma valid_digits (s : bool) (m : positive) (e : Z) :
  valid_binary (S754_finite s m e) = true ->
  -1074 <= e <= 971 /\ Zpos (digits2_pos m) <= 53
  /\ (Zpos (digits2_pos m) = 53 \/ e = -1074).
Proof.
  cbn [SpecFloat.valid_binary]. unfold bounded, canonical_mantissa.
  intros H. apply andb_prop in H. destruct H as [H1 H2].
  apply Z.eqb_eq in H1. apply Z.leb_le in H2.
  unfold fexp, emin, prec, emax in *. lia.
Qed.

Lemma normal_mantissa (m : positive) :
  Zpos (digits2_pos m) = 53 -> 2 ^ 52 <= Zpos m < 2 ^ 53.
Proof.
  intros H. pose proof (digits2_pos_bounds m) as B. rewrite H in B. exact B.
Qed.

(** [1 <= y] for a valid [y]: [y] is a normal number with exponent at least
    -52, or the positive infinity. *)
Lemma SFleb_one_inv (y : spec_float) :
  valid_binary y = true -> SFleb SFone y = true ->
  y = S754_infinity false
  \/ exists m e, y = S754_finite false m e /\ -52 <= e
                 /\ 2 ^ 52 <= Zpos m < 2 ^ 53.
Proof.
  intros Hv H. destruct y as [s|s| |s m e]; try discriminate.
  - destruct s; [discriminate|]. now left.
  - destruct s; [discriminate|]. right.
    destruct (valid_digits _ _ _ Hv) as (He & Hd & Hn).
    exists m, e. split; [reflexivity|].
    unfold SFleb, SFone, SFcompare in H.
    destruct (Z.compare_spec (-52) e) as [E|E|E]; try discriminate.
    + split; [lia|]. apply normal_mantissa. lia.
    + split; [lia|]. apply normal_mantissa. lia.
Qed.

Lemma SFleb_finite_intro (m1 : positive) (e1 : Z) (m2 : positive) (e2 : Z) :
  e1 < e2 \/ (e1 = e2 /\ Zpos m1 <= Zpos m2) ->
  SFleb (S754_finite false m1 e1) (S754_finite false m2 e2) = true.
Proof.
  intros H. unfold SFleb, SFcompare.
  destruct (Z.compare_spec e1 e2) as [E|E|E]; try reflexivity; try lia.
  change (Pos.compare_cont Eq m1 m2) with (Pos.compare m1 m2).
  destruct (Pos.compare_spec m1 m2) as [C|C|C]; try reflexivity. lia.
Qed.

(** Multiplying a normal number by a number that is at least 1 does not
    make it smaller. *)
Lemma SFmul_ge_1 (mx : positive) (ex : Z) (y : spec_float) :
  2 ^ 52 <= Zpos mx < 2 ^ 53 -> -1022 <= ex ->
  valid_binary y = true -> SFleb SFone y = true ->
  SFleb (S754_finite false mx ex) (SF64mul (S754_finite false mx ex) y) = true.
Proof.
  intros Hmx Hex Hv Hy.
  destruct (SFleb_one_inv y Hv Hy) as [->|(my & ey & -> & Hey & Hmy)];
    [reflexivity|].
  unfold SF64mul, SFmul. cbn [xorb].
  change (Z.pos (mx * my)) with (Zpos mx * Zpos my).
  rewrite <- Pos2Z.inj_mul.
  pose proof (digits2_pos_bounds (mx * my)) as [Bl Bu].
  set (dx := Zpos (digits2_pos (mx * my))) in *.
  rewrite Pos2Z.inj_mul in Bl, Bu.
  assert (Hlo : 2 ^ 104 <= Zpos mx * Zpos my).
  { change (2 ^ 104) with (2 ^ 52 * 2 ^ 52). nia. }
  assert (Hhi : Zpos mx * Zpos my < 2 ^ 106).
  { change (2 ^ 106) with (2 ^ 53 * 2 ^ 53). nia. }
  assert (Hdx : 105 <= dx <= 106).
  { split.
    - apply Z.nlt_ge. intros C.
      assert (2 ^ dx <= 2 ^ 104) by (apply Z.pow_le_mono_r; lia). lia.
    - apply Z.nlt_ge. intros C.
      assert (2 ^ 106 <= 2 ^ (dx - 1)) by (apply Z.pow_le_mono_r; lia). lia. }
  destruct (round_normal false (mx * my) (ex + ey) loc_Exact)
    as (m & e & E & Hm & He); fold dx; try lia.
  fold dx in He. rewrite E.
  destruct (e <=? 971); [|reflexivity].
  apply SFleb_finite_intro.
  destruct He as [[He Hm0]|He]; [|lia].
  assert (ex < e \/ ex = e) as [C|C] by lia; [now left|right].
  split; [exact C|].
  assert (dx = 105 /\ ey = -52) as [Hd He'] by lia.
  rewrite Hd in Hm0. change (105 - 53) with 52 in Hm0.
  rewrite Pos2Z.inj_mul in Hm0.
  enough (Zpos mx <= Zpos mx * Zpos my / 2 ^ 52) by lia.
  apply Z.div_le_lower_bound; [lia|]. nia.
Qed.

Lemma SFltb_finite_inv (m1 : positive) (e1 : Z) (m2 : positive) (e2 : Z) :
  SFltb (S754_finite false m1 e1) (S754_finite false m2 e2) = true ->
  e1 < e2 \/ (e1 = e2 /\ Zpos m1 < Zpos m2).
Proof.
  unfold SFltb, SFcompare.
  destruct (Z.compare_spec e1 e2) as [E|E|E]; try discriminate; [|now left].
  change (Pos.compare_cont Eq m1 m2) with (Pos.compare m1 m2).
  destruct (Pos.compare_spec m1 m2) as [C|C|C]; try discriminate.
  intros _. right. split; [exact E|lia].
Qed.

(** Dividing a normal number by a smaller positive number gives at
    least 1. *)
Lemma SFdiv_ge_1 (mx : positive) (ex : Z) (my : positive) (ey : Z) :
  Zpos (digits2_pos mx) = 53 ->
  valid_binary (S754_finite false my ey) = true ->
  SFltb (S754_finite false my ey) (S754_finite false mx ex) = true ->
  SFleb SFone (SF64div (S754_finite false mx ex) (S754_finite false my ey))
  = true.
Proof.
  intros Hdx Hvy Hlt.
  destruct (valid_digits _ _ _ Hvy) as (Hey & Hdy & Hny).
  apply SFltb_finite_inv in Hlt.
  pose proof (normal_mantissa mx Hdx) as Hmx.
  pose proof (digits2_pos_bounds my) as [Byl Byu].
  unfold SF64div, SFdiv, SFdiv_core_binary. cbn [xorb Zdigits2].
  rewrite Hdx.
  replace (fexp prec emax (53 + ex - (Zpos (digits2_pos my) + ey)))
    with (ex - ey - Zpos (digits2_pos my))
    by (unfold fexp, emin, prec, emax; lia).
  rewrite (Z.min_l (ex - ey - Zpos (digits2_pos my)) (ex - ey)) by lia.
  replace (ex - ey - (ex - ey - Zpos (digits2_pos my)))
    with (Zpos (digits2_pos my)) by lia.
  cbv iota beta.
  rewrite Z.shiftl_mul_pow2 by lia.
  change (IntDef.Z.div_eucl ?a ?b) with (Z.div_eucl a b).
  set (dy := Zpos (digits2_pos my)) in *.
  assert (Hdy1 : 1 <= dy) by (unfold dy; lia).
  assert (Hp : 0 < 2 ^ dy) by (apply Z.pow_pos_nonneg; lia).
  assert (Hp2 : 2 ^ dy = 2 * 2 ^ (dy - 1)).
  { rewrite <- Z.pow_succ_r by lia. f_equal. lia. }
  destruct (Z.div_eucl (Zpos mx * 2 ^ dy) (Zpos my)) as [q r] eqn:Eq.
  assert (Hq : q = Zpos mx * 2 ^ dy / Zpos my).
  { unfold Z.div. now rewrite Eq. }
  assert (Hql : Zpos mx <= q).
  { rewrite Hq. apply Z.div_le_lower_bound; [lia|]. nia. }
  assert (Hqu : q < 2 ^ 54).
  { rewrite Hq. apply Z.div_lt_upper_bound; [lia|].
    change (2 ^ 54) with (2 * 2 ^ 53). nia. }
  destruct q as [|q|q]; try lia.
  pose proof (digits2_pos_bounds q) as [Bql Bqu].
  set (dq := Zpos (digits2_pos q)) in *.
  assert (Hdq : 53 <= dq <= 54).
  { split.
    - apply Z.nlt_ge. intros C.
      assert (2 ^ dq <= 2 ^ 52) by (apply Z.pow_le_mono_r; lia). lia.
    - apply Z.nlt_ge. intros C.
      assert (2 ^ 54 <= 2 ^ (dq - 1)) by (apply Z.pow_le_mono_r; lia). lia. }
  destruct (round_normal false q (ex - ey - dy) (new_location (Zpos my) r))
    as (m & e & E & Hm & He); fold dq; try lia.
  fold dq in He. rewrite E.
  destruct (e <=? 971); [|reflexivity].
  apply SFleb_finite_intro.
  enough (-52 <= e) by lia.
  enough (1 <= ex - ey - dy + dq) by lia.
  destruct Hlt as [Hlt|[Hlt Hm']]; [lia|].
  enough (dy < dq) by lia.
  assert (dy <= 52 \/ dy = 53) as [C|C] by lia; [lia|].
  enough (dq <> 53) by lia. intros C'.
  rewrite C' in Bqu. rewrite C in *.
  assert (2 ^ 53 <= Zpos q); [|lia].
  rewrite Hq. apply Z.div_le_lower_bound; [lia|]. nia.
Qed.

(** Rounding a number with at least 53 digits loses less than one unit in
    the last place of the result. *)
Lemma round_normal_lower (sx : bool) (mx : positive) (ex : Z) (l : location) :
  53 <= Zpos (digits2_pos mx) -> -1074 <= ex ->
  exists m e,
    binary_round_aux prec emax sx (Zpos mx) ex l
    = (if e <=? 971 then S754_finite sx m e else S754_infinity sx)
    /\ 2 ^ 52 <= Zpos m < 2 ^ 53
    /\ ex <= e
    /\ scaled mx ex < scaled m e + 2 ^ (e + 1074).
Proof.
  intros H53 Hex.
  destruct (round_normal sx mx ex l) as (m & e & E & Hm & He); try lia.
  exists m, e. split; [exact E|]. split; [exact Hm|].
  pose proof (digits2_pos_bounds mx) as [Bl Bu].
  set (dx := Zpos (digits2_pos mx)) in *.
  set (k := dx - 53) in *.
  assert (Hk : 0 <= k) by (unfold k; lia).
  assert (Hpk : 0 < 2 ^ k) by (apply Z.pow_pos_nonneg; lia).
  assert (Hpe : 0 < 2 ^ (ex + 1074)) by (apply Z.pow_pos_nonneg; lia).
  unfold scaled.
  destruct He as [[He Hm0]|He].
  - split; [lia|].
    replace (e + 1074) with (k + (ex + 1074)) by lia.
    rewrite (Z.pow_add_r 2 k (ex + 1074)) by lia.
    assert (Zpos mx < (Zpos mx / 2 ^ k + 1) * 2 ^ k).
    { pose proof (Z.div_mod (Zpos mx) (2 ^ k)) as D.
      pose proof (Z.mod_pos_bound (Zpos mx) (2 ^ k) Hpk). lia. }
    nia.
  - split; [lia|].
    replace (e + 1074) with (1 + k + (ex + 1074)) by lia.
    rewrite (Z.pow_add_r 2 (1 + k) (ex + 1074)) by lia.
    rewrite (Z.pow_add_r 2 1 k) by lia. change (2 ^ 1) with 2.
    assert (2 ^ dx = 2 ^ 53 * 2 ^ k).
    { rewrite <- Z.pow_add_r by lia. f_equal. lia. }
    nia.
Qed.

Lemma pos_iter_xO (d : positive) (m : positive) :
  Zpos (Pos.iter xO m d) = Zpos m * 2 ^ Zpos d.
Proof.
  induction d as [|d IH] using Pos.peano_ind.
  - cbn. lia.
  - rewrite Pos.iter_succ, Pos2Z.inj_xO, IH, Pos2Z.inj_succ,
      Z.pow_succ_r by lia. lia.
Qed.

Lemma shl_align_spec (mx : positive) (ex ex' : Z) :
  ex' <= ex ->
  Zpos (fst (shl_align mx ex ex')) = Zpos mx * 2 ^ (ex - ex')
  /\ snd (shl_align mx ex ex') = ex'.
Proof.
  intros H. unfold shl_align.
  destruct (ex' - ex) as [|d|d] eqn:E; try lia; cbn [fst snd].
  - replace (ex - ex') with 0 by lia. split; lia.
  - rewrite pos_iter_xO. replace (ex - ex') with (Zpos d) by lia.
    split; reflexivity.
Qed.

Lemma shl_align_id (mx : positive) (ex ex' : Z) :
  ex <= ex' -> shl_align mx ex ex' = (mx, ex).
Proof.
  intros H. unfold shl_align.
  destruct (ex' - ex) as [|d|d] eqn:E; try lia; reflexivity.
Qed.

(** Adding a normal number of exponent at least -62 to a positive number:
    the sum, when it is finite, is a normal number that is less than one
    unit in its last place below the exact sum. *)
Lemma SFadd_lower (mt : positive) (et : Z) (ms : positive) (es : Z) :
  -1074 <= et -> 2 ^ 52 <= Zpos ms < 2 ^ 53 -> -62 <= es ->
  exists m e,
    SF64add (S754_finite false mt et) (S754_finite false ms es)
    = (if e <=? 971 then S754_finite false m e else S754_infinity false)
    /\ 2 ^ 52 <= Zpos m < 2 ^ 53
    /\ scaled mt et + scaled ms es < scaled m e + 2 ^ (e + 1074).
Proof.
  intros Het Hms Hes.
  unfold SF64add, SFadd. cbn [cond_Zopp].
  set (ez := Z.min et es).
  destruct (shl_align_spec mt et ez) as [At _]; [unfold ez; lia|].
  destruct (shl_align_spec ms es ez) as [As _]; [unfold ez; lia|].
  set (mt' := fst (shl_align mt et ez)) in *.
  set (ms' := fst (shl_align ms es ez)) in *.
  change (Zpos mt' + Zpos ms') with (Zpos (mt' + ms')).
  cbn [binary_normalize]. unfold binary_round.
  set (M := (mt' + ms')%positive).
  assert (HM : Zpos M = Zpos mt * 2 ^ (et - ez) + Zpos ms * 2 ^ (es - ez)).
  { unfold M. rewrite Pos2Z.inj_add. lia. }
  assert (Hez : -1074 <= ez) by (unfold ez; lia).
  assert (Hpa : 0 < 2 ^ (et - ez)) by (apply Z.pow_pos_nonneg; unfold ez; lia).
  assert (Hpb : 0 < 2 ^ (es - ez)) by (apply Z.pow_pos_nonneg; unfold ez; lia).
  assert (Hsum : scaled mt et + scaled ms es = scaled M ez).
  { unfold scaled. rewrite HM.
    replace (et + 1074) with ((et - ez) + (ez + 1074)) by lia.
    replace (es + 1074) with ((es - ez) + (ez + 1074)) by lia.
    rewrite (Z.pow_add_r 2 (et - ez) (ez + 1074)) by (unfold ez; lia).
    rewrite (Z.pow_add_r 2 (es - ez) (ez + 1074)) by (unfold ez; lia).
    ring. }
  rewrite Hsum.
  pose proof (digits2_pos_bounds M) as [Bl Bu].
  set (dM := Zpos (digits2_pos M)) in *.
  assert (HdM : 53 + (es - ez) <= dM).
  { apply Z.nlt_ge. intros C.
    assert (2 ^ dM <= 2 ^ (52 + (es - ez)))
      by (apply Z.pow_le_mono_r; unfold ez in *; lia).
    rewrite (Z.pow_add_r 2 52 (es - ez)) in H by (unfold ez; lia). nia. }
  rewrite fexp_normal by (unfold ez in *; lia).
  assert (ez <= es) by (unfold ez; lia).
  rewrite shl_align_id by lia.
  destruct (round_normal_lower false M ez loc_Exact)
    as (m & e & E & Hm & He & Hv); fold dM; try lia.
  exists m, e. split; [exact E|]. split; [exact Hm|exact Hv].
Qed.

(** [x <= y] for a normal [x] and a valid [y]: [y] is a normal number that
    is not below [x], or the positive infinity. *)
Lemma SFleb_normal_inv (mx : positive) (ex : Z) (y : spec_float) :
  2 ^ 52 <= Zpos mx < 2 ^ 53 -> -1074 < ex ->
  valid_binary y = true -> SFleb (S754_finite false mx ex) y = true ->
  y = S754_infinity false
  \/ exists m e, y = S754_finite false m e /\ ex <= e
                 /\ 2 ^ 52 <= Zpos m < 2 ^ 53
                 /\ scaled mx ex <= scaled m e.
Proof.
  intros Hmx Hex Hv H. destruct y as [s|s| |s m e]; try discriminate.
  - destruct s; [discriminate|]. now left.
  - destruct s; [discriminate|]. right.
    destruct (valid_digits _ _ _ Hv) as (He & Hd & Hn).
    exists m, e. split; [reflexivity|].
    unfold SFleb, SFcompare in H.
    assert (Hpe : 0 < 2 ^ (ex + 1074)) by (apply Z.pow_pos_nonneg; lia).
    destruct (Z.compare_spec ex e) as [E|E|E]; try discriminate.
    + subst e. split; [lia|].
      assert (Hm : 2 ^ 52 <= Zpos m < 2 ^ 53) by (apply normal_mantissa; lia).
      split; [exact Hm|].
      change (Pos.compare_cont Eq mx m) with (Pos.compare mx m) in H.
      destruct (Pos.compare_spec mx m) as [C|C|C]; try discriminate;
        unfold scaled; nia.
    + split; [lia|].
      assert (Hm : 2 ^ 52 <= Zpos m < 2 ^ 53) by (apply normal_mantissa; lia).
      split; [exact Hm|]. unfold scaled.
      replace (e + 1074) with ((e - ex - 1) + 1 + (ex + 1074)) by lia.
      rewrite (Z.pow_add_r 2 (e - ex - 1 + 1) (ex + 1074)) by lia.
      rewrite (Z.pow_add_r 2 (e - ex - 1) 1) by lia. change (2 ^ 1) with 2.
      assert (HP : 0 < 2 ^ (e - ex - 1)) by (apply Z.pow_pos_nonneg; lia).
      change (2 ^ 53) with (2 * 2 ^ 52) in Hmx.
      set (P := 2 ^ (e - ex - 1)) in *. set (Q := 2 ^ (ex + 1074)) in *.
      apply Z.le_trans with (2 * Zpos m * Q); [nia|].
      replace (Zpos m * (P * 2 * Q)) with (2 * Zpos m * Q * P) by ring.
      assert (0 <= 2 * Zpos m * Q) by nia. nia.
Qed.

(** A valid positive number below 1 is less than 2^1074 units. *)
Lemma scaled_below_one (m : positive) (e : Z) :
  valid_binary (S754_finite false m e) = true ->
  SFltb (S754_finite false m e) SFone = true ->
  e <= -53 /\ scaled m e < 2 ^ 1074.
Proof.
  intros Hv Hlt. destruct (valid_digits _ _ _ Hv) as (He & Hd & Hn).
  apply SFltb_finite_inv in Hlt.
  pose proof (digits2_pos_bounds m) as [Bl Bu].
  assert (Hm : Zpos m < 2 ^ 53).
  { apply Z.lt_le_trans with (1 := Bu). apply Z.pow_le_mono_r; lia. }
  assert (He' : e <= -53).
  { destruct Hlt as [Hlt|[Hlt Hm']]; [lia|exfalso].
    assert (Zpos (digits2_pos m) = 53) as Hd' by lia.
    apply normal_mantissa in Hd'. lia. }
  split; [exact He'|]. unfold scaled.
  assert (Hpe : 0 < 2 ^ (e + 1074)) by (apply Z.pow_pos_nonneg; lia).
  assert (2 ^ (e + 1074) <= 2 ^ 1021) by (apply Z.pow_le_mono_r; lia).
  replace (2 ^ 1074) with (2 ^ 53 * 2 ^ 1021)
    by (rewrite <- Z.pow_add_r by lia; reflexivity).
  nia.
Qed.

End Rounding.

(** * Exact arithmetic on integers *)

(** Sums, differences and products of floats that are integers are exact
    as long as the result is below 2^53 in absolute value. *)
Module Exact.

Import Rounding.

Local Open Scope Z_scope.

(** Shifting out zero bits is exact. *)
Lemma iter_pos_shr_1_exact (k : positive) :
  forall m : positive,
    iter_pos shr_1 k
      {| shr_m := Zpos (Pos.iter xO m k); shr_r := false; shr_s := false |}
    = {| shr_m := Zpos m; shr_r := false; shr_s := false |}.
Proof.
  induction k as [k IH|k IH|]; intros m; cbn [iter_pos Pos.iter].
  - cbn [shr_1 orb]. now rewrite !IH.
  - now rewrite !IH.
  - reflexivity.
Qed.

Lemma digits_shift (m : positive) (k : Z) (M : positive) :
  0 <= k -> Zpos M = Zpos m * 2 ^ k ->
  Zpos (digits2_pos M) = Zpos (digits2_pos m) + k.
Proof.
  intros Hk HM. apply digits2_pos_unique.
  pose proof (digits2_pos_bounds m) as [Bl Bu].
  set (d := Zpos (digits2_pos m)) in *.
  assert (Hd : 1 <= d) by (unfold d; lia).
  rewrite HM.
  replace (d + k - 1) with ((d - 1) + k) by lia.
  rewrite !Z.pow_add_r by lia.
  assert (0 < 2 ^ k) by (apply Z.pow_pos_nonneg; lia).
  split; [apply Z.mul_le_mono_nonneg_r; lia|apply Z.mul_lt_mono_pos_r; lia].
Qed.

(** Rounding a number that fits the format returns it. *)
Lemma round_aux_exact (sx : bool) (m M : positive) (k e : Z) :
  Zpos (digits2_pos m) = 53 -> 0 <= k -> Zpos M = Zpos m * 2 ^ k ->
  -1074 <= e + k <= 971 ->
  binary_round_aux prec emax sx (Zpos M) e loc_Exact
  = S754_finite sx m (e + k).
Proof.
  intros Hd Hk HM He.
  pose proof (digits_shift m k M Hk HM) as HdM. rewrite Hd in HdM.
  unfold binary_round_aux, shr_fexp. cbn [Zdigits2 shr_record_of_loc].
  rewrite HdM, fexp_normal by lia.
  replace (53 + k + e - 53 - e) with k by lia.
  assert (E1 : shr {| shr_m := Zpos M; shr_r := false; shr_s := false |} e k
               = ({| shr_m := Zpos m; shr_r := false; shr_s := false |},
                  e + k)).
  { destruct k as [|p|p]; [| |lia].
    - cbn [shr]. f_equal; [|lia]. f_equal. lia.
    - cbn [shr]. f_equal.
      assert (M = Pos.iter xO m p) as ->.
      { apply Pos2Z.inj. now rewrite pos_iter_xO. }
      apply iter_pos_shr_1_exact. }
  rewrite E1. cbn [shr_m loc_of_shr_record round_nearest_even Zdigits2].
  rewrite Hd, fexp_normal by lia.
  replace (53 + (e + k) - 53 - (e + k)) with 0 by lia.
  cbn [shr shr_m].
  replace (e + k <=? emax - prec) with true; [reflexivity|].
  symmetry. apply Z.leb_le. unfold emax, prec. lia.
Qed.

(** The mantissa of a positive integer below 2^53. *)
Lemma canonical_int (z : positive) :
  Zpos z < 2 ^ 53 ->
  exists m, Zpos (digits2_pos m) = 53
            /\ Zpos m = Zpos z * 2 ^ (53 - Zpos (digits2_pos z)).
Proof.
  intros Hz. pose proof (digits2_pos_bounds z) as [Bl Bu].
  set (d := Zpos (digits2_pos z)) in *.
  assert (Hd : 1 <= d <= 53).
  { split; [unfold d; lia|]. apply Z.nlt_ge. intros C.
    assert (2 ^ 53 <= 2 ^ (d - 1)) by (apply Z.pow_le_mono_r; lia). lia. }
  assert (Hp : 0 < 2 ^ (53 - d)) by (apply Z.pow_pos_nonneg; lia).
  destruct (Zpos z * 2 ^ (53 - d)) as [|m|m] eqn:E; try lia.
  exists m. split; [|reflexivity].
  rewrite (digits_shift z (53 - d) m); [fold d; lia|lia|exact (eq_sym E)].
Qed.

Lemma digits_below (z : positive) :
  Zpos z < 2 ^ 53 -> 1 <= Zpos (digits2_pos z) <= 53.
Proof.
  intros Hz. pose proof (digits2_pos_bounds z) as [Bl Bu].
  split; [lia|]. apply Z.nlt_ge. intros C.
  assert (2 ^ 53 <= 2 ^ (Zpos (digits2_pos z) - 1))
    by (apply Z.pow_le_mono_r; lia).
  lia.
Qed.

(** Rounding a positive integer below 2^53, given with an exponent that
    is not above the exponent of its float. *)
Lemma round_aux_int (sx : bool) (M z : positive) (e : Z) :
  Zpos z < 2 ^ 53 -> e <= Zpos (digits2_pos z) - 53 -> -1074 <= e ->
  Zpos M = Zpos z * 2 ^ (- e) ->
  exists m E,
    binary_round_aux prec emax sx (Zpos M) e loc_Exact = S754_finite sx m E
    /\ E <= 0 /\ Zpos m = Zpos z * 2 ^ (- E).
Proof.
  intros Hz He Hmin HM.
  destruct (canonical_int z Hz) as (m & Hd & Hm).
  pose proof (digits_below z Hz) as Hdz.
  set (d := Zpos (digits2_pos z)) in *.
  exists m, (d - 53). split; [|split; [lia|now replace (- (d - 53)) with (53 - d) by lia]].
  replace (d - 53) with (e + (d - 53 - e)) by lia.
  apply round_aux_exact; [exact Hd|lia| |lia].
  rewrite HM, Hm, <- Z.mul_assoc, <- Z.pow_add_r by lia.
  do 2 f_equal. lia.
Qed.

(** The same for [binary_round], which first aligns the mantissa. *)
Lemma binary_round_int (sx : bool) (M z : positive) (e : Z) :
  Zpos z < 2 ^ 53 -> e <= 0 -> -1074 <= e ->
  Zpos M = Zpos z * 2 ^ (- e) ->
  exists m E,
    binary_round prec emax sx M e = S754_finite sx m E
    /\ E <= 0 /\ Zpos m = Zpos z * 2 ^ (- E).
Proof.
  intros Hz He Hmin HM.
  pose proof (digits_below z Hz) as Hdz.
  pose proof (digits_shift z (- e) M ltac:(lia) HM) as HdM.
  set (d := Zpos (digits2_pos z)) in *.
  unfold binary_round. rewrite HdM.
  replace (d + - e + e) with d by lia.
  rewrite fexp_normal by lia.
  destruct (Z_le_gt_dec (d - 53) e) as [H|H].
  - destruct (shl_align_spec M e (d - 53) H) as [A B].
    destruct (shl_align M e (d - 53)) as [mz ez]. cbn [fst snd] in A, B.
    subst ez. apply round_aux_int; [exact Hz|fold d; lia|lia|].
    rewrite A, HM, <- Z.mul_assoc, <- Z.pow_add_r by lia.
    do 2 f_equal. lia.
  - rewrite shl_align_id by lia.
    apply round_aux_int; [exact Hz|fold d; lia|lia|exact HM].
Qed.

(** A valid number that is an integer is normal. *)
Lemma SFint_normal (s : bool) (m : positive) (e : Z) (z : Z) :
  valid_binary (S754_finite s m e) = true ->
  SFint (S754_finite s m e) z ->
  2 ^ 52 <= Zpos m < 2 ^ 53 /\ -52 <= e <= 0 /\ 0 < Z.abs z < 2 ^ 53.
Proof.
  intros Hv (He & Hm & Hs).
  destruct (valid_digits _ _ _ Hv) as (Hr & Hd & Hn).
  pose proof (digits2_pos_bounds m) as [Bl Bu].
  assert (Hz : 0 < Z.abs z) by (destruct s; lia).
  assert (Hp : 0 < 2 ^ (- e)) by (apply Z.pow_pos_nonneg; lia).
  assert (Hu : Zpos m < 2 ^ 53).
  { apply Z.lt_le_trans with (1 := Bu). apply Z.pow_le_mono_r; lia. }
  assert (H53 : Zpos (digits2_pos m) = 53).
  { destruct Hn as [Hn|Hn]; [exact Hn|exfalso]. subst e.
    assert (2 ^ 53 <= 2 ^ (- -1074)) by (apply Z.pow_le_mono_r; lia).
    nia. }
  apply normal_mantissa in H53.
  split; [exact H53|]. split.
  - split; [|exact He]. apply Z.nlt_ge. intros C.
    assert (2 ^ 53 <= 2 ^ (- e)) by (apply Z.pow_le_mono_r; lia). nia.
  - split; [exact Hz|]. nia.
Qed.

(** Products of integers. *)
Lemma SFint_mul (x y : spec_float) (zx zy : Z) :
  valid_binary x = true -> valid_binary y = true ->
  SFint x zx -> SFint y zy -> Z.abs (zx * zy) < 2 ^ 53 ->
  SFint (SF64mul x y) (zx * zy).
Proof.
  intros Vx Vy Hx Hy Hb. unfold SF64mul, SFmul.
  destruct x as [sx|sx| |sx mx ex]; try contradiction;
    destruct y as [sy|sy| |sy my ey]; try contradiction;
    cbn [SFint] in Hx, Hy |- *; try (subst; lia).
  destruct (SFint_normal _ _ _ _ Vx Hx) as (Nx & Ex & Zx).
  destruct (SFint_normal _ _ _ _ Vy Hy) as (Ny & Ey & Zy).
  destruct Hx as (_ & Hmx & Hsx). destruct Hy as (_ & Hmy & Hsy).
  assert (Hz : 0 < Z.abs (zx * zy)) by (rewrite Z.abs_mul; nia).
  destruct (Z.abs (zx * zy)) as [|z|z] eqn:Ez; try lia.
  assert (HM : Zpos (mx * my) = Zpos z * 2 ^ (- (ex + ey))).
  { rewrite Pos2Z.inj_mul, Hmx, Hmy, <- Ez, Z.abs_mul.
    replace (- (ex + ey)) with (- ex + - ey) by lia.
    rewrite Z.pow_add_r by lia. ring. }
  pose proof (digits_shift z (- (ex + ey)) (mx * my) ltac:(lia) HM) as Hd.
  assert (HdM : 105 <= Zpos (digits2_pos (mx * my))).
  { pose proof (digits2_pos_bounds (mx * my)) as [_ Bu].
    apply Z.nlt_ge. intros C.
    assert (2 ^ Zpos (digits2_pos (mx * my)) <= 2 ^ 104)
      by (apply Z.pow_le_mono_r; lia).
    rewrite Pos2Z.inj_mul in Bu.
    change (2 ^ 104) with (2 ^ 52 * 2 ^ 52) in H.
    assert (2 ^ 52 * 2 ^ 52 <= Zpos mx * Zpos my)
      by (apply Z.mul_le_mono_nonneg; lia).
    lia. }
  destruct (round_aux_int (xorb sx sy) (mx * my) z (ex + ey))
    as (m & E & R & HE & Hm); [lia|lia|lia|exact HM|].
  rewrite R. cbn [SFint]. split; [exact HE|]. split; [now rewrite Ez|].
  destruct sx, sy; cbn [xorb]; nia.
Qed.

Lemma SFint_normalize (Z0' : Z) (e : Z) (z : Z) :
  e <= 0 -> -1074 <= e -> Z.abs z < 2 ^ 53 -> Z0' = z * 2 ^ (- e) ->
  SFint (binary_normalize prec emax Z0' e false) z.
Proof.
  intros He Hmin Hz HM.
  assert (Hp : 0 < 2 ^ (- e)) by (apply Z.pow_pos_nonneg; lia).
  destruct Z0' as [|M|M]; cbn [binary_normalize].
  - cbn. nia.
  - destruct z as [|z|z]; try lia.
    destruct (binary_round_int false M z e) as (m & E & R & HE & Hm);
      [lia|lia|lia|lia|].
    rewrite R. cbn [SFint]. repeat split; lia.
  - destruct z as [|z|z]; try lia.
    destruct (binary_round_int true M z e) as (m & E & R & HE & Hm);
      [lia|lia|lia|lia|].
    rewrite R. cbn [SFint]. repeat split; lia.
Qed.

Lemma aligned (s : bool) (m : positive) (e ez : Z) (z : Z) :
  SFint (S754_finite s m e) z -> ez <= e ->
  cond_Zopp s (Zpos (fst (shl_align m e ez))) = z * 2 ^ (- ez).
Proof.
  intros (He & Hm & Hs) Hez.
  destruct (shl_align_spec m e ez Hez) as [A _]. rewrite A, Hm.
  rewrite <- Z.mul_assoc, <- Z.pow_add_r by lia.
  replace (- e + (e - ez)) with (- ez) by lia.
  destruct s; cbn [cond_Zopp]; lia.
Qed.

(** Sums and differences of integers. *)
Lemma SFint_add (x y : spec_float) (zx zy : Z) :
  valid_binary x = true -> valid_binary y = true ->
  SFint x zx -> SFint y zy -> Z.abs (zx + zy) < 2 ^ 53 ->
  SFint (SF64add x y) (zx + zy).
Proof.
  intros Vx Vy Hx Hy Hb. unfold SF64add, SFadd.
  destruct x as [sx|sx| |sx mx ex]; try contradiction;
    destruct y as [sy|sy| |sy my ey]; try contradiction.
  - cbn [SFint] in Hx, Hy. subst. destruct sx, sy; reflexivity.
  - cbn [SFint] in Hx. subst. exact Hy.
  - cbn [SFint] in Hy. subst. now rewrite Z.add_0_r.
  - destruct (SFint_normal _ _ _ _ Vx Hx) as (_ & Ex & _).
    destruct (SFint_normal _ _ _ _ Vy Hy) as (_ & Ey & _).
    cbv zeta. apply SFint_normalize; [lia|lia|exact Hb|].
    rewrite (aligned _ _ _ _ _ Hx), (aligned _ _ _ _ _ Hy) by lia. ring.
Qed.

Lemma SFint_sub (x y : spec_float) (zx zy : Z) :
  valid_binary x = true -> valid_binary y = true ->
  SFint x zx -> SFint y zy -> Z.abs (zx - zy) < 2 ^ 53 ->
  SFint (SF64sub x y) (zx - zy).
Proof.
  intros Vx Vy Hx Hy Hb. unfold SF64sub, SFsub.
  destruct x as [sx|sx| |sx mx ex]; try contradiction;
    destruct y as [sy|sy| |sy my ey]; try contradiction.
  - cbn [SFint] in Hx, Hy. subst. destruct sx, sy; reflexivity.
  - cbn [SFint] in Hx, Hy |- *. subst.
    destruct Hy as (He & Hm & Hs). repeat split; [exact He| |].
    + now rewrite Z.sub_0_l, Z.abs_opp.
    + destruct sy; cbn [negb]; lia.
  - cbn [SFint] in Hy. subst. now rewrite Z.sub_0_r.
  - destruct (SFint_normal _ _ _ _ Vx Hx) as (_ & Ex & _).
    destruct (SFint_normal _ _ _ _ Vy Hy) as (_ & Ey & _).
    cbv zeta. apply SFint_normalize; [lia|lia|exact Hb|].
    rewrite (aligned _ _ _ _ _ Hx), (aligned _ _ _ _ _ Hy) by lia. ring.
Qed.


(** ** Floats that are integers *)

Lemma represents_add (x y : float) (zx zy : Z) :
  represents x zx -> represents y zy ->
  Z.abs (zx + zy) < 9007199254740992 ->
  represents (x + y) (zx + zy).
Proof.
  unfold represents. intros Hx Hy Hb. rewrite add_spec.
  apply SFint_add; try apply Prim2SF_valid; assumption.
Qed.

Lemma represents_sub (x y : float) (zx zy : Z) :
  represents x zx -> represents y zy ->
  Z.abs (zx - zy) < 9007199254740992 ->
  represents (x - y) (zx - zy).
Proof.
  unfold represents. intros Hx Hy Hb. rewrite sub_spec.
  apply SFint_sub; try apply Prim2SF_valid; assumption.
Qed.

Lemma represents_mul (x y : float) (zx zy : Z) :
  represents x zx -> represents y zy ->
  Z.abs (zx * zy) < 9007199254740992 ->
  represents (x * y) (zx * zy).
Proof.
  unfold represents. intros Hx Hy Hb. rewrite mul_spec.
  apply SFint_mul; try apply Prim2SF_valid; assumption.
Qed.

Lemma represents_opp (x : float) (z : Z) :
  represents x z -> represents (- x) (- z).
Proof.
  unfold represents. rewrite opp_spec.
  destruct (Prim2SF x) as [s|s| |s m e]; cbn [SFopp SFint]; try tauto.
  - lia.
  - intros (He & Hm & Hs). rewrite Z.abs_opp.
    repeat split; [exact He|exact Hm|]. destruct s; cbn [negb]; lia.
Qed.

Lemma represents_abs (x : float) (z : Z) :
  represents x z -> represents (abs x) (Z.abs z).
Proof.
  unfold represents. rewrite abs_spec.
  destruct (Prim2SF x) as [s|s| |s m e]; cbn [SFabs SFint]; try tauto.
  - lia.
  - intros (He & Hm & Hs). rewrite (Z.abs_eq (Z.abs z)) by apply Z.abs_nonneg.
    repeat split; [exact He|exact Hm|]. destruct s; lia.
Qed.

Lemma represents_zero (x : float) : is_zero x <-> represents x 0.
Proof.
  unfold is_zero, represents. split.
  - intros [s ->]. reflexivity.
  - destruct (Prim2SF x) as [s|s| |s m e]; cbn [SFint]; try tauto.
    + intros _. now exists s.
    + intros (_ & _ & Hs). destruct s; lia.
Qed.

(** Two floats that are the same integer compare equal. *)
Lemma represents_eqb (x y : float) (z : Z) :
  represents x z -> represents y z -> (x =? y)%float = true.
Proof.
  unfold represents. intros Hx Hy. rewrite FloatAxioms.eqb_spec.
  pose proof (Prim2SF_valid x) as Vx. pose proof (Prim2SF_valid y) as Vy.
  destruct (Prim2SF x) as [sx|sx| |sx mx ex]; try contradiction;
    destruct (Prim2SF y) as [sy|sy| |sy my ey]; try contradiction;
    cbn [SFint] in Hx, Hy.
  - reflexivity.
  - exfalso. destruct Hy as (_ & _ & Hs). destruct sy; lia.
  - exfalso. destruct Hx as (_ & _ & Hs). destruct sx; lia.
  - destruct (SFint_normal _ _ _ _ Vx Hx) as (Nx & Ex & _).
    destruct (SFint_normal _ _ _ _ Vy Hy) as (Ny & Ey & _).
    destruct Hx as (_ & Hmx & Hsx). destruct Hy as (_ & Hmy & Hsy).
    assert (Hs : sx = sy) by (destruct sx, sy; lia || reflexivity).
    assert (He : ex = ey).
    { destruct (Z.lt_trichotomy ex ey) as [H|[H|H]]; [exfalso|exact H|exfalso].
      - assert (2 * 2 ^ (- ey) <= 2 ^ (- ex)).
        { replace (- ex) with (1 + (- ey) + (ey - ex - 1)) by lia.
          rewrite !Z.pow_add_r by lia. change (2 ^ 1) with 2.
          assert (1 <= 2 ^ (ey - ex - 1))
            by (apply (Z.pow_le_mono_r 2 0); lia).
          assert (0 < 2 ^ (- ey)) by (apply Z.pow_pos_nonneg; lia). nia. }
        change (2 ^ 53) with (2 * 2 ^ 52) in Nx. nia.
      - assert (2 * 2 ^ (- ex) <= 2 ^ (- ey)).
        { replace (- ey) with (1 + (- ex) + (ex - ey - 1)) by lia.
          rewrite !Z.pow_add_r by lia. change (2 ^ 1) with 2.
          assert (1 <= 2 ^ (ex - ey - 1))
            by (apply (Z.pow_le_mono_r 2 0); lia).
          assert (0 < 2 ^ (- ex)) by (apply Z.pow_pos_nonneg; lia). nia. }
        change (2 ^ 53) with (2 * 2 ^ 52) in Ny. nia. }
    subst sy ey. assert (mx = my) as -> by lia.
    apply FloatFacts.SFeqb_refl_finite. reflexivity.
Qed.

Lemma epsilon_bits :
  Prim2SF POLY_EPSILON = S754_finite false 4951760157141521 (-92).
Proof. vm_compute. reflexivity. Qed.

(** [ZeroSmall] keeps an integer coefficient when the sum of the absolute
    coefficients is an integer below 2^37: a coefficient that is not 0 is
    at least 1, and [1e-12] times the sum is below 1. *)
Lemma represents_ZeroSmall (c sum : float) (zc S : Z) :
  represents c zc -> represents sum S ->
  Z.abs zc <= S -> S < 137438953472 ->
  represents (ZeroSmall c sum POLY_EPSILON) zc.
Proof.
  intros Hc Hs Hle Hb. unfold ZeroSmall, Abs.
  destruct (Z.eq_dec zc 0) as [->|Hnz].
  { destruct (abs c <=? POLY_EPSILON * sum)%float; [reflexivity|exact Hc]. }
  replace (abs c <=? POLY_EPSILON * sum)%float with false; [exact Hc|].
  symmetry. rewrite FloatAxioms.leb_spec, mul_spec, abs_spec, epsilon_bits.
  pose proof (Prim2SF_valid c) as Vc. pose proof (Prim2SF_valid sum) as Vs.
  unfold represents in Hc, Hs.
  destruct (Prim2SF c) as [sc|sc| |sc mc ec]; try contradiction.
  destruct (Prim2SF sum) as [ss|ss| |ss ms es]; try contradiction;
    [cbn [SFint] in Hs; lia|].
  destruct (SFint_normal _ _ _ _ Vc Hc) as (Nc & Ec & _).
  destruct (SFint_normal _ _ _ _ Vs Hs) as (Ns & Es & _).
  destruct Hs as (_ & Hms & Hss).
  assert (Hes : es <= -16).
  { apply Z.nlt_ge. intros C.
    assert (2 ^ (- es) <= 2 ^ 15) by (apply Z.pow_le_mono_r; lia).
    change (2 ^ 15) with 32768 in H.
    change (2 ^ 52) with 4503599627370496 in Ns.
    assert (0 < 2 ^ (- es)) by (apply Z.pow_pos_nonneg; lia).
    assert (Z.abs S <= 137438953471) by lia.
    assert (Z.abs S * 2 ^ (- es) <= 137438953471 * 32768)
      by (apply Z.mul_le_mono_nonneg; lia).
    lia. }
  clear Hc Vc Vs Hms Hss Hle Hb Hnz.
  cbn [SFabs]. unfold SF64mul, SFmul. cbn [xorb].
  set (M := (4951760157141521 * ms)%positive).
  assert (HM : 2 ^ 104 <= Zpos M < 2 ^ 106).
  { unfold M. rewrite Pos2Z.inj_mul.
    change (2 ^ 104) with (2 ^ 52 * 2 ^ 52).
    change (2 ^ 106) with (2 ^ 53 * 2 ^ 53).
    assert (2 ^ 52 <= 4951760157141521 < 2 ^ 53) by (cbn; lia).
    split; [apply Z.mul_le_mono_nonneg; lia|apply Z.mul_lt_mono_nonneg; lia]. }
  assert (HdM : 105 <= Zpos (digits2_pos M) <= 106).
  { pose proof (digits2_pos_bounds M) as [Bl Bu]. split.
    - apply Z.nlt_ge. intros C.
      assert (2 ^ Zpos (digits2_pos M) <= 2 ^ 104)
        by (apply Z.pow_le_mono_r; lia). lia.
    - apply Z.nlt_ge. intros C.
      assert (2 ^ 106 <= 2 ^ (Zpos (digits2_pos M) - 1))
        by (apply Z.pow_le_mono_r; lia). lia. }
  destruct (round_normal ss M (-92 + es) loc_Exact)
    as (m & e & R & Hm & He); [lia|lia|].
  rewrite R. clear R HM.
  replace (e <=? 971) with true by (symmetry; apply Z.leb_le; lia).
  unfold SFleb, SFcompare.
  destruct ss.
  - reflexivity.
  - replace (ec ?= e) with Gt; [reflexivity|].
    symmetry. apply Z.compare_gt_iff. lia.
Qed.


Lemma rep_0 : represents 0 0.
Proof. reflexivity. Qed.

Lemma rep_const (c : float) (z : Z) (s : bool) (m : positive) (e : Z) :
  Prim2SF c = S754_finite s m e ->
  SFint (S754_finite s m e) z -> represents c z.
Proof. unfold represents. now intros ->. Qed.

Ltac const :=
  eapply rep_const;
  [vm_compute; reflexivity
  |cbn [SFint]; split; [lia|split; [vm_compute; reflexivity|lia]]].

Lemma rep_1 : represents 1 1. Proof. const. Qed.
Lemma rep_2 : represents 2 2. Proof. const. Qed.
Lemma rep_3 : represents 3 3. Proof. const. Qed.
Lemma rep_4 : represents 4 4. Proof. const. Qed.
Lemma rep_6 : represents 6 6. Proof. const. Qed.
Lemma rep_12 : represents 12 12. Proof. const. Qed.
Lemma rep_m2 : represents (-2) (-2). Proof. const. Qed.
Lemma rep_m3 : represents (-3) (-3). Proof. const. Qed.
Lemma rep_m4 : represents (-4) (-4). Proof. const. Qed.

Ltac int :=
  first
    [ eassumption
    | exact rep_0 | exact rep_1 | exact rep_2 | exact rep_3 | exact rep_4
    | exact rep_6 | exact rep_12 | exact rep_m2 | exact rep_m3
    | exact rep_m4
    | apply represents_add; [int|int|lia]
    | apply represents_sub; [int|int|lia]
    | apply represents_mul; [int|int|lia]
    | apply represents_opp; int
    | apply represents_abs; int ].

Import BezierPolynomial.

(** [Set]'s last step on integer coefficients whose absolute values add
    up to less than 2^37: no coefficient is changed in value. *)
Lemma zero_small_int (q : BezierPolynomial.t) (za zb zc zd ze : Z) :
  represents (a q) za -> represents (b q) zb -> represents (c q) zc ->
  represents (d q) zd -> represents (e q) ze ->
  Z.abs za + Z.abs zb + Z.abs zc + Z.abs zd + Z.abs ze < 137438953472 ->
  represents (a (zero_small q)) za /\ represents (b (zero_small q)) zb
  /\ represents (c (zero_small q)) zc /\ represents (d (zero_small q)) zd
  /\ represents (e (zero_small q)) ze.
Proof.
  intros Ha Hb Hc Hd He Hs.
  assert (Hsum : represents (abs_sum q)
                   (Z.abs za + Z.abs zb + Z.abs zc + Z.abs zd + Z.abs ze)).
  { unfold abs_sum, Abs. int. }
  cbn [zero_small a b c d e].
  repeat split; (eapply represents_ZeroSmall; [eassumption|exact Hsum|lia|lia]).
Qed.

(** The values at 0 and at 1 of a polynomial with integer coefficients. *)
Lemma f0_int (p : BezierPolynomial.t) (za zb zc zd ze : Z) :
  (1 <= n p <= 4) ->
  represents (a p) za -> represents (b p) zb -> represents (c p) zc ->
  represents (d p) zd -> represents (e p) ze ->
  Z.abs za + Z.abs zb + Z.abs zc + Z.abs zd + Z.abs ze < 137438953472 ->
  exists v0 v1,
    f0 p 0 = Ok v0 /\ represents v0 za
    /\ f0 p 1 = Ok v1
    /\ represents v1
         (match n p with
          | 1 => za + zb
          | 2 => za + (zb + zc)
          | 3 => za + (zb + (zc + zd))
          | _ => za + (zb + (zc + (zd + ze)))
          end).
Proof.
  intros Hn Ha Hb Hc Hd He Hs. unfold f0.
  assert (n p = 1 \/ n p = 2 \/ n p = 3 \/ n p = 4) as [N|[N|[N|N]]] by lia;
    rewrite N; do 2 eexists;
    (split; [reflexivity|]); (split; [|split; [reflexivity|]]).
  - replace za with (za + 0 * zb) by ring. int.
  - replace (za + zb) with (za + 1 * zb) by ring. int.
  - replace za with (za + 0 * (zb + 0 * zc)) by ring. int.
  - replace (za + (zb + zc)) with (za + 1 * (zb + 1 * zc)) by ring. int.
  - replace za with (za + 0 * (zb + 0 * (zc + 0 * zd))) by ring. int.
  - replace (za + (zb + (zc + zd)))
      with (za + 1 * (zb + 1 * (zc + 1 * zd))) by ring. int.
  - replace za with (za + 0 * (zb + 0 * (zc + 0 * (zd + 0 * ze)))) by ring.
    int.
  - replace (za + (zb + (zc + (zd + ze))))
      with (za + 1 * (zb + 1 * (zc + 1 * (zd + 1 * ze)))) by ring. int.
Qed.


Ltac split_lists HF HB :=
  repeat (apply Forall2_cons_iff in HF; destruct HF as [? HF]);
  repeat (apply Forall_cons_iff in HB; destruct HB as [? HB]).

(** The coefficients [za] to [ze] of the polynomial that the goal
    evaluates. *)
Ltac integer_coefficients za zb zc zd ze :=
  match goal with
  | |- context [zero_small ?q] =>
      let A := fresh "A" in
      let B := fresh "B" in
      let C := fresh "C" in
      let D := fresh "D" in
      let F := fresh "F" in
      destruct (zero_small_int q za zb zc zd ze)
        as (A & B & C & D & F);
      [cbn [a b c d e]; int ..|lia|];
      let v0 := fresh "v0" in
      let v1 := fresh "v1" in
      let R1 := fresh "R1" in
      destruct (f0_int (zero_small q) za zb zc zd ze)
        as (v0 & v1 & ? & ? & ? & R1);
      [cbn [zero_small n]; lia|assumption ..|lia|];
      exists v0, v1; cbn [zero_small n] in R1;
      repeat split; try assumption
  end.

End Exact.

(** * Vertex handles *)

Section Handles.

Import BezierVertex.
Context {libm : Libm}.

(** C9.  On a vertex tagged Midpoint, [HandleFwd] and [HandleRev] panic
    ("can't place a handle on a curve midpoint") and leave the vertex as
    it was; on an Endpoint vertex both calls return. *)
Theorem handle_on_midpoint_panics (theta r : float) (v : BezierVertex.t) :
  (vtype v = MIDPOINT ->
     HandleFwd theta r v = (v, Panic cant_place_a_handle_on_a_curve_midpoint)
     /\ HandleRev theta r v = (v, Panic cant_place_a_handle_on_a_curve_midpoint))
  /\ (vtype v = ENDPOINT ->
        snd (HandleFwd theta r v) = Ok tt /\ snd (HandleRev theta r v) = Ok tt).
Proof.
  unfold HandleFwd, HandleRev.
  split; intros ->; split; reflexivity.
Qed.

(** C10.  On an endpoint, [HandleFwd theta r] and [HandleRev theta r]
    store the absolute value of [r] as the radius of the handle, so that
    [- r] and [r] give the same vertex; and with a radius that is zero
    the expansion adds no midpoint for that handle: the vertex expands as
    one without the handle. *)
Theorem handle_radius_is_absolute (theta r : float) (v : BezierVertex.t) :
  vtype v = ENDPOINT ->
  handle_fwd (fst (HandleFwd theta r v)) = mkV2 (abs r) theta
  /\ handle_rev (fst (HandleRev theta r v)) = mkV2 (abs r) theta
  /\ HandleFwd theta (- r) v = HandleFwd theta r v
  /\ HandleRev theta (- r) v = HandleRev theta r v
  /\ ((r =? 0) = true ->
        Bezier.expand (fst (HandleFwd theta r v))
          = Bezier.expand (without_fwd v)
        /\ Bezier.expand (fst (HandleRev theta r v))
          = Bezier.expand (without_rev v)).
Proof.
  intros Hv. unfold HandleFwd, HandleRev, Abs. rewrite Hv. cbn [fst].
  rewrite FloatFacts.abs_opp.
  repeat split; try reflexivity.
  - unfold Bezier.expand, without_fwd. cbn.
    now rewrite (FloatFacts.abs_eqb_zero r H), Hv.
  - unfold Bezier.expand, without_rev. cbn.
    now rewrite (FloatFacts.abs_eqb_zero r H), Hv.
Qed.

End Handles.

Lemma handle_on_midpoint_panics_witness :
  let m := BezierVertex.mk MIDPOINT (mkV2 5 10) BezierVertex.V2_zero BezierVertex.V2_zero in
  let e := BezierVertex.mk ENDPOINT (mkV2 5 10) BezierVertex.V2_zero BezierVertex.V2_zero in
  (BezierVertex.HandleFwd 1 2 m = (m, Panic cant_place_a_handle_on_a_curve_midpoint)
   /\ BezierVertex.HandleRev 1 2 m = (m, Panic cant_place_a_handle_on_a_curve_midpoint))
  /\ (snd (BezierVertex.HandleFwd 1 2 e) = Ok tt
      /\ snd (BezierVertex.HandleRev 1 2 e) = Ok tt).
Proof.
  intros m e. split.
  - exact (proj1 (handle_on_midpoint_panics 1 2 m) eq_refl).
  - exact (proj2 (handle_on_midpoint_panics 1 2 e) eq_refl).
Defined.

Lemma handle_radius_is_absolute_witness :
  let v := BezierVertex.mk ENDPOINT (mkV2 5 10) BezierVertex.V2_zero BezierVertex.V2_zero in
  BezierVertex.HandleFwd 1 (-2) v = BezierVertex.HandleFwd 1 2 v
  /\ @Bezier.expand libm_stub (fst (BezierVertex.HandleFwd 1 0 v))
     = @Bezier.expand libm_stub (without_fwd v).
Proof.
  intros v. split.
  - exact (proj1 (proj2 (proj2
      (@handle_radius_is_absolute libm_stub 1 2 v eq_refl)))).
  - exact (proj1 (proj2 (proj2 (proj2 (proj2
      (@handle_radius_is_absolute libm_stub 1 0 v eq_refl)))) eq_refl)).
Defined.

(** * Handle expansion *)

Section Expansion.

Import BezierVertex.
Context {libm : Libm}.

Lemma expand_fold (vl acc : list BezierVertex.t) :
  fold_left (fun acc v => acc ++ Bezier.expand v) vl acc
  = acc ++ flat_map Bezier.expand vl.
Proof.
  revert acc. induction vl as [|v vl IH]; intros acc; cbn [fold_left flat_map].
  - now rewrite app_nil_r.
  - now rewrite IH, app_assoc.
Qed.

Lemma expand_all_flat_map (vl : list BezierVertex.t) :
  Bezier.expand_all vl = flat_map Bezier.expand vl.
Proof. unfold Bezier.expand_all. now rewrite expand_fold. Qed.

Lemma expand_all_app (pre post : list BezierVertex.t) :
  Bezier.expand_all (pre ++ post)
  = Bezier.expand_all pre ++ Bezier.expand_all post.
Proof. rewrite !expand_all_flat_map. apply flat_map_app. Qed.

End Expansion.

(** * Closure and validation *)

Section Fixups.

Import BezierVertex.
Import Bezier.

(** C4.  A curve that is not closed is left as it is by [closure].  For
    a closed curve whose vertex list starts with an endpoint: when the
    last vertex is an endpoint whose coordinates equal those of the
    first ([Equals] with tolerance 0), the curve is left as it is; when
    the last vertex is an endpoint with other coordinates, or a
    midpoint, a copy of the first vertex is appended. *)
Theorem closure_cases (b : Bezier.t) :
  (closed b = false -> closure b = Ok b)
  /\ (forall first rest,
        closed b = true ->
        vlist b = first :: rest ->
        vtype first = ENDPOINT ->
        let last := List.last (vlist b) first in
        (vtype last = ENDPOINT ->
           V2ops.Equals (vertex last) (vertex first) = true ->
           closure b = Ok b)
        /\ (vtype last = ENDPOINT ->
              V2ops.Equals (vertex last) (vertex first) = false ->
              closure b = Ok (Bezier.mk true (vlist b ++ [first])))
        /\ (vtype last = MIDPOINT ->
              closure b = Ok (Bezier.mk true (vlist b ++ [first])))).
Proof.
  unfold closure. split.
  - now intros ->.
  - intros first rest Hc Hl Hf. cbv zeta.
    rewrite Hc, Hl, Hf. cbn [negb].
    repeat split.
    + now intros -> ->.
    + now intros -> ->.
    + now intros ->.
Qed.

Lemma last_rev_head (v : BezierVertex.t) (vl : list BezierVertex.t) (d : BezierVertex.t) :
  exists w rest, rev (v :: vl) = w :: rest /\ List.last (v :: vl) d = w.
Proof.
  destruct (rev (v :: vl)) as [|w rest] eqn:E.
  - apply (f_equal (@length _)) in E. rewrite length_rev in E. discriminate.
  - exists w, rest. split; [reflexivity|].
    apply (f_equal (@rev _)) in E. rewrite rev_involutive in E.
    rewrite E. cbn [rev]. apply last_last.
Qed.


Context {libm : Libm}.


End Fixups.

Lemma closure_cases_witness :
  Bezier.closure (Bezier.mk false [endpoint 0 0; midpoint 1 1])
  = Ok (Bezier.mk false [endpoint 0 0; midpoint 1 1])
  /\ Bezier.closure (Bezier.mk true [endpoint 0 0; endpoint 1 1; endpoint 0 0])
     = Ok (Bezier.mk true [endpoint 0 0; endpoint 1 1; endpoint 0 0])
  /\ Bezier.closure (Bezier.mk true [endpoint 0 0; endpoint 1 1])
     = Ok (Bezier.mk true [endpoint 0 0; endpoint 1 1; endpoint 0 0])
  /\ Bezier.closure (Bezier.mk true [endpoint 0 0; midpoint 1 1])
     = Ok (Bezier.mk true [endpoint 0 0; midpoint 1 1; endpoint 0 0]).
Proof.
  split; [|split; [|split]].
  - exact (proj1 (closure_cases (Bezier.mk false [endpoint 0 0; midpoint 1 1]))
             eq_refl).
  - exact (proj1 (proj2 (closure_cases
             (Bezier.mk true [endpoint 0 0; endpoint 1 1; endpoint 0 0]))
             _ _ eq_refl eq_refl eq_refl) eq_refl eq_refl).
  - exact (proj1 (proj2 (proj2 (closure_cases
             (Bezier.mk true [endpoint 0 0; endpoint 1 1]))
             _ _ eq_refl eq_refl eq_refl)) eq_refl eq_refl).
  - exact (proj2 (proj2 (proj2 (closure_cases
             (Bezier.mk true [endpoint 0 0; midpoint 1 1]))
             _ _ eq_refl eq_refl eq_refl)) eq_refl).
Defined.



(** * Rendering *)

Section Linear.

Context {libm : Libm}.

(** C7.  A spline of order 1 is rendered as exactly two points, its value
    at 0 and then its value at 1, whatever the sampling budget: no
    intermediate sample is taken.  In particular the open curve through
    (0,0) and (10,0), with no handle, flattens to [(0,0); (10,0)]. *)
Theorem linear_spline_two_points (fuel : nat) :
  (forall (s : BezierSpline.t) (p : Polygon),
      BezierSpline.order s = 1%Z ->
      BezierPolynomial.n (BezierSpline.py s) = 1%Z ->
      exists v0 v1,
        BezierSpline.f0 s 0 = Ok v0
        /\ BezierSpline.f0 s 1 = Ok v1
        /\ Bezier.render fuel s p = Ok (p ++ [v0; v1]))
  /\ Bezier.Polygon fuel line_0_10 = Ok [mkV2 0 0; mkV2 10 0].
Proof.
  split.
  - intros s p Hx Hy. unfold Bezier.render. rewrite Hx. cbn [Z.eqb Pos.eqb].
    unfold BezierSpline.f0, BezierPolynomial.f0.
    unfold BezierSpline.order in Hx. rewrite Hx, Hy. cbn [bind].
    do 2 eexists. split; [reflexivity|]. split; [reflexivity|].
    unfold Polygon_AddV2. now rewrite <- app_assoc.
  - reflexivity.
Qed.

End Linear.

Lemma linear_spline_two_points_witness :
  let s := BezierSpline.mk (BezierPolynomial.mk 1 0 10 0 0 0)
                           (BezierPolynomial.mk 1 0 0 0 0 0) in
  exists v0 v1,
    BezierSpline.f0 s 0 = Ok v0
    /\ BezierSpline.f0 s 1 = Ok v1
    /\ @Bezier.render libm_stub 0 s [] = Ok ([] ++ [v0; v1]).
Proof.
  intros s.
  exact (proj1 (@linear_spline_two_points libm_stub 0) s [] eq_refl eq_refl).
Defined.

(** * Segmentation into splines *)

Section Segmentation.

Import BezierVertex.
Import Bezier.

Lemma coefficients_order (p : BezierPolynomial.t) (x : list float) :
  let n := (Z.of_nat (length x) - 1)%Z in
  (1 <= n <= 4)%Z /\
    (exists q, BezierPolynomial.coefficients p x = Ok q
               /\ BezierPolynomial.n q = n)
  \/ ~ (1 <= n <= 4)%Z /\
    BezierPolynomial.coefficients p x = Panic (bad_polynomial_order n).
Proof.
  intros n. unfold BezierPolynomial.coefficients. fold n.
  destruct n as [|q|q].
  - right. split; [lia|reflexivity].
  - destruct q as [[[q|q|]|[q|q|]|]|[[q|q|]|[q|q|]|]|];
      try (right; split; [lia|reflexivity]);
      left; (split; [lia|eexists; split; reflexivity]).
  - right. split; [lia|reflexivity].
Qed.

Lemma NewBezierSpline_order (p : list V2) :
  let n := (Z.of_nat (length p) - 1)%Z in
  (1 <= n <= 4)%Z /\
    (exists s, BezierSpline.NewBezierSpline p = Ok s
               /\ BezierSpline.order s = n
               /\ BezierPolynomial.n (BezierSpline.py s) = n)
  \/ ~ (1 <= n <= 4)%Z /\
    BezierSpline.NewBezierSpline p = Panic (bad_polynomial_order n).
Proof.
  intros n. unfold BezierSpline.NewBezierSpline, BezierPolynomial.Set_.
  destruct (coefficients_order BezierPolynomial.zero (map X p))
    as [[Hn (qx & Ex & Nx)]|[Hn Ex]];
    rewrite length_map in *; fold n in Hn.
  - destruct (coefficients_order BezierPolynomial.zero (map Y p))
      as [[_ (qy & Ey & Ny)]|[Hn' _]];
      rewrite length_map in *; [|fold n in Hn'; tauto].
    left. split; [exact Hn|].
    rewrite Ex, Ey. cbn [bind]. eexists. split; [reflexivity|].
    split; [exact Nx|exact Ny].
  - right. split; [exact Hn|]. rewrite Ex. reflexivity.
Qed.

Lemma splines_loop_seg (vl : list BezierVertex.t) :
  forall fuel vertices splines,
    (2 * length vl + 1 <= fuel)%nat ->
    splines_loop fuel vl MIDPOINT vertices splines = seg vl vertices splines.
Proof.
  induction vl as [|v rest IH]; intros fuel vertices splines Hf.
  - destruct fuel; [cbn in Hf; lia|reflexivity].
  - cbn [length] in Hf.
    destruct fuel as [|fuel]; [lia|]. cbn [splines_loop seg].
    destruct (vtype v) eqn:Hv.
    + destruct (BezierSpline.NewBezierSpline (vertices ++ [vertex v]));
        cbn [bind]; try reflexivity.
      destruct rest as [|w rest']; [reflexivity|].
      destruct fuel as [|fuel]; [lia|]. cbn [splines_loop]. rewrite Hv.
      apply IH. cbn [length] in *. lia.
    + apply IH. lia.
Qed.

Lemma make_splines_seg (v : BezierVertex.t) (rest : list BezierVertex.t) :
  vtype v = ENDPOINT ->
  make_splines (v :: rest) = seg rest [vertex v] [].
Proof.
  intros Hv. unfold make_splines.
  cbn [length Nat.mul Nat.add]. cbn [splines_loop]. rewrite Hv.
  apply splines_loop_seg. lia.
Qed.

(** A run of midpoints that, with the points already accumulated, makes
    more than five points: the spline that the next endpoint closes has
    an order above 4. *)
Lemma seg_long_run (mids : list BezierVertex.t) :
  forall e2 post vertices splines,
    Forall is_midpoint mids -> vtype e2 = ENDPOINT ->
    (5 <= length vertices + length mids)%nat ->
    exists k, (5 <= k)%Z
      /\ seg (mids ++ e2 :: post) vertices splines
         = Panic (bad_polynomial_order k).
Proof.
  induction mids as [|m mids IH]; intros e2 post vertices splines Hm He Hl.
  - cbn [app seg]. rewrite He.
    destruct (NewBezierSpline_order (vertices ++ [vertex e2]))
      as [[Hn _]|[Hn E]]; rewrite length_app in *; cbn [length] in *.
    + lia.
    + rewrite E. cbn [bind]. eexists. split; [|reflexivity]. lia.
  - inversion Hm as [|? ? Hm1 Hm2]; subst. cbn [app seg]. rewrite Hm1.
    apply IH; try assumption.
    rewrite length_app. cbn [length] in *. lia.
Qed.

Lemma seg_reaches_long_run (pre : list BezierVertex.t) :
  forall e1 mids e2 post vertices splines,
    vertices <> [] ->
    vtype e1 = ENDPOINT -> vtype e2 = ENDPOINT ->
    Forall is_midpoint mids -> (3 < length mids)%nat ->
    exists k, (5 <= k)%Z
      /\ seg (pre ++ e1 :: mids ++ e2 :: post) vertices splines
         = Panic (bad_polynomial_order k).
Proof.
  induction pre as [|v pre IH];
    intros e1 mids e2 post vertices splines Hne H1 H2 Hm Hl.
  - cbn [app seg]. rewrite H1.
    destruct (NewBezierSpline_order (vertices ++ [vertex e1]))
      as [[Hn (s & E & _)]|[Hn E]]; rewrite length_app in *;
      cbn [length] in *; rewrite E; cbn [bind].
    + destruct mids as [|m mids]; [cbn in Hl; lia|].
      change ((m :: mids) ++ e2 :: post)
        with (m :: (mids ++ e2 :: post)).
      change (m :: (mids ++ e2 :: post))
        with ((m :: mids) ++ e2 :: post).
      apply seg_long_run; try assumption. cbn [length] in *. lia.
    + eexists. split; [|reflexivity].
      destruct vertices; [congruence|]. cbn [length] in *. lia.
  - cbn [app seg].
    destruct (vtype v).
    + destruct (NewBezierSpline_order (vertices ++ [vertex v]))
        as [[Hn (s & E & _)]|[Hn E]]; rewrite length_app in *;
        cbn [length] in *; rewrite E; cbn [bind].
      * destruct (pre ++ e1 :: mids ++ e2 :: post) eqn:Epre.
        { destruct pre; discriminate. }
        rewrite <- Epre. apply IH; try assumption. discriminate.
      * eexists. split; [|reflexivity].
        destruct vertices; [congruence|]. cbn [length] in *. lia.
    + apply IH; try assumption. now destruct vertices.
Qed.

Lemma runs_bounded_tail (k : nat) (v : BezierVertex.t)
    (rest : list BezierVertex.t) :
  runs_bounded k (v :: rest) -> runs_bounded k rest.
Proof.
  intros H pre mids post E Hm. apply (H (v :: pre) mids post); [|exact Hm].
  now rewrite E.
Qed.

Lemma seg_bounded_runs (vl : list BezierVertex.t) :
  forall vertices splines,
    vertices <> [] ->
    (forall mids post, vl = mids ++ post -> Forall is_midpoint mids ->
                       (length vertices + length mids <= 4)%nat) ->
    runs_bounded 3 vl ->
    Forall order_in_range splines ->
    exists out, seg vl vertices splines = Ok out
                /\ Forall order_in_range out.
Proof.
  induction vl as [|v rest IH]; intros vertices splines Hne Hhead Hb Hs.
  - exists splines. split; [reflexivity|exact Hs].
  - cbn [seg]. destruct (vtype v) eqn:Hv.
    + pose proof (Hhead [] (v :: rest) eq_refl (Forall_nil _)) as Hlen.
      cbn [length] in Hlen.
      destruct (NewBezierSpline_order (vertices ++ [vertex v]))
        as [[Hn (s & E & Ho & _)]|[Hn E]]; rewrite length_app in *;
        cbn [length] in *.
      2:{ destruct vertices; [congruence|]. cbn [length] in *. lia. }
      rewrite E. cbn [bind].
      assert (Hs' : Forall order_in_range (splines ++ [s])).
      { apply Forall_app. split; [exact Hs|].
        constructor; [|constructor]. unfold order_in_range. lia. }
      destruct rest as [|w rest'].
      * eexists. split; [reflexivity|exact Hs'].
      * apply IH; [discriminate| |eapply runs_bounded_tail; eassumption
                  |exact Hs'].
        intros mids post E' Hm. cbn [length].
        enough (length mids <= 3)%nat by lia.
        apply (Hb [v] mids post); [|exact Hm]. now rewrite E'.
    + apply IH; [now destruct vertices| |eapply runs_bounded_tail; eassumption
                |exact Hs].
      intros mids post E' Hm. rewrite length_app. cbn [length].
      pose proof (Hhead (v :: mids) post) as H. cbn [length] in H.
      enough (length vertices + S (length mids) <= 4)%nat by lia.
      apply H; [now rewrite E'|]. constructor; [exact Hv|exact Hm].
Qed.

Context {libm : Libm}.

Lemma fixups_starts_with_endpoint (b b' : Bezier.t) :
  fixups b = Ok b' ->
  exists v rest, vlist b' = v :: rest /\ vtype v = ENDPOINT.
Proof.
  unfold fixups. destruct (closure (handles b)) as [c| |]; cbn [bind];
    try discriminate.
  unfold validate.
  destruct (length (vlist c) <? 2)%nat; [discriminate|].
  destruct (vlist c) as [|v rest] eqn:E; [discriminate|].
  destruct (vtype v) eqn:Hv; [|discriminate].
  destruct (_ && _); cbn [bind]; [discriminate|].
  intros [= <-]. now exists v, rest.
Qed.

(** C2.  Let [b'] be the curve after [fixups].  When its vertex list has
    a run of more than 3 consecutive midpoints between two endpoints,
    the segmentation fails, and [Polygon] with it, with the panic "bad
    polynomial order k" for some k above 4.  When no run of consecutive
    midpoints is longer than 3, the segmentation returns splines, each
    of an order from 1 to 4. *)
Theorem long_midpoint_run_fails (fuel : nat) (b b' : Bezier.t) :
  fixups b = Ok b' ->
  (forall pre e1 mids e2 post,
      vlist b' = pre ++ e1 :: mids ++ e2 :: post ->
      vtype e1 = ENDPOINT -> vtype e2 = ENDPOINT ->
      Forall is_midpoint mids -> (3 < length mids)%nat ->
      exists k, (5 <= k)%Z
        /\ make_splines (vlist b') = Panic (bad_polynomial_order k)
        /\ Bezier.Polygon fuel b = Panic (bad_polynomial_order k))
  /\ (runs_bounded 3 (vlist b') ->
        exists splines,
          make_splines (vlist b') = Ok splines
          /\ Forall order_in_range splines).
Proof.
  intros Hfix.
  destruct (fixups_starts_with_endpoint b b' Hfix) as (v & rest & E & Hv).
  split.
  - intros pre e1 mids e2 post Hl H1 H2 Hm Hlen.
    assert (exists k, (5 <= k)%Z
              /\ make_splines (vlist b') = Panic (bad_polynomial_order k))
      as (k & Hk & Ek).
    { rewrite E, make_splines_seg by exact Hv.
      rewrite E in Hl. destruct pre as [|v0 pre]; cbn [app] in Hl.
      - injection Hl as -> ->.
        apply seg_long_run; try assumption. cbn [length]. lia.
      - injection Hl as -> ->.
        apply seg_reaches_long_run; try assumption. discriminate. }
    exists k. split; [exact Hk|]. split; [exact Ek|].
    unfold Bezier.Polygon. rewrite Hfix. cbn [bind]. now rewrite Ek.
  - intros Hb. rewrite E in *. rewrite make_splines_seg by exact Hv.
    apply seg_bounded_runs; [discriminate| |eapply runs_bounded_tail; eassumption
                            |constructor].
    intros mids post E' Hm. cbn [length].
    enough (length mids <= 3)%nat by lia.
    apply (Hb [v] mids post); [|exact Hm]. now rewrite E'.
Qed.

End Segmentation.

Lemma three_midpoints_bounded : runs_bounded 3 (Bezier.vlist three_midpoints).
Proof.
  intros pre mids post E Hm.
  assert (Hlen : (length mids <= 5)%nat).
  { apply (f_equal (@length _)) in E. rewrite !length_app in E.
    cbn in E. lia. }
  assert (Hin : forall m, In m mids -> m = midpoint 1 1 \/ m = midpoint 2 2
                                      \/ m = midpoint 3 1).
  { intros m Hi. rewrite Forall_forall in Hm. specialize (Hm m Hi).
    assert (In m (Bezier.vlist three_midpoints)) as Hi'.
    { rewrite E. apply in_or_app. right. apply in_or_app. now left. }
    cbn in Hi'. unfold is_midpoint in Hm.
    destruct Hi' as [<-|[<-|[<-|[<-|[<-|[]]]]]]; try discriminate; tauto. }
  destruct (Nat.le_gt_cases (length mids) 3) as [H|H]; [exact H|exfalso].
  destruct pre as [|p0 pre]; cbn in E.
  - destruct mids as [|m0 mids]; [cbn in H; lia|]. injection E as <- _.
    destruct (Hin _ (or_introl eq_refl)) as [A|[A|A]]; discriminate.
  - injection E as <- E.
    destruct pre as [|p1 pre]; cbn in E.
    + destruct mids as [|m1 [|m2 [|m3 [|m4 mids]]]]; cbn in H; try lia.
      injection E as <- <- <- <- _.
      destruct (Hin (endpoint 4 0)) as [A|[A|A]]; try discriminate.
      cbn. tauto.
    + injection E as <- E.
      apply (f_equal (@length _)) in E. rewrite !length_app in E.
      cbn in E. lia.
Qed.

Lemma long_midpoint_run_fails_witness :
  (exists k, (5 <= k)%Z
     /\ @Bezier.make_splines (Bezier.vlist four_midpoints)
        = Panic (bad_polynomial_order k)
     /\ @Bezier.Polygon libm_stub 0 four_midpoints
        = Panic (bad_polynomial_order k))
  /\ (exists splines,
        Bezier.make_splines (Bezier.vlist three_midpoints) = Ok splines
        /\ Forall order_in_range splines).
Proof.
  split.
  - refine (proj1 (@long_midpoint_run_fails libm_stub 0 four_midpoints
                     four_midpoints eq_refl)
              [] (endpoint 0 0)
              [midpoint 1 1; midpoint 2 2; midpoint 3 2; midpoint 4 1]
              (endpoint 5 0) [] eq_refl eq_refl eq_refl _ _).
    + repeat constructor.
    + cbn. lia.
  - exact (proj2 (@long_midpoint_run_fails libm_stub 0 three_midpoints
                    three_midpoints eq_refl) three_midpoints_bounded).
Defined.

(** * Values of a polynomial at the ends of its interval *)

Section Boundary.

Import BezierPolynomial.
Import FloatFacts.

Lemma Set_inv (p0 p : BezierPolynomial.t) (x : list float) :
  Set_ p0 x = Ok p ->
  exists q, coefficients p0 x = Ok q /\ p = zero_small q
            /\ n q = (Z.of_nat (length x) - 1)%Z /\ (1 <= n q <= 4)%Z
            /\ a q = at_ x 0.
Proof.
  unfold Set_.
  destruct (coefficients_order p0 x) as [[Hn (q & E & Nq)]|[Hn E]];
    rewrite E; cbn [bind]; [|discriminate].
  intros [= <-]. exists q. repeat split; try assumption; try lia.
  unfold coefficients in E.
  destruct (Z.of_nat (length x) - 1)%Z as [|k|k]; try discriminate.
  destruct k as [[[k|k|]|[k|k|]|]|[[k|k|]|[k|k|]|]|]; try discriminate;
    now injection E as <-.
Qed.

Lemma horner_step_0 (x y : float) :
  finite x = true -> finite y = true -> finite (x + 0 * y) = true.
Proof.
  intros Hx Hy. now apply add_zero_r; [|apply mul_0_finite].
Qed.

Import Exact.

Local Open Scope Z_scope.

(** [Set] and [f0] on control values that are integers of absolute value
    at most 2^30, with a receiver whose coefficients [c], [d] and [e] are
    zero: every operation is exact and no coefficient is zeroed, so the
    value at 0 is the first control value and the value at 1 the last. *)
Lemma Set_integers (p0 p : BezierPolynomial.t) (x : list float)
    (zs : list Z) :
  Set_ p0 x = Ok p ->
  Forall2 represents x zs ->
  Forall (fun z => Z.abs z <= 1073741824) zs ->
  is_zero (c p0) -> is_zero (d p0) -> is_zero (e p0) ->
  exists v0 v1,
    f0 p 0 = Ok v0 /\ represents v0 (hd 0 zs)
    /\ f0 p 1 = Ok v1 /\ represents v1 (List.last zs 0).
Proof.
  intros H HF HB Hc Hd He.
  apply represents_zero in Hc, Hd, He.
  destruct (Set_inv p0 p x H) as (q & E & -> & Nq & Hn & _).
  pose proof (Forall2_length HF) as HL.
  destruct x as [|x0 [|x1 [|x2 [|x3 [|x4 [|x5 r]]]]]];
    cbn [List.length] in Nq; try lia;
    destruct zs as [|z0 [|z1 [|z2 [|z3 [|z4 [|z5 r']]]]]];
    try discriminate HL; clear HL Nq Hn H;
    split_lists HF HB; clear HF HB;
    unfold coefficients in E; cbn [List.length Z.of_nat Pos.of_succ_nat
      Pos.succ Z.sub Z.add Z.opp Z.pos_sub Z.succ_double Z.pred_double
      Z.double Pos.pred_double at_ nth] in E;
    injection E as <-; cbn [hd List.last].
  - integer_coefficients z0 (- z0 + z1) 0 0 0.
    now replace (z0 + (- z0 + z1)) with z1 in R1 by ring.
  - integer_coefficients z0 (-2 * z0 + 2 * z1) (z0 - 2 * z1 + z2) 0 0.
    now replace (z0 + (-2 * z0 + 2 * z1 + (z0 - 2 * z1 + z2)))
      with z2 in R1 by ring.
  - integer_coefficients z0 (-3 * z0 + 3 * z1) (3 * z0 - 6 * z1 + 3 * z2)
      (- z0 + 3 * z1 - 3 * z2 + z3) 0.
    now replace (z0 + (-3 * z0 + 3 * z1
                       + (3 * z0 - 6 * z1 + 3 * z2
                          + (- z0 + 3 * z1 - 3 * z2 + z3))))
      with z3 in R1 by ring.
  - integer_coefficients z0 (-4 * z0 + 4 * z1) (6 * z0 - 12 * z1 + 6 * z2)
      (-4 * z0 + 12 * z1 - 12 * z2 + 4 * z3)
      (z0 - 4 * z1 + 6 * z2 - 4 * z3 + z4).
    now replace (z0 + (-4 * z0 + 4 * z1
                       + (6 * z0 - 12 * z1 + 6 * z2
                          + (-4 * z0 + 12 * z1 - 12 * z2 + 4 * z3
                             + (z0 - 4 * z1 + 6 * z2 - 4 * z3 + z4)))))
      with z4 in R1 by ring.
Qed.

Local Close Scope Z_scope.

Lemma Forall2_ends (x : list float) (zs : list Z) :
  Forall2 represents x zs ->
  represents (hd 0 x) (hd 0%Z zs)
  /\ represents (List.last x 0) (List.last zs 0%Z).
Proof.
  induction 1 as [|x0 z0 x zs H0 H IH]; [split; exact rep_0|].
  split; [exact H0|]. destruct H as [|x1 z1 x' zs' H1 H']; [exact H0|].
  exact (proj2 IH).
Qed.

(** C1, as amended.  After [Set] on the control values of a valid order
    (1 to 4): the constant coefficient is the first control value passed
    through [ZeroSmall], so it is 0 when the value is small against the
    sum of the absolute coefficients; when the stored coefficients are
    finite, the value at 0 compares equal ([==]) to the constant
    coefficient; and the value at 1 is the floating-point sum of the
    coefficients of the order, added from the right.  When the control
    values are integers of absolute value at most 2^30 and the
    coefficients [c], [d] and [e] of the receiver are zero, as they are in
    [NewBezierSpline], no operation rounds and no coefficient is zeroed:
    the value at 0 is the first control value and the value at 1 is the
    last control value. *)
Theorem boundary_values (p0 p : BezierPolynomial.t) (x : list float) :
  Set_ p0 x = Ok p ->
  (1 <= n p <= 4)%Z
  /\ n p = (Z.of_nat (length x) - 1)%Z
  /\ (exists q, coefficients p0 x = Ok q
                /\ a p = ZeroSmall (at_ x 0) (abs_sum q) POLY_EPSILON)
  /\ (all_finite p = true ->
        exists v, f0 p 0 = Ok v /\ (v =? a p) = true)
  /\ f0 p 1 = Ok (coefficient_sum p)
  /\ (forall zs,
        Forall2 represents x zs ->
        Forall (fun z => (Z.abs z <= 1073741824)%Z) zs ->
        is_zero (c p0) -> is_zero (d p0) -> is_zero (e p0) ->
        exists v0 v1,
          f0 p 0 = Ok v0 /\ represents v0 (hd 0%Z zs)
          /\ (v0 =? hd 0 x) = true
          /\ f0 p 1 = Ok v1 /\ represents v1 (List.last zs 0%Z)
          /\ (v1 =? List.last x 0) = true).
Proof.
  intros H.
  assert (Hint : forall zs,
             Forall2 represents x zs ->
             Forall (fun z => (Z.abs z <= 1073741824)%Z) zs ->
             is_zero (c p0) -> is_zero (d p0) -> is_zero (e p0) ->
             exists v0 v1,
               f0 p 0 = Ok v0 /\ represents v0 (hd 0%Z zs)
               /\ (v0 =? hd 0 x) = true
               /\ f0 p 1 = Ok v1 /\ represents v1 (List.last zs 0%Z)
               /\ (v1 =? List.last x 0) = true).
  { intros zs HF HB Hc Hd He.
    destruct (Set_integers p0 p x zs H HF HB Hc Hd He)
      as (v0 & v1 & E0 & R0 & E1 & R1).
    destruct (Forall2_ends x zs HF) as [Rh Rl].
    exists v0, v1. split; [exact E0|]. split; [exact R0|].
    split; [exact (represents_eqb _ _ _ R0 Rh)|].
    split; [exact E1|]. split; [exact R1|].
    exact (represents_eqb _ _ _ R1 Rl). }
  destruct (Set_inv p0 p x H) as (q & E & -> & Nq & Hn & Ha).
  change (n (zero_small q)) with (n q).
  split; [exact Hn|]. split; [exact Nq|]. split.
  { exists q. split; [exact E|]. cbn [zero_small a]. now rewrite Ha. }
  set (p := zero_small q) in *. change (n q) with (n p) in Hn.
  split; [|split; [|exact Hint]].
  - unfold all_finite. intros Hf.
    repeat (apply andb_prop in Hf; destruct Hf as [Hf ?]).
    unfold f0.
    assert (n p = 1 \/ n p = 2 \/ n p = 3 \/ n p = 4)%Z
      as [N|[N|[N|N]]] by lia; rewrite N;
      eexists; (split; [reflexivity|]);
      apply add_zero_r; try assumption; apply mul_0_finite;
      repeat (apply horner_step_0; try assumption); assumption.
  - unfold f0, coefficient_sum.
    assert (n p = 1 \/ n p = 2 \/ n p = 3 \/ n p = 4)%Z
      as [N|[N|[N|N]]] by lia; rewrite N; now rewrite !mul_1_l.
Qed.

End Boundary.

Lemma boundary_values_witness :
  let p := BezierPolynomial.mk 2 0 10 0 0 0 in
  (exists v, BezierPolynomial.f0 p 0 = Ok v
             /\ (v =? BezierPolynomial.a p) = true)
  /\ BezierPolynomial.f0 p 1 = Ok (coefficient_sum p)
  /\ (exists v0 v1,
        BezierPolynomial.f0 p 0 = Ok v0 /\ represents v0 0%Z
        /\ (v0 =? 0) = true
        /\ BezierPolynomial.f0 p 1 = Ok v1 /\ represents v1 10%Z
        /\ (v1 =? 10) = true).
Proof.
  intros p.
  pose proof (boundary_values BezierPolynomial.zero p [0; 5; 10] eq_refl) as H.
  split; [|split].
  - exact (proj1 (proj2 (proj2 (proj2 H))) eq_refl).
  - exact (proj1 (proj2 (proj2 (proj2 (proj2 H))))).
  - apply (proj2 (proj2 (proj2 (proj2 (proj2 H)))) [0; 5; 10]%Z).
    + repeat constructor.
      * apply (Exact.rep_const 5 5 false 5629499534213120 (-50));
          [reflexivity|repeat split; try lia; reflexivity].
      * apply (Exact.rep_const 10 10 false 5629499534213120 (-49));
          [reflexivity|repeat split; try lia; reflexivity].
    + repeat constructor; cbn; lia.
    + now exists false.
    + now exists false.
    + now exists false.
Defined.

(** C1 as stated fails.  With the control values [1e20; 1] the value at 1
    is 0 and not the last control value 1: [-1e20 + 1] rounds to [-1e20].
    With the control values [1e-20; 1] the value at 0 is 0 and not the
    first control value: the constant coefficient is zeroed, being small
    against the sum 1 of the absolute coefficients.  Neither list is
    within the integers of the amended statement. *)
Lemma boundary_values_not_exact :
  (p <- BezierPolynomial.Set_ BezierPolynomial.zero [1e20; 1] ;;
   BezierPolynomial.f0 p 1) = Ok 0
  /\ (0 =? 1) = false
  /\ (p <- BezierPolynomial.Set_ BezierPolynomial.zero [1e-20; 1] ;;
      BezierPolynomial.f0 p 0) = Ok 0
  /\ (0 =? 1e-20) = false.
Proof. repeat split. Qed.

(** * The sampling loop *)

Section Sampling.

Import Rounding.

Lemma dtmin_spec :
  Prim2SF Bezier.dtmin = S754_finite false 4616302320748136 (-62).
Proof. vm_compute. reflexivity. Qed.

Lemma epsilon_spec :
  Prim2SF Bezier.epsilon = S754_finite false 7205759403792794 (-56).
Proof. vm_compute. reflexivity. Qed.

Lemma one_spec : Prim2SF 1 = SFone.
Proof. vm_compute. reflexivity. Qed.

(** The absolute value is a NaN or has a positive sign. *)
Lemma abs_cases (x : float) :
  Prim2SF (abs x) = S754_nan
  \/ Prim2SF (abs x) = S754_zero false
  \/ Prim2SF (abs x) = S754_infinity false
  \/ exists m e, Prim2SF (abs x) = S754_finite false m e.
Proof.
  rewrite abs_spec. destruct (Prim2SF x) as [s|s| |s m e]; cbn [SFabs]; auto.
  right. right. right. now exists m, e.
Qed.

(** One iteration of the sampling loop adds to [t] a step that is at
    least [dtmin]; when [dtheta] is zero the step is infinite and the next
    [t] fails the guard of the loop. *)
Lemma next_t_step (t x : float) :
  exists step,
    Bezier.next_t t (Abs x) = t + step
    /\ (Bezier.dtmin <=? step) = true
    /\ ((Abs x =? 0) = true -> (Bezier.next_t t (Abs x) <? 1) = false).
Proof.
  unfold Bezier.next_t, Abs.
  assert (Hmin : (Bezier.dtmin <=? Bezier.dtmin) = true) by reflexivity.
  destruct (abs_cases x) as [H|[H|[H|(m & e & H)]]].
  - (* NaN: the comparison fails *)
    rewrite FloatAxioms.ltb_spec, FloatAxioms.eqb_spec, H. cbn.
    exists Bezier.dtmin.
    split; [reflexivity|split; [exact Hmin|discriminate]].
  - (* zero: the quotient and the step are infinite *)
    rewrite FloatAxioms.ltb_spec, H, epsilon_spec. cbn [SFltb SFcompare].
    assert (Hs : Prim2SF (Bezier.dtmin * (Bezier.epsilon / abs x))
                 = S754_infinity false).
    { now rewrite mul_spec, div_spec, H, dtmin_spec, epsilon_spec. }
    eexists. split; [reflexivity|]. split.
    + now rewrite FloatAxioms.leb_spec, Hs, dtmin_spec.
    + intros _. rewrite FloatAxioms.ltb_spec, add_spec, Hs, one_spec.
      now destruct (Prim2SF t) as [s|[]| |s mt et].
  - (* infinity *)
    rewrite FloatAxioms.ltb_spec, FloatAxioms.eqb_spec, H, epsilon_spec. cbn.
    exists Bezier.dtmin.
    split; [reflexivity|split; [exact Hmin|discriminate]].
  - destruct (abs x <? Bezier.epsilon) eqn:Hlt.
    + eexists. split; [reflexivity|]. split.
      * rewrite FloatAxioms.ltb_spec, H, epsilon_spec in Hlt.
        pose proof (Prim2SF_valid (abs x)) as Hv. rewrite H in Hv.
        rewrite FloatAxioms.leb_spec, mul_spec, div_spec, H,
          dtmin_spec, epsilon_spec.
        apply SFmul_ge_1; [cbn; lia|lia| |].
        -- rewrite <- epsilon_spec, <- H, <- div_spec. apply Prim2SF_valid.
        -- now apply SFdiv_ge_1.
      * rewrite FloatAxioms.eqb_spec, H. cbn. discriminate.
    + exists Bezier.dtmin. split; [reflexivity|]. split; [exact Hmin|].
      rewrite FloatAxioms.eqb_spec, H. cbn. discriminate.
Qed.

Lemma val_below_one (t : float) :
  nonneg t -> (t <? 1) = true -> (0 <= val t < 2 ^ 1074)%Z.
Proof.
  unfold nonneg, val. intros Hn Hlt.
  rewrite FloatAxioms.ltb_spec, one_spec in Hlt.
  pose proof (Prim2SF_valid t) as Hv.
  destruct (Prim2SF t) as [s|[]| |[] m e]; try contradiction;
    try discriminate; [lia|].
  destruct (scaled_below_one m e Hv Hlt) as [_ H].
  split; [|exact H]. unfold scaled.
  apply Z.mul_nonneg_nonneg; [lia|]. apply Z.pow_nonneg. lia.
Qed.

(** Adding a step of at least [dtmin] to a [t] in [0,1): the sum is
    positive and, when it is still below 1, it is above [t + dtmin] less
    one unit in the last place of the numbers in [1/2,1). *)
Lemma add_step_progress (t step : float) :
  nonneg t -> (t <? 1) = true -> (Bezier.dtmin <=? step) = true ->
  nonneg (t + step)
  /\ ((t + step <? 1) = true ->
        (val t + dtmin_units < val (t + step) + 2 ^ 1021)%Z).
Proof.
  unfold nonneg, val, dtmin_units. intros Hn Hlt Hs.
  rewrite FloatAxioms.ltb_spec, one_spec in Hlt.
  rewrite FloatAxioms.leb_spec, dtmin_spec in Hs.
  rewrite FloatAxioms.ltb_spec, one_spec, add_spec.
  pose proof (Prim2SF_valid t) as Hvt.
  pose proof (Prim2SF_valid (t + step)) as Hvr. rewrite add_spec in Hvr.
  assert (Hp : (0 < 2 ^ 1021)%Z) by (apply Z.pow_pos_nonneg; lia).
  destruct (SFleb_normal_inv 4616302320748136 (-62) (Prim2SF step))
    as [Es|(ms & es & Es & Hes & Hms & Hd)];
    [cbn; lia|lia|apply Prim2SF_valid|exact Hs| |]; rewrite Es in *.
  - (* an infinite step *)
    destruct (Prim2SF t) as [s|[]| |[] mt et]; try contradiction;
      try discriminate; cbn; (split; [exact I|discriminate]).
  - destruct (Prim2SF t) as [s|[]| |[] mt et]; try contradiction;
      try discriminate.
    + (* t is zero: the sum is the step *)
      cbn [SF64add SFadd]. split; [exact I|]. intros _. lia.
    + destruct (valid_digits _ _ _ Hvt) as (Het & _).
      destruct (SFadd_lower mt et ms es) as (m & e & E & Hm & Hv);
        [lia|exact Hms|lia|].
      rewrite E in *.
      destruct (e <=? 971)%Z; [|split; [exact I|discriminate]].
      split; [exact I|]. intros Hlt'.
      destruct (scaled_below_one m e Hvr Hlt') as [He _].
      assert ((2 ^ (e + 1074) <= 2 ^ 1021)%Z)
        by (apply Z.pow_le_mono_r; lia).
      lia.
Qed.

Lemma loop_invariant_init : loop_invariant 0 0.
Proof.
  split; [exact I|]. intros _. vm_compute. discriminate.
Qed.

Lemma loop_invariant_step (k : Z) (t x : float) :
  loop_invariant k t -> (t <? 1) = true ->
  loop_invariant (k + 1) (Bezier.next_t t (Abs x)).
Proof.
  intros [Hn Hk] Hlt. specialize (Hk Hlt).
  destruct (next_t_step t x) as (step & -> & Hs & _).
  destruct (add_step_progress t step Hn Hlt Hs) as [Hn' Hp].
  split; [exact Hn'|]. intros Hlt'. specialize (Hp Hlt'). lia.
Qed.

(** A thousand minimal steps, each with its rounding loss, reach 1. *)
Lemma thousand_steps : (2 ^ 1074 <= 1000 * (dtmin_units - 2 ^ 1021))%Z.
Proof.
  unfold dtmin_units, scaled.
  change (-62 + 1074)%Z with 1012%Z.
  replace (2 ^ 1074)%Z with (2 ^ 62 * 2 ^ 1012)%Z
    by (rewrite <- Z.pow_add_r by lia; reflexivity).
  replace (2 ^ 1021)%Z with (2 ^ 9 * 2 ^ 1012)%Z
    by (rewrite <- Z.pow_add_r by lia; reflexivity).
  assert (0 < 2 ^ 1012)%Z by (apply Z.pow_pos_nonneg; lia).
  change (2 ^ 62)%Z with 4611686018427387904%Z.
  change (2 ^ 9)%Z with 512%Z.
  generalize dependent (2 ^ 1012)%Z. intros u Hu. lia.
Qed.

Lemma loop_invariant_bound (k : Z) (t : float) :
  loop_invariant k t -> (t <? 1) = true -> (k < 1000)%Z.
Proof.
  intros [Hn Hk] Hlt. specialize (Hk Hlt).
  pose proof (val_below_one t Hn Hlt) as Hv.
  pose proof thousand_steps as H.
  assert (0 < dtmin_units - 2 ^ 1021)%Z.
  { assert (0 < 2 ^ 1074)%Z by (apply Z.pow_pos_nonneg; lia). lia. }
  nia.
Qed.

Context {libm : Libm}.

Lemma polynomial_f0_ok (p : BezierPolynomial.t) (t : float) :
  (1 <= BezierPolynomial.n p <= 4)%Z ->
  exists v, BezierPolynomial.f0 p t = Ok v.
Proof.
  intros H. unfold BezierPolynomial.f0.
  assert (BezierPolynomial.n p = 1 \/ BezierPolynomial.n p = 2
          \/ BezierPolynomial.n p = 3 \/ BezierPolynomial.n p = 4)%Z
    as [N|[N|[N|N]]] by lia; rewrite N; eexists; reflexivity.
Qed.

Lemma polynomial_f1_ok (p : BezierPolynomial.t) (t : float) :
  (1 <= BezierPolynomial.n p <= 4)%Z ->
  exists v, BezierPolynomial.f1 p t = Ok v.
Proof.
  intros H. unfold BezierPolynomial.f1.
  assert (BezierPolynomial.n p = 1 \/ BezierPolynomial.n p = 2
          \/ BezierPolynomial.n p = 3 \/ BezierPolynomial.n p = 4)%Z
    as [N|[N|[N|N]]] by lia; rewrite N; eexists; reflexivity.
Qed.

Lemma spline_f0_ok (s : BezierSpline.t) (t : float) :
  valid_orders s -> exists v, BezierSpline.f0 s t = Ok v.
Proof.
  intros [Hx Hy]. unfold BezierSpline.f0.
  destruct (polynomial_f0_ok _ t Hx) as [x ->].
  destruct (polynomial_f0_ok _ t Hy) as [y ->].
  eexists; reflexivity.
Qed.

Lemma spline_slope_ok (s : BezierSpline.t) (t : float) :
  valid_orders s -> exists v, BezierSpline.slope s t = Ok v.
Proof.
  intros [Hx Hy]. unfold BezierSpline.slope.
  destruct (polynomial_f1_ok _ t Hy) as [y ->].
  destruct (polynomial_f1_ok _ t Hx) as [x ->].
  eexists; reflexivity.
Qed.

(** The loop returns: from a state that satisfies the invariant after [k]
    iterations, at most [1000 - k] further points are added. *)
Lemma sample_loop_returns (s : BezierSpline.t) :
  valid_orders s ->
  forall (n fuel : nat) (k : Z) (t : float) (p : Polygon),
    loop_invariant k t -> (1000 <= k + Z.of_nat n)%Z -> (n < fuel)%nat ->
    exists pts,
      Bezier.sample_loop fuel s t p = Ok (p ++ pts)
      /\ (length pts <= n)%nat
      /\ ((t <? 1) = true ->
            exists v rest, BezierSpline.f0 s t = Ok v /\ pts = v :: rest).
Proof.
  intros Hs. induction n as [|n IH]; intros fuel k t p Hinv Hk Hf;
    (destruct fuel as [|fuel]; [lia|]); cbn [Bezier.sample_loop];
    destruct (t <? 1) eqn:Hlt.
  - pose proof (loop_invariant_bound k t Hinv Hlt). lia.
  - exists []. rewrite app_nil_r. repeat split; [cbn; lia|discriminate].
  - destruct (spline_f0_ok s t Hs) as [v Ev].
    destruct (spline_slope_ok s (t + Bezier.dtmin) Hs) as [s1 E1].
    destruct (spline_slope_ok s t Hs) as [s0 E0].
    rewrite Ev, E1, E0. cbn [bind].
    destruct (IH fuel (k + 1)%Z (Bezier.next_t t (Abs (s1 - s0)))
                (Polygon_AddV2 p v))
      as (pts & E & Hl & _);
      [now apply loop_invariant_step|lia|lia|].
    exists (v :: pts). rewrite E. unfold Polygon_AddV2.
    rewrite <- app_assoc. split; [reflexivity|]. split; [cbn; lia|].
    intros _. now exists v, pts.
  - exists []. rewrite app_nil_r. repeat split; [cbn; lia|discriminate].
Qed.

(** C6.  For a spline of an order from 2 to 4 the sampling loop returns:
    started at [t = 0] it evaluates its guard at most 1001 times and adds
    between 1 and 1000 points, after which [render] adds the value at 1;
    no panic is raised (a division by zero gives an infinity).  In every
    iteration the step added to [t] is at least [dtmin = 1/999]; when
    [dtheta] is zero the step is infinite, so that the next [t] fails the
    guard [t < 1]. *)
Theorem sampling_loop_terminates (fuel : nat) (s : BezierSpline.t)
    (p : Polygon) :
  (2 <= BezierPolynomial.n (BezierSpline.px s) <= 4)%Z ->
  (2 <= BezierPolynomial.n (BezierSpline.py s) <= 4)%Z ->
  (1001 <= fuel)%nat ->
  (exists pts v1,
      Bezier.sample_loop fuel s 0 p = Ok (p ++ pts)
      /\ (1 <= length pts <= 1000)%nat
      /\ BezierSpline.f0 s 1 = Ok v1
      /\ Bezier.render fuel s p = Ok (p ++ pts ++ [v1]))
  /\ (forall t x : float,
        exists step,
          Bezier.next_t t (Abs x) = t + step
          /\ (Bezier.dtmin <=? step) = true
          /\ ((Abs x =? 0) = true ->
                (Bezier.next_t t (Abs x) <? 1) = false)).
Proof.
  intros Hx Hy Hf. split; [|exact next_t_step].
  assert (Hs : valid_orders s) by (split; lia).
  destruct (sample_loop_returns s Hs 1000 fuel 0%Z 0 p)
    as (pts & E & Hl & Hhd); [exact loop_invariant_init|lia|lia|].
  destruct (Hhd eq_refl) as (v & rest & _ & ->).
  destruct (spline_f0_ok s 1 Hs) as [v1 E1].
  exists (v :: rest), v1. split; [exact E|]. split; [cbn in *; lia|].
  split; [exact E1|].
  unfold Bezier.render, BezierSpline.order.
  destruct (Z.eqb_spec (BezierPolynomial.n (BezierSpline.px s)) 1); [lia|].
  rewrite E, E1. cbn [bind]. unfold Polygon_AddV2.
  now rewrite <- app_assoc.
Qed.

End Sampling.

Lemma sampling_loop_terminates_witness :
  (exists pts v1,
      @Bezier.sample_loop libm_stub 1001 quadratic_spline 0 [] = Ok ([] ++ pts)
      /\ (1 <= length pts <= 1000)%nat
      /\ BezierSpline.f0 quadratic_spline 1 = Ok v1
      /\ @Bezier.render libm_stub 1001 quadratic_spline [] = Ok ([] ++ pts ++ [v1]))
  /\ (forall t x : float,
        exists step,
          Bezier.next_t t (Abs x) = t + step
          /\ (Bezier.dtmin <=? step) = true
          /\ ((Abs x =? 0) = true ->
                (Bezier.next_t t (Abs x) <? 1) = false)).
Proof.
  apply (@sampling_loop_terminates libm_stub 1001 quadratic_spline []);
    cbn; lia.
Defined.

(** * The quadratic curve from (0,0) over (5,10) to (10,0) *)

Section Quadratic.

Context {libm : Libm}.

(** C3.  Whatever [math.Atan2] computes, [Polygon] on the open curve
    endpoint (0,0), midpoint (5,10), endpoint (10,0) returns a sequence of
    points that starts with (0,0), ends with (10,0), the value at 1 that is
    added after the loop, and has at least 2 and at most 1001 points. *)
Theorem quadratic_curve_polygon (fuel : nat) :
  (1001 <= fuel)%nat ->
  exists pts rest,
    Bezier.Polygon fuel curve_0_5_10 = Ok pts
    /\ pts = mkV2 0 0 :: rest ++ [mkV2 10 0]
    /\ hd_error pts = Some (mkV2 0 0)
    /\ List.last pts (mkV2 0 0) = mkV2 10 0
    /\ (2 <= length pts <= 1001)%nat.
Proof.
  intros Hf.
  assert (Hfix : Bezier.fixups curve_0_5_10 = Ok curve_0_5_10)
    by reflexivity.
  assert (Hspl : Bezier.make_splines (Bezier.vlist curve_0_5_10)
                 = Ok [quadratic_spline]) by reflexivity.
  destruct (sample_loop_returns quadratic_spline
              ltac:(split; cbn; lia) 1000 fuel 0%Z 0 NewPolygon)
    as (pts & E & Hl & Hhd); [exact loop_invariant_init|lia|lia|].
  destruct (Hhd eq_refl) as (v & rest & Ev & ->).
  assert (v = mkV2 0 0) as -> by (cbn in Ev; congruence).
  exists ((mkV2 0 0 :: rest) ++ [mkV2 10 0]), rest.
  split; [|split; [reflexivity|split; [reflexivity|split]]].
  - unfold Bezier.Polygon. rewrite Hfix. cbn [bind]. rewrite Hspl.
    cbn [bind Bezier.render_all]. unfold Bezier.render.
    change (BezierSpline.order quadratic_spline =? 1)%Z with false.
    cbv iota. rewrite E. reflexivity.
  - change ((mkV2 0 0 :: rest) ++ [mkV2 10 0])
      with ([mkV2 0 0] ++ rest ++ [mkV2 10 0]).
    rewrite app_assoc. apply last_last.
  - rewrite length_app. cbn [length] in *. lia.
Qed.

End Quadratic.

Lemma quadratic_curve_polygon_witness :
  exists pts rest,
    @Bezier.Polygon libm_stub 1001 curve_0_5_10 = Ok pts
    /\ pts = mkV2 0 0 :: rest ++ [mkV2 10 0]
    /\ hd_error pts = Some (mkV2 0 0)
    /\ List.last pts (mkV2 0 0) = mkV2 10 0
    /\ (2 <= length pts <= 1001)%nat.
Proof.
  exact (@quadratic_curve_polygon libm_stub 1001 (le_n 1001)).
Defined.

(** * Further properties of the fixups *)

Section FixupsMore.

Import BezierVertex.
Import Bezier.

Lemma first_endpoint_spec (vl : list BezierVertex.t) :
  forall k, exists j,
    first_endpoint vl k = (k + j)%nat
    /\ Forall is_midpoint (firstn j vl)
    /\ (existsb is_endpoint vl = true ->
        starts_with_endpoint (skipn j vl) = true).
Proof.
  induction vl as [|v rest IH]; intros k.
  - exists 0%nat. cbn. repeat split; [lia|constructor|discriminate].
  - cbn [first_endpoint]. destruct (vtype v) eqn:Hv.
    + exists 0%nat. cbn. unfold is_endpoint. rewrite Hv.
      repeat split; [lia|constructor].
    + destruct rest as [|w rest'].
      * exists 0%nat. cbn. unfold is_endpoint. rewrite Hv. cbn.
        repeat split; [lia|constructor|discriminate].
      * destruct (IH (S k)) as (j & E & Hm & Hs).
        exists (S j). rewrite E. split; [lia|]. split.
        -- cbn [firstn]. constructor; [exact Hv|exact Hm].
        -- cbn [existsb skipn]. unfold is_endpoint at 1. rewrite Hv.
           exact Hs.
Qed.

Lemma expand_cleared_vertex (v : BezierVertex.t) `{Libm} :
  cleared v -> expand v = [v].
Proof.
  destruct v as [ty p hf hr]. unfold cleared. cbn. intros [-> ->].
  reflexivity.
Qed.

Lemma expand_endpoints (v : BezierVertex.t) `{Libm} :
  Forall cleared (expand v)
  /\ filter is_endpoint (expand v)
     = (if is_endpoint v then [clear v] else [])
  /\ length (expand v) = S (handle_count v).
Proof.
  unfold expand, handle_count, is_endpoint, clear.
  destruct (X (handle_rev v) =? 0), (X (handle_fwd v) =? 0);
    cbn; (split; [repeat constructor|split; [|reflexivity]]);
    destruct (vtype v); reflexivity.
Qed.

Lemma expand_all_endpoints (vl : list BezierVertex.t) `{Libm} :
  Forall cleared (expand_all vl)
  /\ filter is_endpoint (expand_all vl)
     = map clear (filter is_endpoint vl)
  /\ length (expand_all vl)
     = (length vl + list_sum (map handle_count vl))%nat.
Proof.
  rewrite expand_all_flat_map.
  induction vl as [|v rest (IH1 & IH2 & IH3)]; cbn [flat_map filter map].
  - repeat split. constructor.
  - destruct (expand_endpoints v) as (E1 & E2 & E3).
    split; [apply Forall_app; split; assumption|]. split.
    + rewrite filter_app, E2, IH2. now destruct (is_endpoint v).
    + rewrite length_app, E3, IH3. unfold list_sum.
      cbn [length map fold_right]. lia.
Qed.

Context {libm : Libm}.

(** [handles] returns a rotation of the expanded list: the midpoints that
    lead the expansion go to its end. *)
Lemma handles_rotation (b : Bezier.t) :
  exists j,
    vlist (handles b)
    = skipn j (expand_all (vlist b)) ++ firstn j (expand_all (vlist b))
    /\ Forall is_midpoint (firstn j (expand_all (vlist b)))
    /\ (existsb is_endpoint (expand_all (vlist b)) = true ->
        starts_with_endpoint (skipn j (expand_all (vlist b))) = true).
Proof.
  unfold handles. cbn [vlist].
  destruct (first_endpoint_spec (expand_all (vlist b)) 0)
    as (j & E & Hm & Hs).
  rewrite E. cbn [Nat.add]. exists j. split; [|split; assumption].
  destruct j; cbn [Nat.eqb]; [|reflexivity].
  cbn [skipn firstn]. now rewrite app_nil_r.
Qed.

Lemma filter_midpoints_nil (vl : list BezierVertex.t) :
  Forall is_midpoint vl -> filter is_endpoint vl = [].
Proof.
  induction 1 as [|v rest Hv _ IH]; [reflexivity|].
  cbn. unfold is_endpoint. rewrite Hv. exact IH.
Qed.

Lemma existsb_filter_endpoint (vl : list BezierVertex.t) :
  existsb is_endpoint vl = true <-> filter is_endpoint vl <> [].
Proof.
  induction vl as [|v rest IH]; cbn.
  - split; [discriminate|congruence].
  - destruct (is_endpoint v); cbn; [split; [discriminate|reflexivity]|exact IH].
Qed.

Lemma handles_shape (b : Bezier.t) :
  closed (handles b) = closed b
  /\ filter is_endpoint (vlist (handles b))
     = map clear (filter is_endpoint (vlist b))
  /\ Forall cleared (vlist (handles b))
  /\ length (vlist (handles b))
     = (length (vlist b) + list_sum (map handle_count (vlist b)))%nat
  /\ (existsb is_endpoint (vlist b) = true ->
      starts_with_endpoint (vlist (handles b)) = true).
Proof.
  split; [reflexivity|].
  destruct (handles_rotation b) as (j & E & Hm & Hs).
  destruct (expand_all_endpoints (vlist b)) as (E1 & E2 & E3).
  set (ex := expand_all (vlist b)) in *.
  assert (Hsplit : ex = firstn j ex ++ skipn j ex)
    by (symmetry; apply firstn_skipn).
  rewrite E. split; [|split; [|split]].
  - rewrite filter_app, (filter_midpoints_nil _ Hm), app_nil_r.
    rewrite <- E2. rewrite Hsplit at 2.
    now rewrite filter_app, (filter_midpoints_nil _ Hm).
  - rewrite Hsplit in E1. apply Forall_app in E1. destruct E1.
    apply Forall_app. now split.
  - rewrite length_app, Nat.add_comm, <- length_app, <- Hsplit. exact E3.
  - intros He.
    assert (He' : existsb is_endpoint ex = true).
    { apply existsb_filter_endpoint. rewrite E2.
      apply existsb_filter_endpoint in He.
      destruct (filter is_endpoint (vlist b)); [congruence|discriminate]. }
    specialize (Hs He').
    destruct (skipn j ex); [discriminate|exact Hs].
Qed.

(** X1.  [handles] keeps the endpoints of the curve, in their order and
    with their handles cleared; it leaves no handle on any vertex; it adds
    one vertex per handle with a non-zero radius; and when the curve has
    an endpoint, the new list starts with an endpoint. *)
Theorem handles_keeps_endpoints (b : Bezier.t) :
  closed (handles b) = closed b
  /\ filter is_endpoint (vlist (handles b))
     = map clear (filter is_endpoint (vlist b))
  /\ Forall cleared (vlist (handles b))
  /\ length (vlist (handles b))
     = (length (vlist b) + list_sum (map handle_count (vlist b)))%nat
  /\ (existsb is_endpoint (vlist b) = true ->
      starts_with_endpoint (vlist (handles b)) = true).
Proof. exact (handles_shape b). Qed.

Lemma closure_shape (b b' : Bezier.t) :
  closure b = Ok b' ->
  closed b' = closed b
  /\ (exists tail, vlist b' = vlist b ++ tail /\ (length tail <= 1)%nat)
  /\ (closed b = true ->
      exists first rest,
        vlist b = first :: rest /\ vtype first = ENDPOINT
        /\ vtype (List.last (vlist b') first) = ENDPOINT
        /\ (List.last (vlist b') first = first
            \/ V2ops.Equals (vertex (List.last (vlist b') first))
                             (vertex first) = true)).
Proof.
  unfold closure. intros H.
  destruct (closed b) eqn:Hc; cbn [negb] in H.
  2:{ injection H as <-. split; [exact Hc|]. split; [|discriminate].
      exists []. rewrite app_nil_r. split; [reflexivity|cbn; lia]. }
  destruct (vlist b) as [|first rest] eqn:Hl; [discriminate|].
  destruct (vtype first) eqn:Hf; [|discriminate].
  assert (Happ : forall c, c = Bezier.mk true ((first :: rest) ++ [first]) ->
            closed c = true
            /\ (exists tail, vlist c = (first :: rest) ++ tail
                             /\ (length tail <= 1)%nat)
            /\ (true = true ->
                exists first0 rest0,
                  first :: rest = first0 :: rest0 /\ vtype first0 = ENDPOINT
                  /\ vtype (List.last (vlist c) first0) = ENDPOINT
                  /\ (List.last (vlist c) first0 = first0
                      \/ V2ops.Equals (vertex (List.last (vlist c) first0))
                                       (vertex first0) = true))).
  { intros c ->. cbn [closed vlist]. split; [reflexivity|]. split.
    - exists [first]. split; [reflexivity|cbn; lia].
    - intros _. exists first, rest. rewrite last_last.
      split; [reflexivity|]. split; [exact Hf|]. split; [exact Hf|now left]. }
  destruct (vtype (List.last (first :: rest) first)) eqn:Hlast.
  - destruct (V2ops.Equals _ _) eqn:He; cbn [negb] in H; injection H as <-.
    + split; [exact Hc|]. split.
      * exists []. rewrite app_nil_r, Hl. split; [reflexivity|cbn; lia].
      * intros _. exists first, rest. rewrite Hl.
        split; [reflexivity|]. split; [exact Hf|]. split; [exact Hlast|].
        now right.
    + now apply Happ.
  - injection H as <-. now apply Happ.
Qed.

(** X2.  When [closure] returns, it has kept the closed flag and the
    vertices of the curve and appended at most one vertex; and for a
    closed curve the list starts with an endpoint and now ends with an
    endpoint that is a copy of the first vertex or has equal
    coordinates: the loop is closed. *)
Theorem closure_closes_the_loop (b b' : Bezier.t) :
  closure b = Ok b' ->
  closed b' = closed b
  /\ (exists tail, vlist b' = vlist b ++ tail /\ (length tail <= 1)%nat)
  /\ (closed b = true ->
      exists first rest,
        vlist b = first :: rest /\ vtype first = ENDPOINT
        /\ vtype (List.last (vlist b') first) = ENDPOINT
        /\ (List.last (vlist b') first = first
            \/ V2ops.Equals (vertex (List.last (vlist b') first))
                             (vertex first) = true)).
Proof. exact (closure_shape b b'). Qed.

Lemma closure_appends_first (b b' : Bezier.t) :
  closure b = Ok b' ->
  vlist b' = vlist b
  \/ exists first rest,
       vlist b = first :: rest /\ vlist b' = vlist b ++ [first].
Proof.
  unfold closure. destruct (negb (closed b)); [intros [= <-]; now left|].
  destruct (vlist b) as [|first rest] eqn:Hl; [discriminate|].
  destruct (vtype first); [|discriminate].
  destruct (vtype (List.last (first :: rest) first)).
  - destruct (negb _); intros [= <-]; cbn [vlist].
    + right. exists first, rest. split; reflexivity.
    + now left.
  - intros [= <-]. cbn [vlist]. right. exists first, rest. split; reflexivity.
Qed.

Lemma validate_ok_inv (b : Bezier.t) :
  validate b = Ok tt ->
  (2 <= length (vlist b))%nat
  /\ starts_with_endpoint (vlist b) = true
  /\ (closed b = false -> ends_with_endpoint (vlist b) = true).
Proof.
  unfold validate.
  destruct (length (vlist b) <? 2)%nat eqn:Hn; [discriminate|].
  apply Nat.ltb_ge in Hn.
  destruct (vlist b) as [|v rest] eqn:Hl; [discriminate|].
  destruct (vtype v) eqn:Hv; [|discriminate].
  intros H. split; [exact Hn|]. split; [cbn; now rewrite Hv|].
  intros Hc. rewrite Hc in H. cbn [negb andb] in H.
  unfold ends_with_endpoint.
  destruct (last_rev_head v rest v) as (w & tl & E & L).
  rewrite E. cbn. rewrite <- L.
  destruct (vtype (List.last (v :: rest) v)); [reflexivity|discriminate].
Qed.

Lemma fixups_shape (b b' : Bezier.t) :
  fixups b = Ok b' ->
  closed b' = closed b
  /\ (2 <= length (vlist b'))%nat
  /\ starts_with_endpoint (vlist b') = true
  /\ ends_with_endpoint (vlist b') = true
  /\ Forall cleared (vlist b').
Proof.
  unfold fixups.
  destruct (closure (handles b)) as [c| |] eqn:Ec; cbn [bind];
    try discriminate.
  destruct (validate c) as [[]| |] eqn:Ev; cbn [bind]; try discriminate.
  intros [= <-].
  destruct (closure_shape _ _ Ec) as (Hc & (tail & Ht & Hlen) & Hcl).
  destruct (validate_ok_inv _ Ev) as (Hn & Hs & He).
  destruct (handles_shape b) as (Hhc & _ & Hclr & _).
  rewrite Hhc in Hc. split; [exact Hc|]. split; [exact Hn|].
  split; [exact Hs|]. split.
  - destruct (closed b) eqn:Hb.
    + rewrite Hhc in Hcl. destruct (Hcl eq_refl) as (f & r & Hl & Hf & Hlast & _).
      unfold ends_with_endpoint.
      destruct (vlist c) as [|v rest] eqn:Hvc; [cbn in Hn; lia|].
      destruct (last_rev_head v rest f) as (w & tl & E & L).
      rewrite E. cbn. rewrite <- L, Hlast. reflexivity.
    + apply He. congruence.
  - destruct (closure_appends_first _ _ Ec) as [->|(f & r & Hl & ->)];
      [exact Hclr|].
    apply Forall_app. split; [exact Hclr|].
    rewrite Hl in Hclr. inversion Hclr. now constructor.
Qed.

(** X3.  When [fixups] returns, the curve has kept its closed flag and
    has at least two vertices, the first and the last of which are
    endpoints, and no vertex carries a handle any more: this is the shape
    of list that the segmentation of [Polygon] works on. *)
Theorem fixups_postcondition (b b' : Bezier.t) :
  fixups b = Ok b' ->
  closed b' = closed b
  /\ (2 <= length (vlist b'))%nat
  /\ starts_with_endpoint (vlist b') = true
  /\ ends_with_endpoint (vlist b') = true
  /\ Forall cleared (vlist b').
Proof. exact (fixups_shape b b'). Qed.

Lemma expand_all_cleared (vl : list BezierVertex.t) :
  Forall cleared vl -> expand_all vl = vl.
Proof.
  rewrite expand_all_flat_map.
  induction 1 as [|v rest Hv _ IH]; [reflexivity|].
  cbn [flat_map]. now rewrite (expand_cleared_vertex v Hv), IH.
Qed.

Lemma fixups_inv (b b' : Bezier.t) :
  fixups b = Ok b' ->
  closure (handles b) = Ok b' /\ validate b' = Ok tt.
Proof.
  unfold fixups.
  destruct (closure (handles b)) as [c| |]; cbn [bind]; try discriminate.
  destruct (validate c) as [[]| |] eqn:Ev; cbn [bind]; try discriminate.
  intros [= <-]. now split.
Qed.

(** X4.  [fixups] can be run again: on an open curve, and on a closed
    curve whose first vertex has coordinates equal to themselves (no
    NaN), a second [fixups] returns the curve of the first unchanged.
    [Polygon] runs [fixups] on the stored curve each time it is called. *)
Theorem fixups_idempotent (b b' : Bezier.t) :
  fixups b = Ok b' ->
  (closed b = false
   \/ forall first rest,
        vlist b' = first :: rest ->
        V2ops.Equals (vertex first) (vertex first) = true) ->
  fixups b' = Ok b'.
Proof.
  intros Hfix Hself.
  destruct (fixups_shape b b' Hfix) as (Hc & Hn & Hs & He & Hclr).
  destruct (fixups_inv b b' Hfix) as [Ec Hval].
  assert (Hh : handles b' = b').
  { unfold handles. rewrite (expand_all_cleared _ Hclr).
    destruct b' as [cl vl]. cbn [vlist closed] in *.
    destruct vl as [|v rest]; [discriminate|].
    cbn in Hs. unfold first_endpoint.
    destruct (vtype v); [reflexivity|discriminate]. }
  assert (Hcl : closure b' = Ok b').
  { destruct (closed b) eqn:Hb.
    2:{ unfold closure. now rewrite Hc. }
    destruct Hself as [Hself|Hself]; [discriminate|].
    destruct (closure_shape _ _ Ec)
      as (_ & (tail & Ht & _) & Hloop).
    destruct Hloop as (f & r & Hlf & Hf & Hlast & Heq); [exact Hb|].
    rewrite Hlf in Ht. cbn [app] in Ht.
    unfold closure. rewrite Hc, Ht. cbn [negb]. rewrite Hf.
    rewrite Ht in Hlast, Heq. rewrite Hlast.
    destruct Heq as [Heq|Heq].
    - rewrite Heq, (Hself f (r ++ tail) Ht). reflexivity.
    - rewrite Heq. reflexivity. }
  unfold fixups. rewrite Hh, Hcl. cbn [bind]. now rewrite Hval.
Qed.

End FixupsMore.

(** * What [handles] returns for a vertex with a handle *)

Section HandlesResult.

Import BezierVertex.
Import Bezier.

Context {libm : Libm}.

Lemma first_endpoint_hit (l1 l2 : list BezierVertex.t) :
  existsb is_endpoint l1 = true ->
  forall k,
    first_endpoint (l1 ++ l2) k = first_endpoint l1 k
    /\ (first_endpoint l1 k < k + length l1)%nat.
Proof.
  induction l1 as [|v rest IH]; [discriminate|].
  intros He k. cbn [existsb] in He. cbn [app first_endpoint length].
  unfold is_endpoint at 1 in He.
  destruct (vtype v); [split; [reflexivity|lia]|].
  cbn [BezierVertexType_eqb orb] in He.
  destruct rest as [|w rest']; [discriminate|].
  destruct (IH He (S k)) as [E L]. cbn [app] in E |- *.
  split; [exact E|cbn [length] in L |- *; lia].
Qed.

Lemma first_endpoint_midpoints (l1 : list BezierVertex.t) (v : BezierVertex.t)
    (l2 : list BezierVertex.t) :
  existsb is_endpoint l1 = false -> vtype v = ENDPOINT ->
  forall k, first_endpoint (l1 ++ v :: l2) k = (k + length l1)%nat.
Proof.
  intros He Hv. induction l1 as [|m rest IH]; intros k.
  - cbn. rewrite Hv. lia.
  - cbn [existsb] in He. apply orb_false_elim in He. destruct He as [Hm Hr].
    cbn [app first_endpoint length]. unfold is_endpoint in Hm.
    destruct (vtype m); [discriminate|].
    destruct (rest ++ v :: l2) as [|w tl] eqn:E.
    + destruct rest; discriminate.
    + rewrite (IH Hr). lia.
Qed.

Lemma existsb_expand_all (vl : list BezierVertex.t) :
  existsb is_endpoint (expand_all vl) = existsb is_endpoint vl.
Proof.
  destruct (expand_all_endpoints vl) as (_ & Hf & _).
  destruct (existsb is_endpoint vl) eqn:E.
  - apply existsb_filter_endpoint. rewrite Hf.
    apply existsb_filter_endpoint in E.
    destruct (filter is_endpoint vl); [congruence|discriminate].
  - apply Bool.not_true_is_false. intros C.
    apply existsb_filter_endpoint in C. apply C. rewrite Hf.
    assert (filter is_endpoint vl = []) as ->; [|reflexivity].
    destruct (filter is_endpoint vl) eqn:F; [reflexivity|exfalso].
    assert (existsb is_endpoint vl = true)
      by (apply existsb_filter_endpoint; rewrite F; discriminate).
    congruence.
Qed.


Lemma Handle_on_endpoint (theta r : float) (v : BezierVertex.t) :
  vtype v = ENDPOINT ->
  Handle theta r r v
  = (BezierVertex.mk ENDPOINT (vertex v) (mkV2 (abs r) theta)
       (mkV2 (abs r) (theta + PI)), Ok tt).
Proof.
  intros Hv. unfold Handle, and_then, HandleFwd, HandleRev, Abs.
  rewrite Hv. cbn. reflexivity.
Qed.

(** The rotation of [handles] on a list whose first endpoint lies in its
    first part [before]. *)
Lemma rotate_within (before rest : list BezierVertex.t) :
  existsb is_endpoint before = true ->
  let l := before ++ rest in
  let j := first_endpoint before 0 in
  (j < length before)%nat
  /\ (if Nat.eqb (first_endpoint l 0) 0 then l
      else skipn (first_endpoint l 0) l ++ firstn (first_endpoint l 0) l)
     = skipn j before ++ rest ++ firstn j before.
Proof.
  intros Hp. cbv zeta.
  destruct (first_endpoint_hit before rest Hp 0%nat) as [-> Hj].
  set (j := first_endpoint before 0) in *. cbn [Nat.add] in Hj.
  split; [exact Hj|].
  destruct (Nat.eqb_spec j 0) as [->|Hj0].
  - rewrite skipn_O, firstn_O. now rewrite app_nil_r.
  - rewrite skipn_app, firstn_app.
    replace (j - length before)%nat with 0%nat by lia.
    rewrite skipn_O, firstn_O. now rewrite app_nil_r, <- !app_assoc.
Qed.

(** The rotation of [handles] on a list that starts with the midpoints
    [lead]: they are moved behind the rest. *)
Lemma rotate_leading (lead : list BezierVertex.t) (E : BezierVertex.t)
    (rest : list BezierVertex.t) :
  existsb is_endpoint lead = false -> vtype E = ENDPOINT ->
  let l := lead ++ E :: rest in
  (if Nat.eqb (first_endpoint l 0) 0 then l
   else skipn (first_endpoint l 0) l ++ firstn (first_endpoint l 0) l)
  = E :: rest ++ lead.
Proof.
  intros Hm HE. cbv zeta.
  rewrite (first_endpoint_midpoints lead E rest Hm HE 0). cbn [Nat.add].
  destruct lead as [|m lead']; [cbn; now rewrite app_nil_r|].
  set (lead := m :: lead') in *.
  replace (Nat.eqb (length lead) 0) with false by reflexivity.
  rewrite skipn_app, firstn_app, Nat.sub_diag, skipn_O, firstn_O.
  rewrite skipn_all2, firstn_all2 by lia.
  now rewrite app_nil_r.
Qed.

(** C8, as amended.  For an endpoint [v] of a curve, between the vertices
    [pre] and [post], an angle [theta] and a radius [r]: [Handle theta r r]
    returns, and [handles] then returns the following list.  When the
    absolute value of [r] is not zero, the endpoint has exactly two
    synthesized midpoints: the midpoint of the forward handle, at the
    polar offset (|r|, theta), immediately after it; and the midpoint of
    the reverse handle, at the polar offset (|r|, theta+PI), immediately
    before it when an endpoint precedes [v] in the curve, and at the very
    end of the list when [v] is the first endpoint, since [handles]
    rotates the list to its first endpoint.  When [r] is a zero, no
    midpoint is synthesized: the endpoint stands alone between the
    expansions of [pre] and of [post], and [handles] returns what it
    returns for the vertex without handles. *)
Theorem handle_expands_to_two_midpoints (theta r : float)
    (v : BezierVertex.t) (pre post : list BezierVertex.t) (cl : bool) :
  vtype v = ENDPOINT ->
  exists v',
    Handle theta r r v = (v', Ok tt)
    /\ let b := Bezier.mk cl (pre ++ v' :: post) in
       let R := plain MIDPOINT
                  (V2ops.Add (PolarToXY (abs r) (theta + PI)) (vertex v)) in
       let E := plain ENDPOINT (vertex v) in
       let F := plain MIDPOINT
                  (V2ops.Add (PolarToXY (abs r) theta) (vertex v)) in
       let before := expand_all pre in
       let after := expand_all post in
       let j := first_endpoint before 0 in
       closed (handles b) = cl
       /\ ((abs r =? 0) = false ->
             (existsb is_endpoint pre = true ->
                (j < length before)%nat
                /\ vlist (handles b)
                   = skipn j before ++ [R; E; F] ++ after ++ firstn j before)
             /\ (existsb is_endpoint pre = false ->
                   vlist (handles b) = [E; F] ++ after ++ before ++ [R]))
       /\ ((abs r =? 0) = true ->
             handles b = handles (Bezier.mk cl (pre ++ E :: post))
             /\ (existsb is_endpoint pre = true ->
                   (j < length before)%nat
                   /\ vlist (handles b)
                      = skipn j before ++ [E] ++ after ++ firstn j before)
             /\ (existsb is_endpoint pre = false ->
                   vlist (handles b) = [E] ++ after ++ before)).
Proof.
  intros Hv.
  set (v' := BezierVertex.mk ENDPOINT (vertex v) (mkV2 (abs r) theta)
               (mkV2 (abs r) (theta + PI))).
  exists v'. split; [now apply Handle_on_endpoint|]. cbv zeta.
  set (R := plain MIDPOINT
              (V2ops.Add (PolarToXY (abs r) (theta + PI)) (vertex v))).
  set (E := plain ENDPOINT (vertex v)).
  set (F := plain MIDPOINT (V2ops.Add (PolarToXY (abs r) theta) (vertex v))).
  assert (Hex : expand_all (pre ++ v' :: post)
                = expand_all pre ++ expand v' ++ expand_all post).
  { change (pre ++ v' :: post) with (pre ++ [v'] ++ post).
    rewrite !expand_all_app. do 2 f_equal.
    all: rewrite expand_all_flat_map; cbn [flat_map]; now rewrite app_nil_r. }
  split; [reflexivity|]. split.
  - intros Hr.
    assert (Hv' : expand v' = [R; E; F]).
    { unfold expand, v'. cbn. now rewrite Hr. }
    unfold handles. cbn [vlist closed]. rewrite Hex, Hv'.
    set (before := expand_all pre). set (after := expand_all post).
    split; intros Hp; rewrite <- (existsb_expand_all pre) in Hp;
      fold before in Hp.
    + destruct (rotate_within before ([R; E; F] ++ after) Hp) as [Hj ->].
      split; [exact Hj|]. now rewrite <- ?app_assoc.
    + assert (Hm : existsb is_endpoint (before ++ [R]) = false).
      { rewrite existsb_app, Hp. reflexivity. }
      change (before ++ [R; E; F] ++ after)
        with (before ++ [R] ++ E :: F :: after).
      rewrite app_assoc.
      rewrite (rotate_leading (before ++ [R]) E (F :: after) Hm eq_refl).
      cbn [app]. reflexivity.
  - intros Hr.
    assert (Hv' : expand v' = [E]).
    { unfold expand, v'. cbn. now rewrite Hr. }
    split; [|unfold handles; cbn [vlist closed]; rewrite Hex, Hv';
             set (before := expand_all pre); set (after := expand_all post);
             split; intros Hp; rewrite <- (existsb_expand_all pre) in Hp;
             fold before in Hp].
    + unfold handles. cbn [vlist closed].
      rewrite Hex, Hv'.
      change (pre ++ E :: post) with (pre ++ [E] ++ post).
      rewrite !expand_all_app.
      replace (expand_all [E]) with [E]; [reflexivity|].
      rewrite expand_all_flat_map. reflexivity.
    + destruct (rotate_within before ([E] ++ after) Hp) as [Hj ->].
      split; [exact Hj|]. now rewrite <- ?app_assoc.
    + change (before ++ [E] ++ after) with (before ++ E :: after).
      rewrite (rotate_leading before E after Hp eq_refl).
      reflexivity.
Qed.

End HandlesResult.

Lemma handle_expands_to_two_midpoints_witness :
  let v := plain ENDPOINT (mkV2 1 2) in
  exists v',
    BezierVertex.Handle 0 3 3 v = (v', Ok tt)
    /\ let b := Bezier.mk false ([endpoint 0 0] ++ v' :: [endpoint 9 9]) in
       let R := plain MIDPOINT
                  (V2ops.Add (@PolarToXY libm_stub (abs 3) (0 + PI))
                     (BezierVertex.vertex v)) in
       let E := plain ENDPOINT (BezierVertex.vertex v) in
       let F := plain MIDPOINT
                  (V2ops.Add (@PolarToXY libm_stub (abs 3) 0)
                     (BezierVertex.vertex v)) in
       let before := @Bezier.expand_all libm_stub [endpoint 0 0] in
       let after := @Bezier.expand_all libm_stub [endpoint 9 9] in
       let j := Bezier.first_endpoint before 0 in
       Bezier.closed (@Bezier.handles libm_stub b) = false
       /\ ((abs 3 =? 0) = false ->
             (existsb is_endpoint [endpoint 0 0] = true ->
                (j < length before)%nat
                /\ Bezier.vlist (@Bezier.handles libm_stub b)
                   = skipn j before ++ [R; E; F] ++ after ++ firstn j before)
             /\ (existsb is_endpoint [endpoint 0 0] = false ->
                   Bezier.vlist (@Bezier.handles libm_stub b)
                   = [E; F] ++ after ++ before ++ [R]))
       /\ ((abs 3 =? 0) = true ->
             @Bezier.handles libm_stub b
             = @Bezier.handles libm_stub
                 (Bezier.mk false ([endpoint 0 0] ++ E :: [endpoint 9 9]))
             /\ (existsb is_endpoint [endpoint 0 0] = true ->
                   (j < length before)%nat
                   /\ Bezier.vlist (@Bezier.handles libm_stub b)
                      = skipn j before ++ [E] ++ after ++ firstn j before)
             /\ (existsb is_endpoint [endpoint 0 0] = false ->
                   Bezier.vlist (@Bezier.handles libm_stub b)
                   = [E] ++ after ++ before)).
Proof.
  intros v.
  exact (@handle_expands_to_two_midpoints libm_stub 0 3 v [endpoint 0 0]
           [endpoint 9 9] false eq_refl).
Defined.

(** C8 as stated fails in two ways.  With the radius 0, [Handle 0.5 0 0]
    on the endpoint (1,2) returns and [handles] yields the endpoints
    alone, with no midpoint before or after (1,2).  With the radius 3 on
    the first vertex of a curve, the midpoint of the reverse handle is not
    immediately before the endpoint: [handles] puts it at the end of the
    list. *)
Lemma handle_midpoints_not_around_endpoint :
  (let v := fst (BezierVertex.Handle 0.5 0 0 (endpoint 1 2)) in
   snd (BezierVertex.Handle 0.5 0 0 (endpoint 1 2)) = Ok tt
   /\ Bezier.vlist
        (@Bezier.handles libm_stub
           (Bezier.mk false [endpoint 0 0; v; endpoint 9 9]))
      = [endpoint 0 0; endpoint 1 2; endpoint 9 9])
  /\ (let v := fst (BezierVertex.Handle 0 3 3 (endpoint 1 2)) in
      snd (BezierVertex.Handle 0 3 3 (endpoint 1 2)) = Ok tt
      /\ Bezier.vlist
           (@Bezier.handles libm_stub (Bezier.mk false [v; endpoint 9 9]))
         = [ endpoint 1 2;
             plain MIDPOINT (V2ops.Add (@PolarToXY libm_stub 3 0) (mkV2 1 2));
             endpoint 9 9;
             plain MIDPOINT
               (V2ops.Add (@PolarToXY libm_stub 3 (0 + PI)) (mkV2 1 2)) ]).
Proof. split; split; reflexivity. Qed.


(** * Further properties of the segmentation and of [Polygon] *)

Section PolygonMore.

Import BezierVertex.
Import Bezier.

(** X5.  [NewBezierSpline] on 2 to 5 points returns a spline whose two
    polynomials have the order "number of points - 1"; on any other number
    of points, none included, it panics with "bad polynomial order" and
    that number minus 1. *)
Theorem NewBezierSpline_arity (p : list V2) :
  ((2 <= length p <= 5)%nat ->
     exists s, BezierSpline.NewBezierSpline p = Ok s
               /\ BezierSpline.order s = (Z.of_nat (length p) - 1)%Z
               /\ BezierPolynomial.n (BezierSpline.py s)
                  = (Z.of_nat (length p) - 1)%Z)
  /\ (~ (2 <= length p <= 5)%nat ->
        BezierSpline.NewBezierSpline p
        = Panic (bad_polynomial_order (Z.of_nat (length p) - 1))).
Proof.
  destruct (NewBezierSpline_order p) as [[Hn (s & E & Ho & Hy)]|[Hn E]].
  - split; [intros _; now exists s|]. intros H. lia.
  - split; [intros H; lia|]. intros _. exact E.
Qed.

Lemma NewBezierSpline_well_formed (p : list V2) (s : BezierSpline.t) :
  BezierSpline.NewBezierSpline p = Ok s -> well_formed s.
Proof.
  intros E.
  destruct (NewBezierSpline_order p) as [[Hn (s' & E' & Ho & Hy)]|[Hn E']];
    rewrite E in E'; [|discriminate].
  injection E' as <-. unfold well_formed. rewrite Ho, Hy. split; [lia|reflexivity].
Qed.

Lemma seg_count (vl : list BezierVertex.t) :
  forall vertices splines out,
    seg vl vertices splines = Ok out ->
    length out = (length splines + length (filter is_endpoint vl))%nat
    /\ (Forall well_formed splines -> Forall well_formed out).
Proof.
  induction vl as [|v rest IH]; intros vertices splines out; cbn [seg filter].
  - intros [= <-]. cbn. split; [lia|auto].
  - unfold is_endpoint at 1. destruct (vtype v) eqn:Hv; cbn [BezierVertexType_eqb].
    + destruct (BezierSpline.NewBezierSpline (vertices ++ [vertex v]))
        as [s| |] eqn:Es; cbn [bind]; try discriminate.
      pose proof (NewBezierSpline_well_formed _ _ Es) as Hw.
      assert (Hs : Forall well_formed splines ->
                   Forall well_formed (splines ++ [s])).
      { intros H. apply Forall_app. split; [exact H|now constructor]. }
      destruct rest as [|w rest'].
      * intros [= <-]. rewrite length_app. cbn. split; [lia|exact Hs].
      * intros H. destruct (IH _ _ _ H) as [Hl Hf].
        rewrite length_app in Hl. cbn [length] in *. split; [lia|auto].
    + intros H. destruct (IH _ _ _ H) as [Hl Hf]. split; [lia|exact Hf].
Qed.

Lemma make_splines_shape (vl : list BezierVertex.t) :
  (vl = [] -> make_splines vl = Ok [])
  /\ (vl <> [] -> starts_with_endpoint vl = false ->
      make_splines vl = Panic bad_vertex_type)
  /\ (forall out,
        starts_with_endpoint vl = true -> make_splines vl = Ok out ->
        S (length out) = length (filter is_endpoint vl)
        /\ Forall well_formed out).
Proof.
  split; [intros ->; reflexivity|]. split.
  - intros Hne Hs. destruct vl as [|v rest]; [congruence|].
    cbn in Hs. unfold make_splines. cbn [length Nat.mul Nat.add splines_loop].
    destruct (vtype v); [discriminate|reflexivity].
  - intros out Hs H. destruct vl as [|v rest]; [discriminate|].
    cbn in Hs. destruct (vtype v) eqn:Hv; [|discriminate].
    rewrite make_splines_seg in H by exact Hv.
    destruct (seg_count _ _ _ _ H) as [Hl Hf].
    cbn [filter]. unfold is_endpoint at 1. rewrite Hv. cbn in *.
    split; [lia|apply Hf; constructor].
Qed.

(** X6.  The segmentation of the empty list returns no spline; a list
    that starts with a midpoint makes it panic with "bad vertex type"; and
    when it returns on a list that starts with an endpoint, it has built
    one spline per endpoint after the first, each with two polynomials of
    one order from 1 to 4. *)
Theorem make_splines_count (vl : list BezierVertex.t) :
  (vl = [] -> make_splines vl = Ok [])
  /\ (vl <> [] -> starts_with_endpoint vl = false ->
      make_splines vl = Panic bad_vertex_type)
  /\ (forall out,
        starts_with_endpoint vl = true -> make_splines vl = Ok out ->
        S (length out) = length (filter is_endpoint vl)
        /\ Forall well_formed out).
Proof. exact (make_splines_shape vl). Qed.

Context {libm : Libm}.

Lemma render_bounds (fuel : nat) (s : BezierSpline.t) (p : list V2) :
  well_formed s -> (1001 <= fuel)%nat ->
  exists pts,
    render fuel s p = Ok (p ++ pts) /\ (2 <= length pts <= 1001)%nat.
Proof.
  intros [Ho Hy] Hf.
  assert (Hs : valid_orders s).
  { split; [exact Ho|]. rewrite Hy. exact Ho. }
  destruct (spline_f0_ok s 1 Hs) as [v1 E1].
  unfold render. destruct (BezierSpline.order s =? 1)%Z.
  - destruct (spline_f0_ok s 0 Hs) as [v0 E0].
    rewrite E0, E1. cbn [bind]. exists [v0; v1]. unfold Polygon_AddV2.
    rewrite <- app_assoc. split; [reflexivity|cbn; lia].
  - destruct (sample_loop_returns s Hs 1000 fuel 0%Z 0 p)
      as (pts & E & Hl & Hhd); [exact loop_invariant_init|lia|lia|].
    destruct (Hhd eq_refl) as (v & rest & _ & ->).
    rewrite E, E1. cbn [bind]. exists ((v :: rest) ++ [v1]).
    unfold Polygon_AddV2. rewrite <- app_assoc. split; [reflexivity|].
    rewrite length_app. cbn [length] in *. lia.
Qed.

Lemma render_all_bounds (fuel : nat) (splines : list BezierSpline.t) :
  Forall well_formed splines -> (1001 <= fuel)%nat ->
  forall p, exists pts,
    render_all fuel splines p = Ok (p ++ pts)
    /\ (2 * length splines <= length pts <= 1001 * length splines)%nat.
Proof.
  intros Hw Hf. induction Hw as [|s rest Hs _ IH]; intros p.
  - exists []. rewrite app_nil_r. split; [reflexivity|cbn; lia].
  - cbn [render_all].
    destruct (render_bounds fuel s p Hs Hf) as (pts1 & E1 & Hl1).
    rewrite E1. cbn [bind].
    destruct (IH (p ++ pts1)) as (pts2 & E2 & Hl2).
    exists (pts1 ++ pts2). rewrite E2, app_assoc. split; [reflexivity|].
    rewrite length_app. cbn [length]. lia.
Qed.

Lemma endpoints_at_both_ends (vl : list BezierVertex.t) :
  (2 <= length vl)%nat -> starts_with_endpoint vl = true ->
  ends_with_endpoint vl = true ->
  (2 <= length (filter is_endpoint vl))%nat.
Proof.
  intros Hn Hs He. destruct vl as [|v rest]; [discriminate|].
  cbn in Hs. cbn [filter]. unfold is_endpoint at 1. rewrite Hs.
  cbn [length]. enough (1 <= length (filter is_endpoint rest))%nat by lia.
  unfold ends_with_endpoint in He. cbn [rev] in He.
  destruct rest as [|w rest']; [cbn in Hn; lia|].
  destruct (last_rev_head w rest' w) as (x & tl & E & L).
  rewrite E in He. cbn in He.
  assert (Hin : In x (w :: rest')).
  { apply in_rev. rewrite E. now left. }
  assert (Hf : In x (filter is_endpoint (w :: rest'))).
  { apply filter_In. split; [exact Hin|exact He]. }
  destruct (filter is_endpoint (w :: rest')); [contradiction|cbn; lia].
Qed.

Lemma Polygon_total (fuel : nat) (b b' : Bezier.t) :
  fixups b = Ok b' -> runs_bounded 3 (vlist b') -> (1001 <= fuel)%nat ->
  exists pts k,
    Bezier.Polygon fuel b = Ok pts
    /\ S k = length (filter is_endpoint (vlist b'))
    /\ (1 <= k)%nat
    /\ (2 * k <= length pts <= 1001 * k)%nat.
Proof.
  intros Hfix Hb Hf.
  destruct (fixups_shape b b' Hfix) as (_ & Hn & Hs & He & _).
  pose proof (endpoints_at_both_ends _ Hn Hs He) as H2.
  destruct (vlist b') as [|v rest] eqn:Hl; [discriminate|].
  assert (Hv : vtype v = ENDPOINT).
  { cbn in Hs. now destruct (vtype v). }
  destruct (seg_bounded_runs rest [vertex v] [])
    as (out & Eo & _);
    [discriminate| |eapply runs_bounded_tail; eassumption|constructor|].
  { intros mids post E' Hm. cbn [length].
    enough (length mids <= 3)%nat by lia.
    apply (Hb [v] mids post); [|exact Hm]. now rewrite E'. }
  rewrite <- make_splines_seg in Eo by exact Hv.
  destruct (proj2 (proj2 (make_splines_shape (v :: rest))) out)
    as [Hc Hw]; [cbn; now rewrite Hv|exact Eo|].
  destruct (render_all_bounds fuel out Hw Hf NewPolygon) as (pts & E & Hlen).
  exists pts, (length out). split.
  - unfold Bezier.Polygon. rewrite Hfix. cbn [bind]. rewrite Hl, Eo.
    cbn [bind]. exact E.
  - split; [exact Hc|]. split; [lia|exact Hlen].
Qed.

(** X7.  [Polygon] returns whenever [fixups] returns and no run of
    consecutive midpoints is longer than 3: it panics nowhere else and
    every sampling loop ends within its 1001 guard evaluations, whatever
    [math.Atan2] computes.  The polygon has between 2 and 1001 points for
    each of the k splines, k >= 1 being the number of endpoints of the
    fixed-up list minus one. *)
Theorem Polygon_returns (fuel : nat) (b b' : Bezier.t) :
  fixups b = Ok b' -> runs_bounded 3 (vlist b') -> (1001 <= fuel)%nat ->
  exists pts k,
    Bezier.Polygon fuel b = Ok pts
    /\ S k = length (filter is_endpoint (vlist b'))
    /\ (1 <= k)%nat
    /\ (2 * k <= length pts <= 1001 * k)%nat.
Proof. exact (Polygon_total fuel b b'). Qed.

End PolygonMore.

(** * Further properties of the sampling loop *)

Section SamplingMore.

Import Rounding.

Local Open Scope Z_scope.

(** The order of two valid positive numbers follows their values. *)
Lemma SFltb_scaled_intro (m1 : positive) (e1 : Z) (m2 : positive) (e2 : Z) :
  valid_binary (S754_finite false m1 e1) = true ->
  valid_binary (S754_finite false m2 e2) = true ->
  scaled m1 e1 < scaled m2 e2 ->
  SFltb (S754_finite false m1 e1) (S754_finite false m2 e2) = true.
Proof.
  intros V1 V2 Hlt. unfold scaled in Hlt.
  destruct (valid_digits _ _ _ V1) as (He1 & Hd1 & Hn1).
  destruct (valid_digits _ _ _ V2) as (He2 & Hd2 & Hn2).
  unfold SFltb, SFcompare.
  destruct (Z.compare_spec e1 e2) as [E|E|E]; [|reflexivity|exfalso].
  - subst e2.
    change (Pos.compare_cont Eq m1 m2) with (Pos.compare m1 m2).
    assert (0 < 2 ^ (e1 + 1074)) by (apply Z.pow_pos_nonneg; lia).
    destruct (Pos.compare_spec m1 m2) as [C|C|C]; [subst; lia|reflexivity|].
    assert (Zpos m2 < Zpos m1) by lia. nia.
  - assert (Hd : Zpos (digits2_pos m1) = 53) by lia.
    apply normal_mantissa in Hd.
    pose proof (digits2_pos_bounds m2) as [_ Bu].
    assert (Hm2 : Zpos m2 < 2 ^ 53).
    { apply Z.lt_le_trans with (1 := Bu). apply Z.pow_le_mono_r; lia. }
    assert (Hp : 0 < 2 ^ (e2 + 1074)) by (apply Z.pow_pos_nonneg; lia).
    assert (Hle : 2 * 2 ^ (e2 + 1074) <= 2 ^ (e1 + 1074)).
    { replace (2 * 2 ^ (e2 + 1074)) with (2 ^ (e2 + 1074 + 1))
        by (rewrite (Z.pow_add_r 2 (e2 + 1074) 1) by lia; lia).
      apply Z.pow_le_mono_r; lia. }
    change (2 ^ 53) with (2 * 2 ^ 52) in Hm2.
    set (P1 := 2 ^ (e1 + 1074)) in *. set (P2 := 2 ^ (e2 + 1074)) in *.
    set (M := 2 ^ 52) in *.
    assert (Zpos m2 * P2 <= 2 * M * P2) by nia.
    assert (M * (2 * P2) <= M * P1) by (apply Z.mul_le_mono_nonneg_l; lia).
    assert (M * P1 <= Zpos m1 * P1) by (apply Z.mul_le_mono_nonneg_r; lia).
    lia.
Qed.

Lemma SFltb_finite_intro (m1 : positive) (e1 : Z) (m2 : positive) (e2 : Z) :
  e1 < e2 \/ (e1 = e2 /\ Zpos m1 < Zpos m2) ->
  SFltb (S754_finite false m1 e1) (S754_finite false m2 e2) = true.
Proof.
  intros H. unfold SFltb, SFcompare.
  destruct (Z.compare_spec e1 e2) as [E|E|E]; try reflexivity; try lia.
  change (Pos.compare_cont Eq m1 m2) with (Pos.compare m1 m2).
  destruct (Pos.compare_spec m1 m2) as [C|C|C]; try reflexivity; lia.
Qed.

(** A number below 1 is below every positive number that is not. *)
Lemma SFltb_through_one (m1 : positive) (e1 : Z) (m2 : positive) (e2 : Z) :
  SFltb (S754_finite false m1 e1) SFone = true ->
  SFltb (S754_finite false m2 e2) SFone = false ->
  SFltb (S754_finite false m1 e1) (S754_finite false m2 e2) = true.
Proof.
  unfold SFone. intros H1 H2. apply SFltb_finite_inv in H1.
  apply SFltb_finite_intro.
  destruct (Z_lt_le_dec e2 (-52)) as [L|L].
  - rewrite SFltb_finite_intro in H2; [discriminate|left; exact L].
  - destruct (Z.eq_dec e2 (-52)) as [E|E]; [|lia].
    destruct (Z_lt_le_dec (Zpos m2) (Zpos 4503599627370496)) as [M|M].
    + rewrite SFltb_finite_intro in H2;
        [discriminate|right; split; [exact E|exact M]].
    + destruct H1 as [H1|[H1 H1']]; [left; lia|right].
      split; [lia|]. eapply Z.lt_le_trans; [exact H1'|exact M].
Qed.

(** X8.  In the sampling loop the parameter strictly increases: from a
    [t] with [0 <= t < 1] the next value of [t] is greater than [t],
    whatever the change of slope [dtheta = Abs x] is, a NaN included.  So
    the points of a spline are sampled in the order of the curve. *)
Theorem sampling_parameter_increases (t x : float) :
  (0 <=? t)%float = true -> (t <? 1)%float = true ->
  (t <? Bezier.next_t t (Abs x))%float = true.
Proof.
  intros H0 Hlt.
  assert (Hn : nonneg t).
  { unfold nonneg. rewrite FloatAxioms.leb_spec in H0.
    change (Prim2SF 0) with (S754_zero false) in H0.
    destruct (Prim2SF t) as [s|[]| |[] m e]; try exact I; discriminate. }
  destruct (next_t_step t x) as (step & -> & Hs & _).
  destruct (add_step_progress t step Hn Hlt Hs) as [Hn' Hp].
  pose proof (val_below_one t Hn Hlt) as Hv.
  assert (Hu : 2 ^ 1021 < dtmin_units).
  { pose proof thousand_steps.
    assert (0 < 2 ^ 1074) by (apply Z.pow_pos_nonneg; lia). lia. }
  assert (Hinc : (t + step <? 1)%float = true -> val t < val (t + step)).
  { intros H. specialize (Hp H). lia. }
  clear Hp Hu H0 Hs.
  pose proof (Prim2SF_valid t) as Vt.
  pose proof (Prim2SF_valid (t + step)) as Vr.
  rewrite FloatAxioms.ltb_spec.
  unfold nonneg, val in *.
  rewrite FloatAxioms.ltb_spec, one_spec in Hlt, Hinc.
  destruct (Prim2SF (t + step)) as [s|[]| |[] m e];
    try contradiction.
  - (* the sum is a zero: it is below 1 and not above [t] *)
    specialize (Hinc eq_refl).
    destruct (Prim2SF t) as [s'|[]| |[] m' e']; try contradiction;
      try discriminate; exfalso; clear Hlt Vt Vr; lia.
  - (* the sum is infinite *)
    destruct (Prim2SF t) as [s'|[]| |[] m' e'];
      try contradiction; try discriminate; reflexivity.
  - destruct (Prim2SF t) as [s'|[]| |[] m' e'];
      try contradiction; try discriminate; [reflexivity|].
    destruct (SFltb (S754_finite false m e) SFone) eqn:Hr.
    + apply SFltb_scaled_intro; [exact Vt|exact Vr|exact (Hinc eq_refl)].
    + now apply SFltb_through_one.
Qed.

Local Close Scope Z_scope.

(** X9.  When the slope computed at [t = 0] and at [t = dtmin] is the
    same number, the first step of the sampling loop is infinite: a
    spline of order 2 to 4 is rendered as the two points [f0(0)] and
    [f0(1)] only, whatever its shape after [dtmin] is. *)
Theorem straight_start_renders_chord `{Libm} (fuel : nat)
    (s : BezierSpline.t) (p : list V2) (a0 a1 : float) :
  (2 <= BezierPolynomial.n (BezierSpline.px s) <= 4)%Z ->
  (2 <= BezierPolynomial.n (BezierSpline.py s) <= 4)%Z ->
  (2 <= fuel)%nat ->
  BezierSpline.slope s (0 + Bezier.dtmin) = Ok a1 ->
  BezierSpline.slope s 0 = Ok a0 ->
  (Abs (a1 - a0) =? 0)%float = true ->
  exists v0 v1,
    BezierSpline.f0 s 0 = Ok v0 /\ BezierSpline.f0 s 1 = Ok v1
    /\ Bezier.render fuel s p = Ok (p ++ [v0; v1]).
Proof.
  intros Hx Hy Hf E1 E0 Hz.
  assert (Hs : valid_orders s) by (split; lia).
  destruct (spline_f0_ok s 0 Hs) as [v0 Ev0].
  destruct (spline_f0_ok s 1 Hs) as [v1 Ev1].
  exists v0, v1. split; [exact Ev0|]. split; [exact Ev1|].
  unfold Bezier.render, BezierSpline.order.
  destruct (Z.eqb_spec (BezierPolynomial.n (BezierSpline.px s)) 1); [lia|].
  destruct fuel as [|[|fuel]]; try lia.
  cbn [Bezier.sample_loop].
  change (0 <? 1)%float with true. cbv iota.
  rewrite Ev0, E1, E0. cbn [bind].
  destruct (next_t_step 0 (a1 - a0)) as (_ & _ & _ & Hstop).
  rewrite (Hstop Hz). cbn [bind]. rewrite Ev1. cbn [bind].
  unfold Polygon_AddV2. now rewrite <- app_assoc.
Qed.

End SamplingMore.

(** * Curves of endpoints *)

Section CurvesOfEndpoints.

Import BezierVertex.
Import Bezier.

Lemma run_check_mids (k : nat) (mids : list BezierVertex.t) :
  forall c post,
    Forall is_midpoint mids -> mids <> [] ->
    run_check k c (mids ++ post) = true -> (c + length mids <= k)%nat.
Proof.
  induction mids as [|m ms IH]; intros c post Hm Hne H; [congruence|].
  inversion Hm as [|? ? Hv Hms]; subst. cbn [app run_check] in H.
  rewrite Hv in H. apply andb_prop in H. destruct H as [H1 H2].
  apply Nat.leb_le in H1. destruct ms as [|m' ms'].
  - cbn. lia.
  - specialize (IH (S c) post Hms ltac:(discriminate) H2).
    cbn [length] in *. lia.
Qed.

Lemma run_check_skip (k : nat) (pre : list BezierVertex.t) :
  forall c rest,
    run_check k c (pre ++ rest) = true ->
    exists c', run_check k c' rest = true.
Proof.
  induction pre as [|v pre' IH]; intros c rest H.
  - now exists c.
  - cbn [app run_check] in H. destruct (vtype v).
    + exact (IH _ _ H).
    + apply andb_prop in H. exact (IH _ _ (proj2 H)).
Qed.

Lemma run_check_sound (k c : nat) (vl : list BezierVertex.t) :
  run_check k c vl = true -> runs_bounded k vl.
Proof.
  intros H pre mids post E Hm. subst vl.
  destruct (run_check_skip _ _ _ _ H) as [c' H'].
  destruct mids as [|m ms]; [cbn; lia|].
  pose proof (run_check_mids k (m :: ms) c' post Hm ltac:(discriminate) H').
  lia.
Qed.

Lemma runs_bounded_weaken (j k : nat) (vl : list BezierVertex.t) :
  (j <= k)%nat -> runs_bounded j vl -> runs_bounded k vl.
Proof.
  intros Hjk H pre mids post E Hm. specialize (H pre mids post E Hm). lia.
Qed.

Lemma run_check_app_endpoint (k : nat) (vl : list BezierVertex.t)
    (z : BezierVertex.t) :
  vtype z = ENDPOINT ->
  forall c, run_check k c (vl ++ [z]) = run_check k c vl.
Proof.
  intros Hz. induction vl as [|v rest IH]; intros c; cbn [app run_check].
  - now rewrite Hz.
  - destruct (vtype v); now rewrite IH.
Qed.

Context {libm : Libm}.

(** An endpoint contributes itself and at most one midpoint on each
    side. *)
Lemma expand_endpoint (v : BezierVertex.t) :
  vtype v = ENDPOINT ->
  exists R F,
    expand v = R ++ clear v :: F
    /\ Forall is_midpoint R /\ (length R <= 1)%nat
    /\ Forall is_midpoint F /\ (length F <= 1)%nat.
Proof.
  intros Hv. unfold expand, clear.
  destruct (X (handle_rev v) =? 0); destruct (X (handle_fwd v) =? 0).
  - exists [], []. cbn. repeat split; auto.
  - eexists [], [_]. cbn. repeat split; auto. repeat constructor.
  - eexists [_], []. cbn. repeat split; auto. repeat constructor.
  - eexists [_], [_]. cbn. repeat split; auto; repeat constructor.
Qed.

Lemma run_check_short_run (M rest : list BezierVertex.t) (c : nat) :
  Forall is_midpoint M -> (length M <= 1)%nat -> (c <= 1)%nat ->
  run_check 2 c (M ++ rest) = run_check 2 (c + length M) rest.
Proof.
  intros HM Hl Hc. destruct M as [|m [|m' M']]; [| |cbn in Hl; lia].
  - cbn [app length]. now rewrite Nat.add_0_r.
  - inversion HM as [|? ? Hm _]; subst.
    cbn [app run_check length]. rewrite Hm, Nat.add_1_r.
    destruct c as [|[|c]]; [reflexivity|reflexivity|lia].
Qed.

Lemma run_check_from_endpoint (v : BezierVertex.t)
    (rest : list BezierVertex.t) (c : nat) :
  vtype v = ENDPOINT -> run_check 2 c (v :: rest) = run_check 2 0 rest.
Proof. intros Hv. cbn [run_check]. now rewrite Hv. Qed.

Lemma run_check_expand_all (tl : list BezierVertex.t) :
  forallb is_endpoint tl = true ->
  forall c tail,
    (c <= 1)%nat ->
    (forall c', (c' <= 1)%nat -> run_check 2 c' tail = true) ->
    run_check 2 c (flat_map expand tl ++ tail) = true.
Proof.
  induction tl as [|v rest IH]; intros Hall c tail Hc Ht.
  - cbn. now apply Ht.
  - cbn [forallb] in Hall. apply andb_prop in Hall. destruct Hall as [Hv Hr].
    assert (Hv' : vtype v = ENDPOINT).
    { unfold is_endpoint in Hv. now destruct (vtype v). }
    destruct (expand_endpoint v Hv') as (R & F & E & HR & LR & HF & LF).
    cbn [flat_map]. rewrite E, <- !app_assoc. cbn [app].
    rewrite (run_check_short_run R _ c HR LR Hc).
    rewrite run_check_from_endpoint by exact Hv'.
    rewrite (run_check_short_run F _ 0%nat HF LF) by lia.
    apply IH; [exact Hr|lia|exact Ht].
Qed.

(** The new list of a curve of endpoints: the midpoint of the first
    vertex's reverse handle has moved to the end. *)
Lemma handles_of_endpoints (b : Bezier.t) (v : BezierVertex.t)
    (tl : list BezierVertex.t) :
  vlist b = v :: tl -> vtype v = ENDPOINT ->
  exists R F,
    vlist (handles b) = clear v :: F ++ flat_map expand tl ++ R
    /\ Forall is_midpoint R /\ (length R <= 1)%nat
    /\ Forall is_midpoint F /\ (length F <= 1)%nat.
Proof.
  intros Hl Hv. unfold handles. rewrite Hl, expand_all_flat_map.
  cbn [flat_map vlist].
  destruct (expand_endpoint v Hv) as (R & F & E & HR & LR & HF & LF).
  rewrite E. exists R, F.
  split; [|repeat split; assumption].
  destruct R as [|m [|m' R']]; [| |cbn in LR; lia].
  - cbn [app first_endpoint]. change (vtype (clear v)) with (vtype v).
    rewrite Hv. cbn [Nat.eqb vlist]. now rewrite app_nil_r.
  - inversion HR as [|? ? Hm _]; subst.
    cbn [app first_endpoint]. rewrite Hm.
    change (vtype (clear v)) with (vtype v). rewrite Hv.
    cbn [Nat.eqb skipn firstn app vlist]. now rewrite <- app_assoc.
Qed.

Lemma forallb_is_endpoint (vl : list BezierVertex.t) (v : BezierVertex.t) :
  forallb is_endpoint vl = true -> In v vl -> vtype v = ENDPOINT.
Proof.
  intros H Hin. rewrite forallb_forall in H. specialize (H v Hin).
  unfold is_endpoint in H. now destruct (vtype v).
Qed.

(** X10.  A curve whose vertices are all endpoints, with or without
    handles, has after [fixups] no run of more than 2 midpoints: every
    spline has 4 control points at most, and [Polygon] returns whenever
    [fixups] does. *)
Theorem endpoints_with_handles_flatten (fuel : nat) (b b' : Bezier.t) :
  forallb is_endpoint (vlist b) = true -> fixups b = Ok b' ->
  (1001 <= fuel)%nat ->
  runs_bounded 2 (vlist b')
  /\ exists pts,
       Bezier.Polygon fuel b = Ok pts /\ (2 <= length pts)%nat.
Proof.
  intros Hall Hfix Hf.
  assert (Hb : run_check 2 0 (vlist b') = true).
  { destruct (fixups_inv b b' Hfix) as [Hc Hval].
    destruct (fixups_shape b b' Hfix) as (_ & Hn & _).
    destruct (vlist b) as [|v tl] eqn:Hl.
    - (* no vertex: [fixups] does not return *)
      exfalso. assert (Hh : vlist (handles b) = []).
      { unfold handles. now rewrite Hl. }
      destruct (closure_appends_first _ _ Hc) as [E|(f & r & E & _)];
        rewrite Hh in E; [|discriminate].
      rewrite E in Hn. cbn in Hn. lia.
    - assert (Hv : vtype v = ENDPOINT).
      { apply (forallb_is_endpoint _ _ Hall). now left. }
      cbn [forallb] in Hall. apply andb_prop in Hall.
      destruct Hall as [_ Htl].
      destruct (handles_of_endpoints b v tl Hl Hv)
        as (R & F & E & HR & LR & HF & LF).
      assert (Hrun : forall Z, Z = [] \/ Z = [clear v] ->
                run_check 2 0 ((clear v :: F ++ flat_map expand tl ++ R) ++ Z)
                = true).
      { intros Z HZ. cbn [app]. rewrite run_check_from_endpoint by exact Hv.
        rewrite <- !app_assoc.
        rewrite (run_check_short_run F _ 0%nat HF LF) by lia.
        apply run_check_expand_all; [exact Htl|lia|].
        intros c' Hc'. rewrite (run_check_short_run R Z c' HR LR Hc').
        destruct HZ as [->| ->]; [reflexivity|].
        cbn [run_check clear vtype]. now rewrite Hv. }
      destruct (closure_appends_first _ _ Hc) as [Eq|(f & r & Ef & Eq)];
        rewrite Eq, E.
      + rewrite <- (app_nil_r (clear v :: _)). apply Hrun. now left.
      + rewrite E in Ef. injection Ef as <- _. apply Hrun. now right. }
  pose proof (run_check_sound _ _ _ Hb) as H2.
  split; [exact H2|].
  destruct (Polygon_total fuel b b' Hfix) as (pts & k & E & _ & Hk & Hlen);
    [apply (runs_bounded_weaken 2 3); [lia|exact H2]|exact Hf|].
  exists pts. split; [exact E|lia].
Qed.

End CurvesOfEndpoints.

(** * Polylines *)

Section Polylines.

Import BezierVertex.
Import Bezier.

Context {libm : Libm}.

Lemma seg_polyline (vl : list BezierVertex.t) :
  forallb is_endpoint vl = true ->
  forall p splines,
    exists out,
      seg vl [p] splines = Ok (splines ++ out)
      /\ length out = length vl
      /\ Forall (fun s => BezierSpline.order s = 1%Z /\ well_formed s) out.
Proof.
  induction vl as [|v rest IH]; intros Hall p splines.
  - exists []. rewrite app_nil_r. repeat split. constructor.
  - assert (Hv : vtype v = ENDPOINT).
    { apply (forallb_is_endpoint _ _ Hall). now left. }
    cbn [forallb] in Hall. apply andb_prop in Hall. destruct Hall as [_ Hr].
    cbn [seg]. rewrite Hv.
    destruct (NewBezierSpline_order ([p] ++ [vertex v]))
      as [[Hn (s & E & Ho & Hy)]|[Hn E]]; [|cbn in Hn; lia].
    rewrite E. cbn [bind]. cbn in Ho, Hy.
    assert (Hs : BezierSpline.order s = 1%Z /\ well_formed s).
    { unfold well_formed. rewrite Ho, Hy. repeat split; lia. }
    destruct rest as [|w rest'].
    + exists [s]. repeat split. now constructor.
    + destruct (IH Hr (vertex v) (splines ++ [s])) as (out & Eo & Hl & Hf).
      exists (s :: out). rewrite Eo, <- app_assoc.
      split; [reflexivity|]. split; [cbn [length] in *; lia|].
      now constructor.
Qed.

Lemma render_all_linear (fuel : nat) (splines : list BezierSpline.t) :
  Forall (fun s => BezierSpline.order s = 1%Z /\ well_formed s) splines ->
  forall p, exists pts,
    render_all fuel splines p = Ok (p ++ pts)
    /\ length pts = (2 * length splines)%nat.
Proof.
  intros Hw. induction Hw as [|s rest [Ho [Hr Hy]] _ IH]; intros p.
  - exists []. rewrite app_nil_r. split; reflexivity.
  - assert (Hs : valid_orders s).
    { split; [exact Hr|]. rewrite Hy. exact Hr. }
    destruct (spline_f0_ok s 0 Hs) as [v0 E0].
    destruct (spline_f0_ok s 1 Hs) as [v1 E1].
    cbn [render_all]. unfold render. rewrite Ho. cbn [Z.eqb Pos.eqb].
    rewrite E0, E1. cbn [bind]. unfold Polygon_AddV2.
    destruct (IH ((p ++ [v0]) ++ [v1])) as (pts & E & Hl).
    exists (v0 :: v1 :: pts). rewrite E, <- !app_assoc.
    split; [reflexivity|]. cbn [length] in *. lia.
Qed.

Lemma first_endpoint_of_endpoints (vl : list BezierVertex.t) :
  forallb is_endpoint vl = true -> first_endpoint vl 0 = 0%nat.
Proof.
  destruct vl as [|v rest]; [reflexivity|]. intros Hall.
  cbn [first_endpoint].
  rewrite (forallb_is_endpoint _ v Hall) by now left. reflexivity.
Qed.

Lemma polyline_total (fuel : nat) (b b' : Bezier.t) :
  forallb is_endpoint (vlist b) = true -> Forall cleared (vlist b) ->
  fixups b = Ok b' ->
  (vlist b' = vlist b
   \/ exists first rest,
        vlist b = first :: rest /\ vlist b' = vlist b ++ [first])
  /\ exists pts,
       Bezier.Polygon fuel b = Ok pts
       /\ length pts = (2 * (length (vlist b') - 1))%nat.
Proof.
  intros Hall Hclr Hfix.
  destruct (fixups_inv b b' Hfix) as [Hc _].
  destruct (fixups_shape b b' Hfix) as (_ & Hn & _).
  assert (Hh : vlist (handles b) = vlist b).
  { unfold handles. rewrite (expand_all_cleared _ Hclr).
    now rewrite (first_endpoint_of_endpoints _ Hall). }
  pose proof (closure_appends_first _ _ Hc) as Hshape.
  rewrite Hh in Hshape. split; [exact Hshape|].
  assert (Hall' : forallb is_endpoint (vlist b') = true).
  { destruct Hshape as [->|(f & r & Ef & ->)]; [exact Hall|].
    rewrite forallb_app, Hall. rewrite Ef in Hall. cbn [forallb] in *.
    apply andb_prop in Hall. now rewrite (proj1 Hall). }
  unfold Bezier.Polygon. rewrite Hfix. cbn [bind].
  destruct (vlist b') as [|v rest] eqn:Hl; [cbn in Hn; lia|].
  rewrite make_splines_seg
    by (apply (forallb_is_endpoint _ _ Hall'); now left).
  cbn [forallb] in Hall'. apply andb_prop in Hall'.
  destruct (seg_polyline rest (proj2 Hall') (vertex v) [])
    as (out & -> & Hlen & Hlin).
  cbn [app bind].
  destruct (render_all_linear fuel out Hlin NewPolygon) as (pts & E & Hp).
  exists pts. split; [exact E|]. cbn [length]. lia.
Qed.

(** X11.  A curve of endpoints without handles is a polyline: [fixups]
    changes nothing but, for a closed curve, the copy of the first vertex
    that it may add; every spline is linear and [Polygon] returns two
    points for each pair of neighbours, with no sampling loop, so with
    any bound on the loop's iterations. *)
Theorem polyline_flattens (fuel : nat) (b b' : Bezier.t) :
  forallb is_endpoint (vlist b) = true -> Forall cleared (vlist b) ->
  fixups b = Ok b' ->
  (vlist b' = vlist b
   \/ exists first rest,
        vlist b = first :: rest /\ vlist b' = vlist b ++ [first])
  /\ exists pts,
       Bezier.Polygon fuel b = Ok pts
       /\ length pts = (2 * (length (vlist b') - 1))%nat.
Proof. exact (polyline_total fuel b b'). Qed.

Lemma polyline_vlist (ps : list V2) :
  closed (polyline ps) = false
  /\ vlist (polyline ps) = map (plain ENDPOINT) ps.
Proof.
  unfold polyline.
  enough (G : forall b,
             closed (fold_left (fun b p => AddV2 p b) ps b) = closed b
             /\ vlist (fold_left (fun b p => AddV2 p b) ps b)
                = vlist b ++ map (plain ENDPOINT) ps) by apply G.
  induction ps as [|p rest IH]; intros b; cbn [fold_left map].
  - now rewrite app_nil_r.
  - destruct (IH (AddV2 p b)) as [-> ->]. cbn [AddV2 closed vlist].
    now rewrite <- app_assoc.
Qed.

Lemma plain_endpoints (ps : list V2) :
  forallb is_endpoint (map (plain ENDPOINT) ps) = true
  /\ Forall cleared (map (plain ENDPOINT) ps).
Proof.
  induction ps as [|p rest [IH1 IH2]]; cbn [map forallb].
  - split; [reflexivity|constructor].
  - split; [exact IH1|]. constructor; [split; reflexivity|exact IH2].
Qed.

Lemma last_map_vertex (ps : list V2) (d : V2) :
  vertex (List.last (map (plain ENDPOINT) ps) (plain ENDPOINT d))
  = List.last ps d.
Proof.
  induction ps as [|p [|q rest] IH]; try reflexivity.
  cbn [map List.last] in *. exact IH.
Qed.

Lemma last_default (ps : list V2) (p d d' : V2) :
  List.last (p :: ps) d = List.last (p :: ps) d'.
Proof.
  revert p. induction ps as [|q rest IH]; intros p; [reflexivity|].
  cbn [List.last] in *. apply IH.
Qed.

Lemma last_is_endpoint (vl : list BezierVertex.t) (d : BezierVertex.t) :
  forallb is_endpoint vl = true -> vtype d = ENDPOINT ->
  vtype (List.last vl d) = ENDPOINT.
Proof.
  intros Hall Hd. destruct vl as [|v rest]; [exact Hd|].
  destruct (last_rev_head v rest d) as (w & tl & E & ->).
  apply (forallb_is_endpoint _ _ Hall), in_rev. rewrite E. now left.
Qed.

(** [fixups] of a curve of at least two endpoints without handles. *)
Lemma fixups_of_polyline (b : Bezier.t) (first : BezierVertex.t)
    (rest : list BezierVertex.t) :
  vlist b = first :: rest -> rest <> [] ->
  forallb is_endpoint (vlist b) = true -> Forall cleared (vlist b) ->
  fixups b
  = Ok (Bezier.mk (closed b)
          (vlist b
           ++ (if closed b
                  && negb (V2ops.Equals (vertex (List.last (vlist b) first))
                             (vertex first))
               then [first] else []))).
Proof.
  intros Hl Hne Hall Hclr.
  assert (Hh : handles b = Bezier.mk (closed b) (vlist b)).
  { unfold handles. rewrite (expand_all_cleared _ Hclr).
    now rewrite (first_endpoint_of_endpoints _ Hall). }
  assert (Hf : vtype first = ENDPOINT).
  { apply (forallb_is_endpoint _ _ Hall). rewrite Hl. now left. }
  pose proof (last_is_endpoint _ first Hall Hf) as Hlast.
  assert (Hlen : (length (vlist b) <? 2)%nat = false).
  { rewrite Hl. destruct rest; [congruence|reflexivity]. }
  unfold fixups. rewrite Hh. unfold closure. cbn [closed vlist].
  destruct (closed b) eqn:Hc; cbn [negb andb bind].
  - rewrite Hl at 1. rewrite Hf, Hlast.
    destruct (negb (V2ops.Equals _ _)); cbn [bind].
    + unfold validate. cbn [vlist closed]. rewrite length_app.
      replace (length (vlist b) + length [first] <? 2)%nat with false
        by (symmetry; apply Nat.ltb_ge; apply Nat.ltb_ge in Hlen;
            cbn; lia).
      rewrite Hl at 1. cbn [app]. rewrite Hf. reflexivity.
    + unfold validate. cbn [vlist closed]. rewrite app_nil_r, Hlen.
      rewrite Hl at 1. rewrite Hf. reflexivity.
  - unfold validate. cbn [vlist closed]. rewrite app_nil_r, Hlen.
    rewrite Hl at 1. rewrite Hf, Hlast. reflexivity.
Qed.

(** X12.  The curve built by [NewBezier] and one [AddV2] for each of at
    least two points flattens to two points for each pair of neighbours.
    After [Close] it flattens to the same number of points when the last
    point equals the first, and to two more when it does not: the closing
    segment. *)
Theorem added_points_flatten (fuel : nat) (ps : list V2) (d : V2) :
  (2 <= length ps)%nat ->
  (exists pts,
      Bezier.Polygon fuel (polyline ps) = Ok pts
      /\ length pts = (2 * (length ps - 1))%nat)
  /\ (exists pts,
        Bezier.Polygon fuel (Close (polyline ps)) = Ok pts
        /\ length pts
           = (if V2ops.Equals (List.last ps d) (hd d ps)
              then 2 * (length ps - 1) else 2 * length ps)%nat).
Proof.
  intros Hn. destruct (polyline_vlist ps) as [Hc Hv].
  destruct (plain_endpoints ps) as [Hall Hclr].
  destruct ps as [|p [|q ps']]; try (cbn in Hn; lia).
  set (ps := p :: q :: ps') in *.
  assert (Hd : List.last ps d = List.last ps p) by apply last_default.
  split.
  - pose proof (fixups_of_polyline (polyline ps) (plain ENDPOINT p)
                  (map (plain ENDPOINT) (q :: ps'))) as Hfix.
    rewrite Hv, Hc in Hfix. cbn [andb] in Hfix. rewrite app_nil_r in Hfix.
    specialize (Hfix eq_refl ltac:(discriminate) Hall Hclr).
    destruct (polyline_total fuel (polyline ps) _
                ltac:(rewrite Hv; exact Hall) ltac:(rewrite Hv; exact Hclr)
                Hfix) as (_ & pts & E & Hl).
    exists pts. split; [exact E|]. rewrite Hl. cbn [vlist].
    now rewrite length_map.
  - pose proof (fixups_of_polyline (Close (polyline ps)) (plain ENDPOINT p)
                  (map (plain ENDPOINT) (q :: ps'))) as Hfix.
    cbn [Close vlist closed andb] in Hfix. rewrite Hv in Hfix.
    specialize (Hfix eq_refl ltac:(discriminate) Hall Hclr).
    rewrite (last_map_vertex ps p) in Hfix.
    destruct (polyline_total fuel (Close (polyline ps)) _
                ltac:(cbn [Close vlist]; rewrite Hv; exact Hall)
                ltac:(cbn [Close vlist]; rewrite Hv; exact Hclr)
                Hfix) as (_ & pts & E & Hl).
    exists pts. split; [exact E|]. rewrite Hl. cbn [vlist].
    rewrite Hd. change (hd d ps) with p.
    change (vertex (plain ENDPOINT p)) with p.
    destruct (V2ops.Equals (List.last ps p) p); cbn [negb];
      rewrite length_app, length_map; cbn [length]; lia.
Qed.

End Polylines.

(** * The rate of change of the slope *)

Section SlopeRate.

Lemma is_zero_mul_zero (y : float) : finite y = true -> is_zero (y * 0).
Proof.
  unfold finite, is_zero. intros H. rewrite mul_spec.
  change (Prim2SF 0) with (S754_zero false).
  destruct (Prim2SF y) as [s|s| |s m e]; try discriminate;
    eexists; reflexivity.
Qed.

Lemma is_zero_sub (x y : float) : is_zero x -> is_zero y -> is_zero (x - y).
Proof.
  unfold is_zero. intros [sx Hx] [sy Hy]. rewrite sub_spec, Hx, Hy.
  destruct sx, sy; eexists; reflexivity.
Qed.

Lemma is_zero_div (x y : float) :
  is_zero x -> finite y = true -> (y =? 0) = false -> is_zero (x / y).
Proof.
  unfold is_zero, finite. intros [sx Hx] Hy Hnz.
  rewrite FloatAxioms.eqb_spec in Hnz.
  change (Prim2SF 0) with (S754_zero false) in Hnz.
  rewrite div_spec, Hx.
  destruct (Prim2SF y) as [s|s| |s m e]; try discriminate;
    eexists; reflexivity.
Qed.

Lemma is_zero_mul (x y : float) :
  is_zero x -> finite y = true -> is_zero (x * y).
Proof.
  unfold is_zero, finite. intros [sx Hx] Hy. rewrite mul_spec, Hx.
  destruct (Prim2SF y) as [s|s| |s m e]; try discriminate;
    eexists; reflexivity.
Qed.

(** X13.  [m1] on a linear spline with finite coefficients: when the x
    polynomial is constant (a vertical line, or a single point) it returns
    0 and the error "inf"; otherwise it returns a zero and no error.  It
    never panics on a spline with two polynomials of order 1. *)
Theorem m1_of_a_line (s : BezierSpline.t) (t : float) :
  BezierSpline.order s = 1%Z ->
  BezierPolynomial.n (BezierSpline.py s) = 1%Z ->
  finite (BezierPolynomial.b (BezierSpline.px s)) = true ->
  finite (BezierPolynomial.b (BezierSpline.py s)) = true ->
  ((BezierPolynomial.b (BezierSpline.px s) =? 0) = true ->
     BezierSpline.m1 s t = Ok (0, Some BezierSpline.Errorf_inf))
  /\ ((BezierPolynomial.b (BezierSpline.px s) =? 0) = false ->
      exists r, BezierSpline.m1 s t = Ok (r, None) /\ is_zero r).
Proof.
  unfold BezierSpline.order. intros Hx Hy Fx Fy.
  unfold BezierSpline.m1, BezierPolynomial.f1, BezierPolynomial.f2.
  rewrite Hx, Hy. cbn [bind].
  split; intros Hz; rewrite Hz; [reflexivity|].
  eexists. split; [reflexivity|].
  apply is_zero_mul; [|exact Fx].
  apply is_zero_div; [|exact Fx|exact Hz].
  apply is_zero_sub; now apply is_zero_mul_zero.
Qed.

End SlopeRate.

(** * The SVG path converter *)

Section SvgConverter.

Import Svg.
Import bezier_curve.

Local Open Scope string_scope.

Ltac known_mode :=
  unfold relative;
  repeat match goal with
         | |- context [if ?c then _ else _] => destruct c
         end.

Lemma vertex_of_relative (s : self) (x' y' : float) (t1 : string) :
  exists p, vertex s x' y' (relative t1) = Return p.
Proof. known_mode; eexists; reflexivity. Qed.

(** X14.  The mode that [relative] computes from a command letter, any
    string in fact, is one of the six that [bezier_curve.vertex] knows:
    with it [vertex], [set_xy], [add_endpoint] and [add_midpoint] return,
    the [assert False] of [vertex] is not reached. *)
Theorem relative_mode_is_known (s : self) (x' y' : float) (t1 : string) :
  (exists p, vertex s x' y' (relative t1) = Return p)
  /\ (exists s', set_xy s x' y' (relative t1) = Return s')
  /\ (exists s', add_endpoint s x' y' (relative t1) = Return s')
  /\ (exists s', add_midpoint s x' y' (relative t1) = Return s').
Proof.
  unfold set_xy, add_endpoint, add_midpoint.
  destruct (vertex_of_relative s x' y' t1) as [p ->]. cbn [and_then].
  repeat split; eexists; reflexivity.
Qed.

Lemma pairs_flat {A : Type} (n : nat) :
  forall l : list A,
    List.length l = (2 * n)%nat ->
    List.length (pairs l) = n
    /\ flat_map (fun p => [fst p; snd p]) (pairs l) = l.
Proof.
  induction n as [|n IH]; intros l Hl.
  - destruct l; [split; reflexivity|discriminate].
  - destruct l as [|a [|b rest]]; try (cbn in Hl; lia).
    destruct (IH rest) as [H1 H2]; [cbn in Hl; lia|].
    cbn [pairs List.length flat_map fst snd app]. rewrite H1, H2.
    split; reflexivity.
Qed.

(** X15.  [vertices] pairs the numbers of a command: a list of even
    length gives half as many pairs, which put end to end are the list
    again; a list of odd length raises [SyntaxError]. *)
Theorem vertices_pairs (cmd : string) (l : list float) :
  ((List.length l mod 2 = 0)%nat ->
     exists v, vertices cmd l = Return v
               /\ List.length v = (List.length l / 2)%nat
               /\ flat_map (fun p => [fst p; snd p]) v = l)
  /\ ((List.length l mod 2 <> 0)%nat ->
      vertices cmd l = Raise SyntaxError).
Proof.
  unfold vertices. split; intros H.
  - rewrite H. cbn [Nat.eqb negb]. exists (pairs l).
    split; [reflexivity|].
    apply pairs_flat.
    pose proof (Nat.div_mod_eq (List.length l) 2). lia.
  - apply Nat.eqb_neq in H. now rewrite H.
Qed.

Lemma implicit_midpoint_inv (s s' : self) :
  implicit_midpoint s = Return s' ->
  exists front mp ep,
    vlist s = (front ++ [mp; ep])%list
    /\ vertex.t ep = "end" /\ vertex.t mp = "mid"
    /\ s' = append s
              (vertex.__init__ (2 * vertex.x ep - vertex.x mp)%float
                 (2 * vertex.y ep - vertex.y mp)%float "mid").
Proof.
  unfold implicit_midpoint.
  destruct (rev (vlist s)) as [|ep [|mp back]] eqn:E; try discriminate.
  destruct (vertex.t ep =? "end") eqn:He; [|discriminate].
  destruct (vertex.t mp =? "mid") eqn:Hm; [|discriminate].
  cbn [negb]. intros [= <-].
  exists (rev back), mp, ep.
  apply String.eqb_eq in He, Hm.
  split; [|repeat split; assumption].
  rewrite <- (rev_involutive (vlist s)), E. cbn [rev].
  now rewrite <- app_assoc.
Qed.

(** X16.  [implicit_midpoint] returns exactly when the last two vertices
    of the curve are a "mid" and an "end", in this order; it then adds
    the reflection of that midpoint across that endpoint as a "mid" and
    changes nothing else.  In every other case, the curves with fewer than
    two vertices included, it raises [AssertionError]. *)
Theorem implicit_midpoint_needs_mid_end (s : self) :
  (forall s',
      implicit_midpoint s = Return s' <->
      exists front mp ep,
        vlist s = (front ++ [mp; ep])%list
        /\ vertex.t ep = "end" /\ vertex.t mp = "mid"
        /\ s' = append s
                  (vertex.__init__ (2 * vertex.x ep - vertex.x mp)%float
                     (2 * vertex.y ep - vertex.y mp)%float "mid"))
  /\ (forall e, implicit_midpoint s = Raise e -> e = AssertionError).
Proof.
  split.
  - intros s'. split; [apply implicit_midpoint_inv|].
    intros (front & mp & ep & Hl & He & Hm & ->).
    unfold implicit_midpoint. rewrite Hl, rev_app_distr. cbn [rev app].
    apply String.eqb_eq in He, Hm. now rewrite He, Hm.
  - intros e. unfold implicit_midpoint.
    destruct (rev (vlist s)) as [|ep [|mp back]]; try now intros [= <-].
    destruct (vertex.t ep =? "end"); [|now intros [= <-]].
    destruct (vertex.t mp =? "mid"); [discriminate|now intros [= <-]].
Qed.

(** ** What the actions add to the curve *)

Lemma segments_app_bounded (n : nat) (b : list string) :
  segments b = true ->
  forall a, (List.length a <= n)%nat -> segments a = true ->
            segments (a ++ b) = true.
Proof.
  intros Hb. induction n as [|n IH]; intros a Hn Ha.
  - destruct a; [exact Hb|cbn in Hn; lia].
  - destruct a as [|t1 r1]; [exact Hb|].
    cbn [segments app List.length] in *.
    destruct (t1 =? "end"); [apply IH; [lia|exact Ha]|].
    destruct (t1 =? "mid"); [|discriminate].
    destruct r1 as [|t2 r2]; [discriminate|].
    cbn [app List.length] in *.
    destruct (t2 =? "end"); [apply IH; [lia|exact Ha]|].
    destruct (t2 =? "mid"); [|discriminate].
    destruct r2 as [|t3 r3]; [discriminate|].
    cbn [app List.length] in *.
    destruct (t3 =? "end"); [|discriminate]. cbn [andb] in *.
    apply IH; [lia|exact Ha].
Qed.

Lemma segments_app (a b : list string) :
  segments a = true -> segments b = true -> segments (a ++ b) = true.
Proof.
  intros Ha Hb. now apply (segments_app_bounded (List.length a) b Hb a).
Qed.

Lemma extends_refl (g : self) : extends g g.
Proof.
  split; [reflexivity|]. exists []. now rewrite app_nil_r.
Qed.

Lemma extends_trans (g1 g2 g3 : self) :
  extends g1 g2 -> extends g2 g3 -> extends g1 g3.
Proof.
  intros [C1 (a1 & E1 & S1)] [C2 (a2 & E2 & S2)].
  split; [congruence|]. exists (a1 ++ a2)%list. split.
  - now rewrite E2, E1, app_assoc.
  - rewrite map_app. now apply segments_app.
Qed.

Lemma for_each_extends {A : Type} (body : A -> self -> outcome self) :
  (forall a g g', body a g = Return g' -> extends g g') ->
  forall l g g', for_each body l g = Return g' -> extends g g'.
Proof.
  intros Hb. induction l as [|a rest IH]; intros g g'; cbn [for_each].
  - intros [= <-]. apply extends_refl.
  - destruct (body a g) as [g1|e] eqn:E; cbn [and_then]; [|discriminate].
    intros H. apply (extends_trans g g1 g'); [now apply (Hb a)|now apply IH].
Qed.

(** The calls of the curve's methods in the body of an action, one after
    the other. *)
Ltac run_body :=
  unfold add_midpoint, add_endpoint, set_xy;
  repeat match goal with
         | |- context [vertex ?s ?a ?b ?r] =>
             destruct (vertex s a b r) as [?p|?e]; cbn [and_then];
             try discriminate
         end.

Ltac added :=
  intros [= <-]; split; [reflexivity|]; cbn [append vlist];
  rewrite <- ?app_assoc; eexists; split; reflexivity.

Lemma add_endpoint_extends (g g' : self) (x' y' : float) (r : string) :
  add_endpoint g x' y' r = Return g' -> extends g g'.
Proof. run_body. added. Qed.

Lemma set_xy_extends (g g' : self) (x' y' : float) (r : string) :
  set_xy g x' y' r = Return g' -> extends g g'.
Proof.
  run_body. intros [= <-]. split; [reflexivity|]. exists [].
  cbn [vlist]. now rewrite app_nil_r.
Qed.

Lemma line_extends (g g' : self) (x' y' : float) (r : string) :
  (g <~ add_endpoint g x' y' r ;; set_xy g x' y' r) = Return g' ->
  extends g g'.
Proof. run_body. added. Qed.

Lemma p_lineto_extends (t1 : string) (t2 : list float) (g g' : self) :
  p_lineto t1 t2 g = Return g' -> extends g g'.
Proof.
  unfold p_lineto. destruct (vertices "L" t2) as [v|e]; [|discriminate].
  cbn [and_then].
  destruct (for_each _ v g) as [g1|e] eqn:E; [|discriminate].
  cbn [and_then]. destruct (last_item v) as [p|e]; [|discriminate].
  cbn [and_then]. intros H.
  apply (extends_trans g g1 g'); [|now apply set_xy_extends in H].
  apply (for_each_extends _ (fun a g g' => add_endpoint_extends g g' _ _ _)
           _ _ _ E).
Qed.

Lemma p_horizontal_lineto_extends (t1 : string) (t2 : list float)
    (g g' : self) :
  p_horizontal_lineto t1 t2 g = Return g' -> extends g g'.
Proof.
  unfold p_horizontal_lineto.
  destruct (1 <? List.length t2)%nat; [discriminate|].
  destruct (first_item t2) as [x'|e]; [|discriminate]. cbn [and_then].
  apply line_extends.
Qed.

Lemma p_vertical_lineto_extends (t1 : string) (t2 : list float)
    (g g' : self) :
  p_vertical_lineto t1 t2 g = Return g' -> extends g g'.
Proof.
  unfold p_vertical_lineto.
  destruct (1 <? List.length t2)%nat; [discriminate|].
  destruct (first_item t2) as [y'|e]; [|discriminate]. cbn [and_then].
  apply line_extends.
Qed.

Lemma p_curveto_extends (t1 : string) (t2 : list float) (g g' : self) :
  p_curveto t1 t2 g = Return g' -> extends g g'.
Proof.
  unfold p_curveto. destruct (vertices "C" t2) as [v|e]; [|discriminate].
  cbn [and_then]. destruct (negb _); [discriminate|].
  apply for_each_extends. clear. intros [[p0 p1] p2] g g'. run_body.
  added.
Qed.

Lemma p_quadratic_bezier_curveto_extends (t1 : string) (t2 : list float)
    (g g' : self) :
  p_quadratic_bezier_curveto t1 t2 g = Return g' -> extends g g'.
Proof.
  unfold p_quadratic_bezier_curveto.
  destruct (vertices "Q" t2) as [v|e]; [|discriminate].
  cbn [and_then]. destruct (negb _); [discriminate|].
  apply for_each_extends. clear. intros [p0 p1] g g'. run_body.
  added.
Qed.

Lemma implicit_midpoint_adds (g g1 : self) :
  implicit_midpoint g = Return g1 ->
  exists m, vertex.t m = "mid" /\ g1 = append g m.
Proof.
  intros H. destruct (implicit_midpoint_inv g g1 H)
    as (front & mp & ep & _ & _ & _ & ->).
  eexists. split; [|reflexivity]. reflexivity.
Qed.

Lemma p_smooth_curveto_extends (t1 : string) (t2 : list float)
    (g g' : self) :
  p_smooth_curveto t1 t2 g = Return g' -> extends g g'.
Proof.
  unfold p_smooth_curveto.
  destruct (vertices "S" t2) as [v|e]; [|discriminate].
  cbn [and_then]. destruct (negb _); [discriminate|].
  apply for_each_extends. clear. intros [p0 p1] g g'.
  destruct (implicit_midpoint g) as [g1|e] eqn:E; [|discriminate].
  destruct (implicit_midpoint_adds g g1 E) as (m & Hm & ->).
  cbn [and_then]. run_body.
  intros [= <-]. split; [reflexivity|].
  cbn [append vlist]. rewrite <- !app_assoc. eexists.
  split; [reflexivity|]. cbn [app map segments vertex.t]. now rewrite Hm.
Qed.

Lemma p_smooth_quadratic_bezier_curveto_extends (t1 : string)
    (t2 : list float) (g g' : self) :
  p_smooth_quadratic_bezier_curveto t1 t2 g = Return g' -> extends g g'.
Proof.
  unfold p_smooth_quadratic_bezier_curveto.
  destruct (vertices "T" t2) as [v|e]; [|discriminate].
  cbn [and_then].
  apply for_each_extends. clear. intros p0 g g'.
  destruct (implicit_midpoint g) as [g1|e] eqn:E; [|discriminate].
  destruct (implicit_midpoint_adds g g1 E) as (m & Hm & ->).
  cbn [and_then]. run_body.
  intros [= <-]. split; [reflexivity|].
  cbn [append vlist]. rewrite <- !app_assoc. eexists.
  split; [reflexivity|]. cbn [app map segments vertex.t]. now rewrite Hm.
Qed.

(** X17.  Every drawing action of the parser that returns has added whole
    segments to the curve and changed no vertex that was there: the types
    of the added vertices are groups "end", "mid end" and "mid mid end",
    so the added part ends with an endpoint and has at most two midpoints
    in a row, which is what [b.Add] and [b.Add(...).Mid()] must give for
    [Polygon] to build splines of order 1 to 3.  The closed flag is
    unchanged. *)
Theorem drawto_appends_segments (t1 : string) (t2 : list float)
    (g g' : self) :
  p_lineto t1 t2 g = Return g'
  \/ p_horizontal_lineto t1 t2 g = Return g'
  \/ p_vertical_lineto t1 t2 g = Return g'
  \/ p_curveto t1 t2 g = Return g'
  \/ p_smooth_curveto t1 t2 g = Return g'
  \/ p_quadratic_bezier_curveto t1 t2 g = Return g'
  \/ p_smooth_quadratic_bezier_curveto t1 t2 g = Return g'
  \/ p_elliptical_arc t1 t2 g = Return g' ->
  extends g g'.
Proof.
  intros [H|[H|[H|[H|[H|[H|[H|H]]]]]]].
  - exact (p_lineto_extends _ _ _ _ H).
  - exact (p_horizontal_lineto_extends _ _ _ _ H).
  - exact (p_vertical_lineto_extends _ _ _ _ H).
  - exact (p_curveto_extends _ _ _ _ H).
  - exact (p_smooth_curveto_extends _ _ _ _ H).
  - exact (p_quadratic_bezier_curveto_extends _ _ _ _ H).
  - exact (p_smooth_quadratic_bezier_curveto_extends _ _ _ _ H).
  - injection H as <-. apply extends_refl.
Qed.

(** ** Smooth curves after a moveto *)

Lemma for_each_ends (r : string) (l : list (float * float)) :
  forall g g',
    for_each (fun p g => add_endpoint g (fst p) (snd p) r) l g = Return g' ->
    exists ends,
      vlist g' = (vlist g ++ ends)%list
      /\ Forall (fun v => vertex.t v = "end") ends.
Proof.
  induction l as [|p rest IH]; intros g g'; cbn [for_each].
  - intros [= <-]. exists []. split; [now rewrite app_nil_r|constructor].
  - unfold add_endpoint at 1.
    destruct (vertex g (fst p) (snd p) r) as [q|e]; [|discriminate].
    cbn [and_then]. intros H. destruct (IH _ _ H) as (ends & E & F).
    exists (vertex.__init__ (fst q) (snd q) "end" :: ends).
    cbn [append vlist] in E. rewrite E, <- app_assoc.
    split; [reflexivity|]. now constructor.
Qed.

Lemma vertex_abs_xy (s : self) (x' y' : float) :
  vertex s x' y' "abs_xy" = Return (x', y').
Proof. reflexivity. Qed.

(** What [p_moveto] makes of a curve when it has numbers. *)
Lemma p_moveto_inv (t1 : string) (t2 : list float) (g g' : self) :
  t2 <> [] -> p_moveto t1 t2 g = Return g' ->
  exists x' y' ends,
    vlist g'
    = (vlist g ++ vertex.__init__ x' y' "start"
                  :: vertex.__init__ x' y' "end" :: ends)%list
    /\ Forall (fun v => vertex.t v = "end") ends.
Proof.
  intros Hne. unfold p_moveto, vertices.
  destruct t2 as [|a [|b rest]]; [congruence| |].
  - (* one number: no pair *)
    cbn. discriminate.
  - destruct (negb _); [discriminate|]. cbn [and_then].
    cbn [pairs]. set (v := pairs rest).
    unfold add_endpoint at 1, set_xy at 1.
    rewrite vertex_abs_xy. cbn [and_then].
    rewrite vertex_abs_xy. cbn [and_then fst snd].
    destruct (2 <=? List.length ((a, b) :: v))%nat.
    + cbn [tl].
      destruct (for_each _ v _) as [g1|e] eqn:E; [|discriminate].
      cbn [and_then]. destruct (last_item _) as [p|e]; [|discriminate].
      cbn [and_then]. unfold set_xy.
      destruct (vertex g1 _ _ _) as [q|e]; [|discriminate].
      cbn [and_then]. intros [= <-]. cbn [vlist].
      destruct (for_each_ends _ _ _ _ E) as (ends & E1 & F).
      cbn [vlist add_start append] in E1.
      exists a, b, ends. split; [|exact F].
      rewrite E1, <- !app_assoc. reflexivity.
    + intros [= <-]. cbn [vlist add_start append].
      exists a, b, []. split; [|constructor].
      now rewrite <- app_assoc.
Qed.

Lemma implicit_midpoint_after_moveto (g : self) (front ends : list vertex.self)
    (x' y' : float) :
  vlist g = (front ++ vertex.__init__ x' y' "start"
                      :: vertex.__init__ x' y' "end" :: ends)%list ->
  Forall (fun v => vertex.t v = "end") ends ->
  implicit_midpoint g = Raise AssertionError.
Proof.
  intros Hl F. unfold implicit_midpoint. rewrite Hl, rev_app_distr.
  cbn [rev]. rewrite <- !app_assoc. cbn [app].
  apply Forall_rev in F.
  destruct (rev ends) as [|ep [|mp back]]; cbn [app].
  - reflexivity.
  - inversion F as [|? ? He _]; subst. cbn in He. rewrite He. reflexivity.
  - inversion F as [|? ? He F']; subst. inversion F' as [|? ? Hm _]; subst.
    cbn in He, Hm. rewrite He, Hm. reflexivity.
Qed.

Lemma half_positive (n : nat) :
  (0 < n)%nat -> (n mod 2 = 0)%nat -> (0 < n / 2)%nat.
Proof. intros Hn H. pose proof (Nat.div_mod_eq n 2). lia. Qed.

Lemma pairs_length {A : Type} (l : list A) :
  (List.length l mod 2 = 0)%nat ->
  List.length (pairs l) = (List.length l / 2)%nat.
Proof.
  intros H. apply pairs_flat.
  pose proof (Nat.div_mod_eq (List.length l) 2). lia.
Qed.

(** X18.  A smooth curve command directly after a moveto never succeeds:
    on the curve that [p_moveto] returns for a list of numbers,
    [p_smooth_curveto] and [p_smooth_quadratic_bezier_curveto] raise, for
    every letter and every list of numbers ([AssertionError] from
    [implicit_midpoint] when the count of the numbers is accepted).  SVG
    allows "M ... S ..." and "M ... T ...". *)
Theorem smooth_after_moveto_raises (m t1 : string) (nums t2 : list float)
    (g g' : self) :
  nums <> [] -> p_moveto m nums g = Return g' -> t2 <> [] ->
  (exists e, p_smooth_curveto t1 t2 g' = Raise e
             /\ ((List.length t2 mod 4 = 0)%nat -> e = AssertionError))
  /\ (exists e, p_smooth_quadratic_bezier_curveto t1 t2 g' = Raise e
                /\ ((List.length t2 mod 2 = 0)%nat -> e = AssertionError)).
Proof.
  intros Hn Hm Ht.
  destruct (p_moveto_inv _ _ _ _ Hn Hm) as (x' & y' & ends & Hl & F).
  pose proof (implicit_midpoint_after_moveto g' _ _ _ _ Hl F) as Hi.
  assert (Hpos : (0 < List.length t2)%nat).
  { destruct t2; [congruence|cbn; lia]. }
  unfold p_smooth_curveto, p_smooth_quadratic_bezier_curveto, vertices.
  destruct (Nat.eqb_spec (List.length t2 mod 2) 0) as [H2|H2];
    cbn [negb and_then].
  2:{ pose proof (Nat.div_mod_eq (List.length t2) 4).
      pose proof (Nat.div_mod_eq (List.length t2) 2).
      pose proof (Nat.mod_upper_bound (List.length t2) 2).
      split; eexists; (split; [reflexivity|]); intros H4; exfalso; lia. }
  pose proof (pairs_length t2 H2) as Hp.
  split.
  - destruct (Nat.eqb_spec (List.length (pairs t2) mod 2) 0) as [H4|H4];
      cbn [negb].
    2:{ eexists. split; [reflexivity|]. intros H0. exfalso.
        rewrite Hp in H4.
        pose proof (Nat.div_mod_eq (List.length t2) 4).
        pose proof (Nat.div_mod_eq (List.length t2) 2).
        pose proof (Nat.div_mod_eq (List.length t2 / 2) 2).
        pose proof (Nat.mod_upper_bound (List.length t2 / 2) 2). lia. }
    pose proof (pairs_length (pairs t2) H4) as Hpp.
    pose proof (half_positive _ Hpos H2) as Hpos2.
    rewrite <- Hp in Hpos2.
    pose proof (half_positive _ Hpos2 H4) as Hpos4.
    destruct (pairs (pairs t2)) as [|[p0 p1] rest].
    + exfalso. cbn [List.length] in Hpp. lia.
    + cbn [for_each]. rewrite Hi. cbn [and_then].
      eexists. split; reflexivity.
  - pose proof (half_positive _ Hpos H2) as Hpos2.
    destruct (pairs t2) as [|p0 rest].
    + exfalso. cbn [List.length] in Hp. lia.
    + cbn [for_each]. rewrite Hi. cbn [and_then].
      eexists. split; reflexivity.
Qed.

(** ** The numbers of a curveto *)

Lemma triples_length {A : Type} (n : nat) :
  forall l : list A,
    List.length l = (3 * n)%nat -> List.length (triples l) = n.
Proof.
  induction n as [|n IH]; intros l Hl.
  - destruct l; [reflexivity|discriminate].
  - destruct l as [|a [|b [|c rest]]]; try (cbn in Hl; lia).
    cbn [triples List.length]. rewrite IH; [reflexivity|cbn in Hl; lia].
Qed.

Lemma for_each_count {A : Type} (body : A -> self -> outcome self)
    (k : nat) :
  (forall a g, exists g',
      body a g = Return g'
      /\ List.length (vlist g') = (List.length (vlist g) + k)%nat) ->
  forall l g, exists g',
    for_each body l g = Return g'
    /\ List.length (vlist g')
       = (List.length (vlist g) + k * List.length l)%nat.
Proof.
  intros Hb. induction l as [|a rest IH]; intros g; cbn [for_each].
  - exists g. split; [reflexivity|cbn; lia].
  - destruct (Hb a g) as (g1 & -> & L1). cbn [and_then].
    destruct (IH g1) as (g' & -> & L'). exists g'.
    split; [reflexivity|cbn [List.length]; lia].
Qed.

(** X19.  [p_curveto] takes its numbers six at a time: when their count
    is a multiple of 6 it returns, with any letter and from any curve, and
    has added half as many vertices as there are numbers; for any other
    count it raises [SyntaxError]. *)
Theorem curveto_arity (t1 : string) (t2 : list float) (g : self) :
  ((List.length t2 mod 6 = 0)%nat ->
     exists g',
       p_curveto t1 t2 g = Return g'
       /\ List.length (vlist g')
          = (List.length (vlist g) + List.length t2 / 2)%nat)
  /\ ((List.length t2 mod 6 <> 0)%nat ->
      p_curveto t1 t2 g = Raise SyntaxError).
Proof.
  pose proof (Nat.div_mod_eq (List.length t2) 6) as D6.
  pose proof (Nat.div_mod_eq (List.length t2) 2) as D2.
  pose proof (Nat.mod_upper_bound (List.length t2) 2 ltac:(lia)) as U2.
  pose proof (Nat.div_mod_eq (List.length t2 / 2) 3) as D3.
  pose proof (Nat.mod_upper_bound (List.length t2 / 2) 3 ltac:(lia)) as U3.
  pose proof (Nat.mod_upper_bound (List.length t2) 6 ltac:(lia)) as U6.
  unfold p_curveto, vertices.
  destruct (Nat.eqb_spec (List.length t2 mod 2) 0) as [H2|H2];
    cbn [negb and_then].
  2:{ split; [intros H; exfalso; lia|reflexivity]. }
  rewrite (pairs_length t2 H2).
  destruct (Nat.eqb_spec ((List.length t2 / 2) mod 3) 0) as [H3|H3];
    cbn [negb].
  2:{ split; [intros H; exfalso; lia|reflexivity]. }
  split; [intros _|intros H; exfalso; lia].
  destruct (for_each_count
              (fun s g =>
                 let '(p0, p1, p2) := s in
                 g <~ add_midpoint g (fst p0) (snd p0) (relative t1) ;;
                 g <~ add_midpoint g (fst p1) (snd p1) (relative t1) ;;
                 g <~ add_endpoint g (fst p2) (snd p2) (relative t1) ;;
                 set_xy g (fst p2) (snd p2) (relative t1)) 3)
    with (l := triples (pairs t2)) (g := g) as (g' & E & L).
  { clear. intros [[p0 p1] p2] g.
    unfold add_midpoint, add_endpoint, set_xy.
    destruct (vertex_of_relative g (fst p0) (snd p0) t1) as [q0 ->].
    cbn [and_then].
    destruct (vertex_of_relative
                (append g (vertex.__init__ (fst q0) (snd q0) "mid"))
                (fst p1) (snd p1) t1) as [q1 ->].
    cbn [and_then].
    match goal with
    | |- context [vertex ?s (fst p2) (snd p2) (relative t1)] =>
        destruct (vertex_of_relative s (fst p2) (snd p2) t1) as [q2 ->]
    end.
    cbn [and_then].
    match goal with
    | |- context [vertex ?s (fst p2) (snd p2) (relative t1)] =>
        destruct (vertex_of_relative s (fst p2) (snd p2) t1) as [q3 ->]
    end.
    cbn [and_then]. eexists. split; [reflexivity|].
    cbn [vlist append]. rewrite !length_app. cbn [List.length]. lia. }
  exists g'. split; [exact E|]. rewrite L.
  rewrite (triples_length (List.length t2 / 2 / 3)).
  - pose proof (Nat.div_mod_eq (List.length t2 / 2) 3). lia.
  - rewrite (pairs_length t2 H2). lia.
Qed.

(** ** Relative linetos *)

Lemma for_each_rel_xy (l : list (float * float)) :
  forall g,
    for_each (fun p g => add_endpoint g (fst p) (snd p) "rel_xy") l g
    = Return
        (mk (x g) (y g)
           (vlist g
            ++ map (fun p => vertex.__init__ (x g + fst p)%float
                               (y g + snd p)%float "end") l)%list
           (closed g)).
Proof.
  induction l as [|p rest IH]; intros g; cbn [for_each map].
  - rewrite app_nil_r. now destruct g.
  - unfold add_endpoint at 1.
    change (vertex g (fst p) (snd p) "rel_xy")
      with (Return (A := float * float)
              (x g + fst p, y g + snd p)%float).
    cbn [and_then fst snd]. rewrite IH. cbn [append x y vlist closed].
    now rewrite <- app_assoc.
Qed.

(** X20.  The points of one relative lineto do not chain: with the
    letter "l" and the pairs [(dx, dy)], every added endpoint is the
    position before the command plus its own pair, and the new position is
    the position before the command plus the last pair.  (In SVG every
    pair is relative to the point before it.) *)
Theorem relative_lineto_does_not_chain (t2 : list float) (g : self) :
  (List.length t2 mod 2 = 0)%nat -> t2 <> [] ->
  exists last,
    last_item (pairs t2) = Return last
    /\ p_lineto "l" t2 g
       = Return
           (mk (x g + fst last)%float (y g + snd last)%float
              (vlist g
               ++ map (fun p => vertex.__init__ (x g + fst p)%float
                                  (y g + snd p)%float "end")
                    (pairs t2))%list
              (closed g)).
Proof.
  intros H2 Hne.
  assert (Hp : pairs t2 <> []).
  { destruct t2 as [|a [|b rest]]; [congruence|discriminate|discriminate]. }
  unfold p_lineto, vertices. rewrite H2. cbn [Nat.eqb negb and_then].
  change (relative "l") with "rel_xy". rewrite for_each_rel_xy.
  cbn [and_then]. unfold last_item.
  destruct (rev (pairs t2)) as [|last back] eqn:E.
  - exfalso. apply Hp. rewrite <- (rev_involutive (pairs t2)), E.
    reflexivity.
  - exists last. split; [reflexivity|]. reflexivity.
Qed.

(** ** Flipping the y axis *)

Lemma opp_involutive (z : float) : (- - z)%float = z.
Proof.
  apply Prim2SF_inj. rewrite !opp_spec. now destruct (Prim2SF z) as [[]|[]| |[]].
Qed.

(** X21.  [flipy] is an involution: it keeps the position, the closed
    flag, the number and the types of the vertices and their x
    coordinates, it negates every y coordinate, and flipping twice gives
    the curve back. *)
Theorem flipy_involution (s : self) :
  flipy (flipy s) = s
  /\ x (flipy s) = x s
  /\ y (flipy s) = y s
  /\ closed (flipy s) = closed s
  /\ List.length (vlist (flipy s)) = List.length (vlist s)
  /\ map vertex.t (vlist (flipy s)) = map vertex.t (vlist s)
  /\ map vertex.x (vlist (flipy s)) = map vertex.x (vlist s)
  /\ map vertex.y (vlist (flipy s))
     = map (fun v => (- vertex.y v)%float) (vlist s).
Proof.
  destruct s as [sx sy vl c]. unfold flipy. cbn [x y vlist closed].
  rewrite !map_map, length_map. cbn [vertex.x vertex.y vertex.t].
  split; [|split; [|split; [|split; [|split; [|split; [|split]]]]]];
    try reflexivity.
  f_equal. rewrite <- (map_id vl) at 2. apply map_ext.
  intros [vx vy vt]. cbn. now rewrite opp_involutive.
Qed.

End SvgConverter.

(** * Examples of the further properties *)

Lemma closure_closes_the_loop_witness :
  let b := triangle in
  let b' := triangle_closed in
  Bezier.closure b = Ok b'
  /\ Bezier.closed b' = Bezier.closed b
  /\ (exists tail,
        Bezier.vlist b' = Bezier.vlist b ++ tail /\ (length tail <= 1)%nat)
  /\ (Bezier.closed b = true ->
      exists first rest,
        Bezier.vlist b = first :: rest
        /\ BezierVertex.vtype first = ENDPOINT
        /\ BezierVertex.vtype (List.last (Bezier.vlist b') first) = ENDPOINT
        /\ (List.last (Bezier.vlist b') first = first
            \/ V2ops.Equals
                 (BezierVertex.vertex (List.last (Bezier.vlist b') first))
                 (BezierVertex.vertex first) = true)).
Proof.
  split; [reflexivity|].
  exact (closure_closes_the_loop triangle triangle_closed eq_refl).
Defined.

Lemma fixups_postcondition_witness :
  let b := triangle in
  let b' := triangle_closed in
  @Bezier.fixups libm_stub b = Ok b'
  /\ Bezier.closed b' = Bezier.closed b
  /\ (2 <= length (Bezier.vlist b'))%nat
  /\ starts_with_endpoint (Bezier.vlist b') = true
  /\ ends_with_endpoint (Bezier.vlist b') = true
  /\ Forall cleared (Bezier.vlist b').
Proof.
  split; [reflexivity|].
  exact (@fixups_postcondition libm_stub triangle triangle_closed eq_refl).
Defined.

Lemma fixups_idempotent_witness :
  @Bezier.fixups libm_stub triangle = Ok triangle_closed
  /\ @Bezier.fixups libm_stub triangle_closed = Ok triangle_closed.
Proof.
  split; [reflexivity|].
  apply (@fixups_idempotent libm_stub triangle triangle_closed eq_refl).
  right. intros first rest E. injection E as <- _. reflexivity.
Defined.

Lemma Polygon_returns_witness :
  exists pts k,
    @Bezier.Polygon libm_stub 1001 curve_0_5_10 = Ok pts
    /\ S k = length (filter is_endpoint (Bezier.vlist curve_0_5_10))
    /\ (1 <= k)%nat
    /\ (2 * k <= length pts <= 1001 * k)%nat.
Proof.
  exact (@Polygon_returns libm_stub 1001 curve_0_5_10 curve_0_5_10 eq_refl
           (run_check_sound 3 0 (Bezier.vlist curve_0_5_10) eq_refl)
           (le_n 1001)).
Defined.

Lemma sampling_parameter_increases_witness :
  (0.5 <? Bezier.next_t 0.5 (Abs 1)) = true.
Proof.
  exact (sampling_parameter_increases 0.5 1 eq_refl eq_refl).
Defined.

Lemma straight_start_renders_chord_witness :
  exists v0 v1,
    BezierSpline.f0 quadratic_spline 0 = Ok v0
    /\ BezierSpline.f0 quadratic_spline 1 = Ok v1
    /\ @Bezier.render libm_stub 2 quadratic_spline [] = Ok ([] ++ [v0; v1]).
Proof.
  apply (@straight_start_renders_chord libm_stub 2 quadratic_spline [] 0 0);
    [cbn; lia|cbn; lia|apply le_n|reflexivity|reflexivity|reflexivity].
Defined.

Lemma endpoints_with_handles_flatten_witness :
  exists b',
    @Bezier.fixups libm_stub handled_line = Ok b'
    /\ runs_bounded 2 (Bezier.vlist b')
    /\ exists pts,
         @Bezier.Polygon libm_stub 1001 handled_line = Ok pts
         /\ (2 <= length pts)%nat.
Proof.
  eexists. split; [reflexivity|].
  apply (@endpoints_with_handles_flatten libm_stub 1001 handled_line);
    [reflexivity|reflexivity|apply le_n].
Defined.

Lemma polyline_flattens_witness :
  (Bezier.vlist line_0_10 = Bezier.vlist line_0_10
   \/ exists first rest,
        Bezier.vlist line_0_10 = first :: rest
        /\ Bezier.vlist line_0_10 = Bezier.vlist line_0_10 ++ [first])
  /\ exists pts,
       @Bezier.Polygon libm_stub 0 line_0_10 = Ok pts
       /\ length pts = (2 * (length (Bezier.vlist line_0_10) - 1))%nat.
Proof.
  apply (@polyline_flattens libm_stub 0 line_0_10 line_0_10);
    [reflexivity|repeat constructor|reflexivity].
Defined.

Lemma m1_of_a_line_witness :
  ((BezierPolynomial.b (BezierSpline.px diagonal_spline) =? 0) = true ->
     BezierSpline.m1 diagonal_spline 0.5
     = Ok (0, Some BezierSpline.Errorf_inf))
  /\ ((BezierPolynomial.b (BezierSpline.px diagonal_spline) =? 0) = false ->
      exists r, BezierSpline.m1 diagonal_spline 0.5 = Ok (r, None)
                /\ is_zero r).
Proof.
  exact (m1_of_a_line diagonal_spline 0.5 eq_refl eq_refl eq_refl eq_refl).
Defined.

Lemma added_points_flatten_witness :
  let ps := [mkV2 0 0; mkV2 10 0; mkV2 0 10] in
  (exists pts,
      @Bezier.Polygon libm_stub 0 (polyline ps) = Ok pts
      /\ length pts = (2 * (length ps - 1))%nat)
  /\ (exists pts,
        @Bezier.Polygon libm_stub 0 (Bezier.Close (polyline ps)) = Ok pts
        /\ length pts
           = (if V2ops.Equals (List.last ps (mkV2 0 0)) (hd (mkV2 0 0) ps)
              then 2 * (length ps - 1) else 2 * length ps)%nat).
Proof.
  exact (@added_points_flatten libm_stub 0
           [mkV2 0 0; mkV2 10 0; mkV2 0 10] (mkV2 0 0)
           (le_S 2 2 (le_n 2))).
Defined.

Lemma drawto_appends_segments_witness : extends after_moveto after_curveto.
Proof.
  apply (drawto_appends_segments "C" [1; 1; 2; 2; 3; 0]).
  right. right. right. left. reflexivity.
Defined.

Lemma smooth_after_moveto_raises_witness :
  Svg.p_moveto "M" [0; 0] Svg.bezier_curve.__init__ = Svg.Return after_moveto
  /\ (exists e,
        Svg.p_smooth_curveto "s" [1; 1; 2; 2] after_moveto = Svg.Raise e
        /\ ((length [1; 1; 2; 2] mod 4 = 0)%nat -> e = Svg.AssertionError))
  /\ (exists e,
        Svg.p_smooth_quadratic_bezier_curveto "s" [1; 1; 2; 2] after_moveto
        = Svg.Raise e
        /\ ((length [1; 1; 2; 2] mod 2 = 0)%nat -> e = Svg.AssertionError)).
Proof.
  split; [reflexivity|].
  apply (smooth_after_moveto_raises "M" "s" [0; 0] [1; 1; 2; 2]
           Svg.bezier_curve.__init__ after_moveto);
    [discriminate|reflexivity|discriminate].
Defined.

Lemma relative_lineto_does_not_chain_witness :
  exists last,
    Svg.last_item (Svg.pairs [1; 0; 1; 0]) = Svg.Return last
    /\ Svg.p_lineto "l" [1; 0; 1; 0] after_moveto
       = Svg.Return
           (Svg.bezier_curve.mk
              (Svg.bezier_curve.x after_moveto + fst last)
              (Svg.bezier_curve.y after_moveto + snd last)
              (Svg.bezier_curve.vlist after_moveto
               ++ map (fun p =>
                         Svg.vertex.__init__
                           (Svg.bezier_curve.x after_moveto + fst p)
                           (Svg.bezier_curve.y after_moveto + snd p) "end")
                    (Svg.pairs [1; 0; 1; 0]))
              (Svg.bezier_curve.closed after_moveto)).
Proof.
  apply (relative_lineto_does_not_chain [1; 0; 1; 0] after_moveto);
    [reflexivity|discriminate].
Defined.
